(** * The wave mesh of glmark2's buffer scene (src/scene-buffer.cpp)

    A shallow embedding of [wave_grid_conf] and of the class [WaveMesh]
    (constructor, [update], [vertex_length_index], [wave_func],
    [displacement], [create_mesh]) together with the properties of the
    dirty-range detection and of the vertex-range conversion.

    Conventions of the embedding.
    - [size_t] is a [Z] in [0, 2^64); every [size_t] operation of the source
      is written with its wrap-around ([sz_add], [sz_sub], [sz_mul]).
    - [std::vector] is a [list]; an access outside the vector, like a
      division by zero on [size_t], is undefined behaviour in C++ and makes
      the embedded function return [None].
    - [double] is an abstract type with the operations the source uses
      (class [DoubleOps], and [Libm] for [fmod] and [std::sin]), so that
      the properties of the index arithmetic hold whatever the arithmetic of
      the doubles is.  The instance is IEEE binary64 (the primitive floats);
      [std::sin] is the C library's and stays a parameter of it.
    - [Mesh], [LibMatrix::vec3] and [Mesh::make_grid] are not part of
      scene-buffer.cpp; the few operations the wave mesh needs from them are
      modelled from the specification and marked as such. *)

From Stdlib Require Import ZArith Lia Floats.
From stdpp Require Import base option list sorting.

Local Open Scope Z_scope.

(** ** size_t arithmetic *)

(** The number of [size_t] values, 2^64. *)
Definition SIZE_MOD : Z := Eval cbv in 2 ^ 64.

(** Reduction of a mathematical integer to its [size_t] value. *)
Definition sz (x : Z) : Z := x mod SIZE_MOD.

Definition sz_add (a b : Z) : Z := sz (a + b).
Definition sz_sub (a b : Z) : Z := sz (a - b).
Definition sz_mul (a b : Z) : Z := sz (a * b).

(** [a / b] on [size_t]: undefined for [b = 0]. *)
Definition sz_div (a b : Z) : option Z :=
  if decide (b = 0) then None else Some (a / b).

(** The value of a C++ [bool] used as an integer. *)
Definition bool_to_sz (b : bool) : Z := if b then 1 else 0.

(** ** std::vector accesses *)

(** [vec[i]] read. *)
Definition vec_get {A : Type} (vec : list A) (i : Z) : option A :=
  vec !! Z.to_nat i.

(** [vec[i] = x]. *)
Definition vec_set {A : Type} (vec : list A) (i : Z) (x : A) : option (list A) :=
  if decide (Z.to_nat i < length vec)%nat
  then Some (<[Z.to_nat i := x]> vec)
  else None.

(** [vec[i][k] = x] on a vector of vectors. *)
Definition vec_set2 {A : Type} (vec : list (list A)) (i k : Z) (x : A)
  : option (list (list A)) :=
  row ← vec_get vec i;
  row' ← vec_set row k x;
  vec_set vec i row'.

(** ** Counted loops *)

(** [for (i = start; <count more iterations>; i++) s = body(i, s)]. *)
Fixpoint for_loop {S : Type} (count : nat) (start : Z) (body : Z -> S -> S) (s : S) : S :=
  match count with
  | O => s
  | Datatypes.S count' => for_loop count' (start + 1) body (body start s)
  end.

(** The same loop when the body can hit undefined behaviour. *)
Fixpoint for_loopM {S : Type} (count : nat) (start : Z)
  (body : Z -> S -> option S) (s : S) : option S :=
  match count with
  | O => Some s
  | Datatypes.S count' => s' ← body start s; for_loopM count' (start + 1) body s'
  end.

(** ** The double-precision operations used by the source *)

Class DoubleOps (D : Type) : Type := {
  (** conversion of an [int] literal or of a [size_t] value to [double] *)
  dbl_of_Z : Z -> D;
  (** the literals [M_PI], [0.1] and [0.2] *)
  dbl_M_PI : D;
  dbl_0_1 : D;
  dbl_0_2 : D;
  dbl_add : D -> D -> D;
  dbl_sub : D -> D -> D;
  dbl_mul : D -> D -> D;
  dbl_div : D -> D -> D;
  (** [a < b]; the source's [a > b] is [dbl_lt b a] *)
  dbl_lt : D -> D -> bool;
  (** [a != b] *)
  dbl_ne : D -> D -> bool
}.

(** [fmod] and [std::sin] of <cmath>. *)
Class Libm (D : Type) : Type := {
  libm_fmod : D -> D -> D;
  libm_sin : D -> D
}.

(** The conversion of a [double] to the [float] of the vertex store, done
    implicitly by the assignments [vertices[v][k] = displacement_[...]]. *)
Class Narrow (D F : Type) : Type := {
  narrow : D -> F
}.

(** ** The vertex store *)

(** Modelled from the spec: [LibMatrix::vec3] is declared outside
    scene-buffer.cpp; a position is three floats. *)
Record vec3 (F : Type) : Type := Vec3 { v3x : F; v3y : F; v3z : F }.
Arguments Vec3 {F} _ _ _.
Arguments v3x {F} _.
Arguments v3y {F} _.
Arguments v3z {F} _.

(** One vertex: [std::vector<float>], here with 4 attributes of 3 floats. *)
Abbreviation vertex F := (list F) (only parsing).

(** [Mesh::vertices()]: [std::vector<std::vector<float> >]. *)
Abbreviation vertices_t F := (list (list F)) (only parsing).

(** Number of floats of a vertex for the format [3, 3, 3, 3] that
    [create_mesh] sets. *)
Definition VERTEX_SIZE : nat := 12.

Section Mesh.
Context {D F : Type} `{!DoubleOps D} `{!Narrow D F}.

(** Modelled from the spec: [Mesh::next_vertex] is not in scene-buffer.cpp.
    It appends a fresh vertex of 4 slots of 3 floats to the vertex store and
    makes it the current one. *)
Definition next_vertex (m : vertices_t F) : vertices_t F :=
  m ++ [replicate VERTEX_SIZE (narrow (dbl_of_Z 0))].

(** The three floats of [p] written at slot [pos] of vertex [vx]. *)
Definition write_slot (pos : nat) (p : vec3 F) (vx : vertex F) : vertex F :=
  <[(3 * pos + 2)%nat := v3z p]>
    (<[(3 * pos + 1)%nat := v3y p]> (<[(3 * pos)%nat := v3x p]> vx)).

(** Modelled from the spec: [Mesh::set_attrib] is not in scene-buffer.cpp.
    It stores a position in attribute slot [pos] of the current (last)
    vertex. *)
Definition set_attrib (pos : nat) (p : vec3 F) (m : vertices_t F) : vertices_t F :=
  match m with
  | [] => []
  | _ => <[pred (length m) := write_slot pos p (default [] (last m))]> m
  end.

(** [wave_grid_conf], the per-quad callback: the corner table
    [t = {ll, ur, ul, ur, ll, lr}] and the loop over its six entries.  The
    arguments [x], [y], [n_x], [n_y] are unused, as in the source. *)
Definition corner_table (ul ll ur lr : vec3 F) (k : Z) : vec3 F :=
  match k with
  | 0 => ll
  | 1 => ur
  | 2 => ul
  | 3 => ur
  | 4 => ll
  | _ => lr
  end.

Definition wave_grid_conf_vertex (t : Z -> vec3 F) (i : Z) (m : vertices_t F)
  : vertices_t F :=
  let m := next_vertex m in
  let m := set_attrib 0 (t i) m in
  let m := set_attrib 1 (t (3 * (i / 3))) m in
  let m := set_attrib 2 (t (3 * (i / 3) + 1)) m in
  set_attrib 3 (t (3 * (i / 3) + 2)) m.

Definition wave_grid_conf (m : vertices_t F) (x y n_x n_y : Z)
  (ul ll ur lr : vec3 F) : vertices_t F :=
  for_loop 6 0 (wave_grid_conf_vertex (corner_table ul ll ur lr)) m.

(** Modelled from the spec: the x coordinate of length line [i] of a grid of
    [n_x] columns over [0, length], by linear interpolation (the same
    expression as the [x] of [displacement]). *)
Definition grid_x (length : D) (n_x i : Z) : D :=
  dbl_div (dbl_mul (dbl_of_Z i) length) (dbl_of_Z n_x).

(** Modelled from the spec: the y coordinate of width line [j]. *)
Definition grid_y (width : D) (n_y j : Z) : D :=
  dbl_div (dbl_mul (dbl_of_Z j) width) (dbl_of_Z n_y).

(** Modelled from the spec: the corner of length line [i] and width line
    [j], at z = base height, as floats. *)
Definition grid_corner (length width base : D) (n_x n_y i j : Z) : vec3 F :=
  Vec3 (narrow (grid_x length n_x i)) (narrow (grid_y width n_y j)) (narrow base).

(** Modelled from the spec: [Mesh::make_grid] is not in scene-buffer.cpp.
    Section 4.1: the callback is invoked once per quad with the four corners
    computed by linear interpolation over [0,length] x [0,width] at
    z = base height; the quads of one length index are emitted together
    (outer loop on the length index), which is the order the formula
    v / (6 * nwidth) of [vertex_length_index] needs. *)
Definition make_grid (n_x n_y : Z) (length width base : D)
  (conf : vertices_t F -> Z -> Z -> Z -> Z ->
          vec3 F -> vec3 F -> vec3 F -> vec3 F -> vertices_t F)
  (m : vertices_t F) : vertices_t F :=
  for_loop (Z.to_nat n_x) 0 (fun i m =>
    for_loop (Z.to_nat n_y) 0 (fun j m =>
      let c := grid_corner length width base n_x n_y in
      conf m i j n_x n_y (c i (j + 1)) (c i j) (c (i + 1) (j + 1)) (c (i + 1) j)) m) m.

End Mesh.

(** ** class WaveMesh *)

(** The data members.  [program_] belongs to the GL layer and [wave_fill_]
    is declared but never initialised nor read; both are left out.  [mesh_]
    is represented by its vertex store. *)
Record WaveMesh (D F : Type) : Type := MkWaveMesh {
  mesh_ : vertices_t F;
  length_ : D;
  width_ : D;
  nlength_ : Z;
  nwidth_ : Z;
  wave_k_ : D;
  wave_period_ : D;
  wave_full_period_ : D;
  wave_velocity_ : D;
  displacement_ : list D
}.
Arguments MkWaveMesh {D F} _ _ _ _ _ _ _ _ _ _.
Arguments mesh_ {D F} _.
Arguments length_ {D F} _.
Arguments width_ {D F} _.
Arguments nlength_ {D F} _.
Arguments nwidth_ {D F} _.
Arguments wave_k_ {D F} _.
Arguments wave_period_ {D F} _.
Arguments wave_full_period_ {D F} _.
Arguments wave_velocity_ {D F} _.
Arguments displacement_ {D F} _.

Section WaveMesh.
Context {D F : Type} `{!DoubleOps D} `{!Libm D} `{!Narrow D F}.

(** [WaveMesh::create_mesh]: the vertex format is four slots of three floats
    ([VERTEX_SIZE]); the grid is made with [0.0] as fifth argument. *)
Definition create_mesh (length width : D) (nlength nwidth : Z) : vertices_t F :=
  make_grid nlength nwidth length width (dbl_of_Z 0) wave_grid_conf [].

(** The constructor: the member initialisers, in declaration order of the
    initialiser list, then [create_mesh] ([create_program] only touches the
    GL program).  [displacement_(nlength + 1)] is a vector of [nlength + 1]
    zeros.  The source has no assertion, exception or early exit here. *)
Definition WaveMesh_new (length width : D) (nlength nwidth : Z)
  (wavelength duty_cycle : D) : WaveMesh D F :=
  let wave_k := dbl_div (dbl_mul (dbl_of_Z 2) dbl_M_PI) (dbl_mul wavelength length) in
  let wave_period := dbl_div (dbl_mul (dbl_of_Z 2) dbl_M_PI) wave_k in
  let wave_full_period := dbl_div wave_period duty_cycle in
  let wave_velocity := dbl_mul dbl_0_1 length in
  MkWaveMesh (create_mesh length width nlength nwidth)
             length width nlength nwidth
             wave_k wave_period wave_full_period wave_velocity
             (replicate (Z.to_nat (sz_add nlength 1)) (dbl_of_Z 0)).

Context (w : WaveMesh D F).

(** [WaveMesh::vertex_length_index]: [v / (6 * nwidth_) + (v % 2)]. *)
Definition vertex_length_index (v : Z) : option Z :=
  q ← sz_div v (sz_mul 6 (nwidth_ w));
  Some (sz_add q (v mod 2)).

(** The [r] of [wave_func], its first two statements: [fmod(x,
    wave_full_period_)], to which [wave_full_period_] is added when it is
    negative. *)
Definition wave_phase (x : D) : D :=
  let r := libm_fmod x (wave_full_period_ w) in
  if dbl_lt r (dbl_of_Z 0) then dbl_add r (wave_full_period_ w) else r.

(** [WaveMesh::wave_func]. *)
Definition wave_func (x : D) : D :=
  let r := libm_fmod x (wave_full_period_ w) in
  let r := if dbl_lt r (dbl_of_Z 0) then dbl_add r (wave_full_period_ w) else r in
  if dbl_lt (wave_period_ w) r
  then dbl_of_Z 0
  else dbl_mul dbl_0_2 (libm_sin (dbl_mul (wave_k_ w) r)).

(** [WaveMesh::displacement]. *)
Definition displacement (n : Z) (elapsed : D) : D :=
  let x := dbl_div (dbl_mul (dbl_of_Z n) (length_ w)) (dbl_of_Z (nlength_ w)) in
  wave_func (dbl_sub x (dbl_mul (wave_velocity_ w) elapsed)).


(** *** WaveMesh::update *)

(** [ranges.back().second = n]. *)
Fixpoint set_back_second (ranges : list (Z * Z)) (n : Z) : list (Z * Z) :=
  match ranges with
  | [] => []
  | [r] => [(r.1, n)]
  | r :: rs => r :: set_back_second rs n
  end.

(** The pair opened for a changed index [n]: [(n > 0 ? n - 1 : 0, n)]. *)
Definition fresh_range (n : Z) : Z * Z :=
  (if decide (0 < n) then sz_sub n 1 else 0, n).

(** What the first loop does with a changed index [n]: the last range is
    extended when it ends at [n - 1] (a [size_t] subtraction; the test on
    [ranges.size()] comes first, as in the source), otherwise a range is
    opened. *)
Definition mark_dirty (n : Z) (ranges : list (Z * Z)) : list (Z * Z) :=
  match last ranges with
  | Some back =>
      if decide (back.2 = sz_sub n 1)
      then set_back_second ranges n
      else ranges ++ [fresh_range n]
  | None => ranges ++ [fresh_range n]
  end.

(** The body of the first loop of [update], for the freshly computed value
    [d] of index [n]: the state is the displacement vector and the ranges
    found so far. *)
Definition detect_step (d : D) (n : Z) (st : list D * list (Z * Z))
  : option (list D * list (Z * Z)) :=
  let '(disp, ranges) := st in
  old ← vec_get disp n;
  let ranges := if dbl_ne d old then mark_dirty n ranges else ranges in
  disp ← vec_set disp n d;
  Some (disp, ranges).

(** The first loop of [update], "figure out which length index ranges need
    update": [for (size_t n = 0; n <= nlength_; n++)], where [current n] is
    the value the source computes as [displacement(n, elapsed)].  The loop
    runs [nlength_ + 1] times (for [nlength_ = SIZE_MAX] the source's
    condition [n <= nlength_] never fails; such a mesh cannot exist). *)
Definition detect_ranges (current : Z -> D) (nlength : Z) (disp : list D)
  : option (list D * list (Z * Z)) :=
  for_loopM (Z.to_nat (nlength + 1)) 0 (fun n => detect_step (current n) n) (disp, []).

(** The body of the vertex loop: the z components (float 2 of each of the
    four slots) of vertex [v]. *)
Definition update_vertex (disp : list D) (v : Z) (vertices : vertices_t F)
  : option (vertices_t F) :=
  let vt := sz_mul 3 (v / 3) in
  i0 ← vertex_length_index v;
  d0 ← vec_get disp i0;
  vertices ← vec_set2 vertices v (0 * 3 + 2) (narrow d0);
  i1 ← vertex_length_index vt;
  d1 ← vec_get disp i1;
  vertices ← vec_set2 vertices v (1 * 3 + 2) (narrow d1);
  i2 ← vertex_length_index (sz_add vt 1);
  d2 ← vec_get disp i2;
  vertices ← vec_set2 vertices v (2 * 3 + 2) (narrow d2);
  i3 ← vertex_length_index (sz_add vt 2);
  d3 ← vec_get disp i3;
  vec_set2 vertices v (3 * 3 + 2) (narrow d3).

(** First vertex of a length index range. *)
Definition range_vstart (r : Z * Z) : Z :=
  sz_add (sz_mul (sz_mul r.1 (nwidth_ w)) 6) (r.1 mod 2).

(** First vertex not included in the range. *)
Definition range_vend (r : Z * Z) : Z :=
  sz_mul (sz_mul (sz_add r.2 (bool_to_sz (bool_decide (r.2 < nlength_ w)))) (nwidth_ w)) 6.

(** One turn of the second loop of [update]: the vertices [vstart <= v < vend]
    are rewritten and the pair becomes [(vstart, vend - 1)]. *)
Definition update_range (disp : list D) (r : Z * Z) (vertices : vertices_t F)
  : option (vertices_t F * (Z * Z)) :=
  let vstart := range_vstart r in
  let vend := range_vend r in
  vertices ← for_loopM (Z.to_nat (vend - vstart)) vstart (update_vertex disp) vertices;
  Some (vertices, (vstart, sz_sub vend 1)).

(** The second loop of [update], over the ranges in order. *)
Fixpoint update_ranges (disp : list D) (ranges : list (Z * Z)) (vertices : vertices_t F)
  : option (vertices_t F * list (Z * Z)) :=
  match ranges with
  | [] => Some (vertices, [])
  | r :: ranges =>
      '(vertices, r') ← update_range disp r vertices;
      '(vertices, ranges') ← update_ranges disp ranges vertices;
      Some (vertices, r' :: ranges')
  end.

(** [WaveMesh::update]: the new state of the object and the list of vertex
    ranges handed to [mesh_.update_vbo]. *)
Definition update (elapsed : D) : option (WaveMesh D F * list (Z * Z)) :=
  '(disp, ranges) ← detect_ranges (fun n => displacement n elapsed) (nlength_ w)
                                  (displacement_ w);
  '(vertices, vranges) ← update_ranges disp ranges (mesh_ w);
  Some (MkWaveMesh vertices (length_ w) (width_ w) (nlength_ w) (nwidth_ w)
                   (wave_k_ w) (wave_period_ w) (wave_full_period_ w)
                   (wave_velocity_ w) disp,
        vranges).

End WaveMesh.

(** ** IEEE binary64 *)

(** The doubles of the source as Rocq's primitive floats (binary64, round to
    nearest even). *)
Module IEEE.

(** Conversion of an integer: the nearest double. *)
Definition of_Z (z : Z) : float :=
  SF2Prim (binary_normalize 53 1024 z 0 false).

(** [a != b]: true as soon as one side is NaN. *)
Definition ne (a b : float) : bool := negb (PrimFloat.eqb a b).

(** C's [fmod]: NaN for a NaN argument, an infinite [x] or a zero [y]; [x]
    for a zero [x] or an infinite [y]; otherwise the exact remainder of the
    division truncated toward zero, with the sign of [x]. *)
Definition fmod (x y : float) : float :=
  match Prim2SF x, Prim2SF y with
  | S754_nan, _ | _, S754_nan => nan
  | S754_infinity _, _ => nan
  | _, S754_zero _ => nan
  | S754_zero _, _ => x
  | S754_finite _ _ _, S754_infinity _ => x
  | S754_finite sx mx ex, S754_finite _ my ey =>
      let e := Z.min ex ey in
      let r := (Z.pos mx * 2 ^ (ex - e)) mod (Z.pos my * 2 ^ (ey - e)) in
      SF2Prim (binary_normalize 53 1024 (if sx then - r else r) e sx)
  end.

(** Conversion to [float] (binary32), the result kept as the double of the
    same value. *)
Definition to_float (x : float) : float :=
  match Prim2SF x with
  | S754_finite s m e =>
      match binary_round 24 128 s m e with
      | S754_finite s' m' e' =>
          SF2Prim (binary_normalize 53 1024 (if s' then Z.neg m' else Z.pos m') e' s')
      | r => SF2Prim r
      end
  | _ => x
  end.

#[global] Instance ops : DoubleOps float := {
  dbl_of_Z := of_Z;
  dbl_M_PI := 0x1.921fb54442d18p+1%float;
  dbl_0_1 := 0x1.999999999999ap-4%float;
  dbl_0_2 := 0x1.999999999999ap-3%float;
  dbl_add := PrimFloat.add;
  dbl_sub := PrimFloat.sub;
  dbl_mul := PrimFloat.mul;
  dbl_div := PrimFloat.div;
  dbl_lt := PrimFloat.ltb;
  dbl_ne := ne
}.

#[global] Instance narrowing : Narrow float float := {
  narrow := to_float
}.

(** [fmod] is exact and given above; [std::sin] is whatever the C library
    computes, so the instance takes it as a parameter. *)
Definition libm (sin : float -> float) : Libm float := {|
  libm_fmod := fmod;
  libm_sin := sin
|}.

End IEEE.

(** ** Notions used to state the properties *)

(** The first range ends strictly before the second starts. *)
Definition range_before (r1 r2 : Z * Z) : Prop := r1.2 < r2.1.

(** Whether index [n] differs between the stored vector [old] and the fresh
    values [current], by the source's test [d != displacement_[n]]. *)
Definition changed_at {D : Type} `{!DoubleOps D} (current : Z -> D) (old : list D)
  (n : Z) : bool :=
  match vec_get old n with
  | Some o => dbl_ne (current n) o
  | None => false
  end.

(** The ranges the first loop has built after [count] more indices from [n]
    on, as a function of the changed indices alone. *)
Fixpoint ranges_from (chg : Z -> bool) (count : nat) (n : Z) (ranges : list (Z * Z))
  : list (Z * Z) :=
  match count with
  | O => ranges
  | S count' =>
      ranges_from chg count' (n + 1) (if chg n then mark_dirty n ranges else ranges)
  end.

(** The invariant of the first loop before index [k] is looked at. *)
Record detect_inv (chg : Z -> bool) (k : Z) (ranges : list (Z * Z)) : Prop := {
  inv_bounds : forall r, r ∈ ranges -> 0 <= r.1 <= r.2 /\ r.2 < k;
  inv_sorted : StronglySorted range_before ranges;
  inv_run : forall r n, r ∈ ranges -> r.1 < n <= r.2 -> chg n = true;
  inv_backstop : forall r, r ∈ ranges ->
      (r.1 = 0 /\ chg 0 = true) \/ (chg r.1 = false /\ r.1 < r.2);
  inv_cover : forall n, 0 <= n < k -> chg n = true ->
      exists r, r ∈ ranges /\ r.1 <= n <= r.2;
  inv_back : 0 < k -> chg (k - 1) = true ->
      exists l a, ranges = l ++ [(a, k - 1)]
}.

(** Float [k] of vertex [v] of a vertex store. *)
Definition component {F : Type} (m : vertices_t F) (v k : nat) : option F :=
  vx ← m !! v; vx !! k.

(** The state a constructed wave mesh is in: a grid of at least one quad
    whose vertex count fits [size_t], [nlength_ + 1] displacements and
    [6 * nlength_ * nwidth_] vertices of 12 floats. *)
Record valid {D F : Type} (w : WaveMesh D F) : Prop := {
  valid_nlength : 1 <= nlength_ w;
  valid_nwidth : 1 <= nwidth_ w;
  valid_size : 6 * nlength_ w * nwidth_ w < SIZE_MOD;
  valid_displacement : length (displacement_ w) = Z.to_nat (nlength_ w + 1);
  valid_mesh : length (mesh_ w) = Z.to_nat (6 * nlength_ w * nwidth_ w);
  valid_vertex : Forall (fun vx => length vx = VERTEX_SIZE) (mesh_ w)
}.

Section GridNotions.
Context {D F : Type} `{!DoubleOps D} `{!Narrow D F}.

(** The 12 floats [wave_grid_conf] gives to the vertex of table index [i]. *)
Definition emitted_vertex (t : Z -> vec3 F) (i : Z) : vertex F :=
  [v3x (t i); v3y (t i); v3z (t i);
   v3x (t (3 * (i / 3))); v3y (t (3 * (i / 3))); v3z (t (3 * (i / 3)));
   v3x (t (3 * (i / 3) + 1)); v3y (t (3 * (i / 3) + 1)); v3z (t (3 * (i / 3) + 1));
   v3x (t (3 * (i / 3) + 2)); v3y (t (3 * (i / 3) + 2)); v3z (t (3 * (i / 3) + 2))].

(** The six vertices of the quad of length index [i] and width index [j]. *)
Definition quad_vertices (length width base : D) (n_x n_y i j : Z) : vertices_t F :=
  let c := grid_corner length width base n_x n_y in
  emitted_vertex (corner_table (c i (j + 1)) (c i j) (c (i + 1) (j + 1)) (c (i + 1) j))
    <$> seqZ 0 6.

End GridNotions.

(** The floats an update may rewrite: the z of each of the four slots. *)
Definition z_component (k : nat) : Prop := k = 2%nat \/ k = 5%nat \/ k = 8%nat \/ k = 11%nat.

(** [vs'] has the size of [vs] and differs from it at most in the z
    components of the vertices selected by [dirty]. *)
Definition only_z_rewritten {F : Type} (dirty : nat -> Prop) (vs vs' : vertices_t F)
  : Prop :=
  length vs' = length vs /\
  forall v k, ~ (dirty v /\ z_component k) -> component vs' v k = component vs v k.

(** A vertex store of [n] vertices of 12 floats. *)
Definition store_ok {F : Type} (n : Z) (vs : vertices_t F) : Prop :=
  length vs = Z.to_nat n /\ Forall (fun vx => length vx = VERTEX_SIZE) vs.

(** The vertex range forwarded for the length index range [r], when
    [vend - 1] does not wrap. *)
Definition vertex_range {D F : Type} (w : WaveMesh D F) (r : Z * Z) : Z * Z :=
  (range_vstart w r, range_vend w r - 1).

(** The length index ranges that [update] finds dirty at time [elapsed]. *)
Definition dirty_ranges {D F : Type} `{!DoubleOps D} `{!Libm D} (w : WaveMesh D F)
  (elapsed : D) : list (Z * Z) :=
  ranges_from (changed_at (fun n => displacement w n elapsed) (displacement_ w))
              (Z.to_nat (nlength_ w + 1)) 0 [].

(** ** Doubles as integers *)

(** The value of the finite double [m * 2^e], for [e >= -1074], in units of
    [2^-1074], the smallest positive double. *)
Definition float_units (m : positive) (e : Z) : Z := Z.pos m * 2 ^ (e + 1074).

(** ** The end-to-end scenario of the specification *)

(** nlength = 4, nwidth = 1, length = 4.0, width = 1.0,
    wavelength_fraction = 1.0, duty_cycle = 1.0, in binary64. *)
Definition scenario : WaveMesh float float :=
  WaveMesh_new (D := float) (F := float) 4%float 1%float 4 1 1%float 1%float.

(** [std::sin] at the five arguments the runs of the scenario hand to it,
    with the values the C library returns there (the correctly rounded
    ones): the zeros, and the doubles next to pi/2, pi, 3*pi/2 and 2*pi.
    The table serves the runs at concrete inputs only and has no other
    entry: any other argument is answered by NaN. *)
Definition scenario_sin (x : float) : float :=
  if (x =? 0)%float then x
  else if (x =? 0x1.921fb54442d18p+0)%float then 1%float
  else if (x =? 0x1.921fb54442d18p+1)%float then 0x1.1a62633145c07p-53%float
  else if (x =? 0x1.2d97c7f3321d2p+2)%float then (-1)%float
  else if (x =? 0x1.921fb54442d18p+2)%float then (-0x1.1a62633145c07p-52)%float
  else nan.

Definition scenario_libm : Libm float := IEEE.libm scenario_sin.

(** The state after [update(0)] on the fresh scenario, for some vertex
    store [vs]: index 2 holds [0.2 * sin(pi)], which is not zero. *)
Definition scenario_after_0 (vs : vertices_t float) : WaveMesh float float :=
  MkWaveMesh vs (length_ scenario) (width_ scenario) (nlength_ scenario)
    (nwidth_ scenario) (wave_k_ scenario) (wave_period_ scenario)
    (wave_full_period_ scenario) (wave_velocity_ scenario)
    [0; 0x1.999999999999ap-3; 0x1.c3d09eb53c672p-56; -0x1.999999999999ap-3; 0]%float.


(** ** Degenerate configurations, in binary64 *)



(** ** Two displacement vectors with changes at indices 0, 2 and 4 *)

Definition striped_old : list float := [0; 0; 0; 0; 0]%float.

Definition striped_new (n : Z) : float :=
  default 0%float
    ([-0x1.999999999999ap-3; 0; 0x1.999999999999ap-3; 0; -0x1.999999999999ap-3]%float
       !! Z.to_nat n).

(** Two displacement vectors of a grid of one column that differ at index 0
    only. *)
Definition front_old : list float := [0; 0]%float.

Definition front_new (n : Z) : float :=
  if decide (n = 0) then 0x1.999999999999ap-3%float else 0%float.

(** A mesh of one quad, for the indices of its six vertices. *)
Definition one_quad_mesh : WaveMesh float float :=
  WaveMesh_new (D := float) (F := float) 5%float 2%float 1 1 1%float 1%float.

(** The mesh of the buffer scene with its default options: 100 columns,
    20 rows, update-fraction 1.0 and update-dispersion 0.0 (the wavelength
    argument is then 1.0 * (1.0 - 0.0 + 0.0001)). *)
Definition default_mesh : WaveMesh float float :=
  WaveMesh_new (D := float) (F := float) 5%float 2%float 100 20
    0x1.00068db8bac71p+0%float 1%float.

(** ** Notions for the contents of the vertex store *)

(** The length index of vertex [v], [v / (6 * nwidth_) + (v % 2)], as plain
    arithmetic. *)
Definition length_index {D F : Type} (w : WaveMesh D F) (v : Z) : Z :=
  v / (6 * nwidth_ w) + v mod 2.

(** The z components of vertex [v] are the ones [update] writes from the
    displacement vector [disp]: the own z from the length index of [v], the
    three triangle corners from those of the vertices [vt], [vt + 1] and
    [vt + 2] of its triangle. *)
Definition refreshed {D F : Type} `{!Narrow D F} (w : WaveMesh D F) (disp : list D)
  (vs : vertices_t F) (v : nat) : Prop :=
  let vt := 3 * (Z.of_nat v / 3) in
  exists d0 d1 d2 d3,
    vec_get disp (length_index w (Z.of_nat v)) = Some d0 /\
    vec_get disp (length_index w vt) = Some d1 /\
    vec_get disp (length_index w (vt + 1)) = Some d2 /\
    vec_get disp (length_index w (vt + 2)) = Some d3 /\
    component vs v 2 = Some (narrow d0) /\ component vs v 5 = Some (narrow d1) /\
    component vs v 8 = Some (narrow d2) /\ component vs v 11 = Some (narrow d3).

(** Two doubles that are the same, or that the test [!=] of [update] does
    not tell apart (in binary64: +0.0 and -0.0). *)
Definition agree {D : Type} `{!DoubleOps D} (a b : D) : Prop :=
  a = b \/ dbl_ne a b = false.

(** Float [k] of vertex [v] is the float of a double that agrees with the
    displacement of the length index of vertex [u] in [disp]. *)
Definition tracks {D F : Type} `{!DoubleOps D} `{!Narrow D F} (w : WaveMesh D F)
  (disp : list D) (vs : vertices_t F) (v k : nat) (u : Z) : Prop :=
  exists d d0, vec_get disp (length_index w u) = Some d /\ agree d d0 /\
               component vs v k = Some (narrow d0).

(** The own z of every vertex tracks the stored displacement of its length
    index. *)
Definition own_z_in_sync {D F : Type} `{!DoubleOps D} `{!Narrow D F} (w : WaveMesh D F)
  : Prop :=
  forall v : nat, Z.of_nat v < 6 * nlength_ w * nwidth_ w ->
    tracks w (displacement_ w) (mesh_ w) v 2 (Z.of_nat v).

(** The four z components of vertex [v] track the displacements of [disp]:
    the own z that of the length index of [v], the three triangle corners
    those of the vertices [vt], [vt + 1] and [vt + 2] of its triangle. *)
Definition z_tracked {D F : Type} `{!DoubleOps D} `{!Narrow D F} (w : WaveMesh D F)
  (disp : list D) (vs : vertices_t F) (v : nat) : Prop :=
  let vt := 3 * (Z.of_nat v / 3) in
  tracks w disp vs v 2 (Z.of_nat v) /\ tracks w disp vs v 5 vt /\
  tracks w disp vs v 8 (vt + 1) /\ tracks w disp vs v 11 (vt + 2).

(** All four z components of every vertex track the stored displacements. *)
Definition all_z_in_sync {D F : Type} `{!DoubleOps D} `{!Narrow D F} (w : WaveMesh D F)
  : Prop :=
  forall v : nat, Z.of_nat v < 6 * nlength_ w * nwidth_ w ->
    z_tracked w (displacement_ w) (mesh_ w) v.

(** The vertex [v] lies in the vertex span of one of the length index
    ranges. *)
Definition in_span {D F : Type} (w : WaveMesh D F) (ranges : list (Z * Z)) (v : nat)
  : Prop :=
  Exists (fun r => range_vstart w r <= Z.of_nat v < range_vend w r) ranges.

(** [SceneBuffer::update] calls [update] once per frame: the mesh after the
    frames of elapsed times [ts], in order. *)
Fixpoint run_updates {D F : Type} `{!DoubleOps D} `{!Libm D} `{!Narrow D F}
  (w : WaveMesh D F) (ts : list D) : option (WaveMesh D F) :=
  match ts with
  | [] => Some w
  | t :: ts => '(w', _) ← update w t; run_updates w' ts
  end.

(** * Properties *)

(** ** The dirty ranges as a function of the changed indices *)

Section Detection.
Context (chg : Z -> bool).

Lemma set_back_second_snoc l r n :
  set_back_second (l ++ [r]) n = l ++ [(r.1, n)].
Proof.
  induction l as [|x l IH]; [done|].
  simpl. rewrite IH. destruct l; done.
Qed.

Lemma sz_small x : 0 <= x < SIZE_MOD -> sz x = x.
Proof. intros. unfold sz. apply Z.mod_small. done. Qed.

Lemma elem_of_snoc_l {A : Type} (l : list A) (x y : A) : x ∈ l -> x ∈ l ++ [y].
Proof. intros Hx. apply elem_of_app. by left. Qed.

Lemma elem_of_snoc_r {A : Type} (l : list A) (y : A) : y ∈ l ++ [y].
Proof. apply elem_of_app. right. by apply list_elem_of_singleton. Qed.

Lemma detect_inv_nil : detect_inv chg 0 [].
Proof.
  split.
  - intros r Hr. by apply elem_of_nil in Hr.
  - constructor.
  - intros r n Hr. by apply elem_of_nil in Hr.
  - intros r Hr. by apply elem_of_nil in Hr.
  - intros n Hn. lia.
  - lia.
Qed.

Lemma range_end_changed k ranges r :
  detect_inv chg k ranges -> r ∈ ranges -> chg r.2 = true.
Proof.
  intros Hi Hr.
  destruct (inv_bounds _ _ _ Hi r Hr) as [? ?].
  destruct (decide (r.1 = r.2)) as [E|E].
  - destruct (inv_backstop _ _ _ Hi r Hr) as [[? ?]|[? ?]]; [|lia].
    rewrite <- E. congruence.
  - apply (inv_run _ _ _ Hi r); [done|lia].
Qed.

Lemma detect_inv_skip k ranges :
  detect_inv chg k ranges -> chg k = false -> detect_inv chg (k + 1) ranges.
Proof.
  intros Hi Hk. destruct Hi. split; auto.
  - intros r Hr. specialize (inv_bounds0 r Hr). lia.
  - intros n Hn Hc. apply inv_cover0; [|done].
    assert (n <> k) by congruence. lia.
  - intros _. replace (k + 1 - 1) with k by lia. congruence.
Qed.

Lemma detect_inv_mark k ranges :
  0 <= k < SIZE_MOD ->
  detect_inv chg k ranges -> chg k = true -> detect_inv chg (k + 1) (mark_dirty k ranges).
Proof.
  intros Hk Hi Hc.
  assert (Hfresh : ∀ back, last ranges = Some back -> back.2 ≠ sz_sub k 1 ->
                   0 < k -> chg (k - 1) = false).
  { intros back Hl Hne Hpos. destruct (chg (k - 1)) eqn:E; [|done].
    destruct (inv_back _ _ _ Hi Hpos E) as (l & a & ->).
    rewrite last_snoc in Hl. injection Hl as <-. simpl in Hne.
    unfold sz_sub in Hne. rewrite sz_small in Hne by lia. done. }
  assert (Hpush : (ranges = [] \/ exists back, last ranges = Some back /\ back.2 ≠ sz_sub k 1) ->
                  detect_inv chg (k + 1) (ranges ++ [fresh_range k])).
  { intros Hcase.
    assert (Hprev : 0 < k -> chg (k - 1) = false).
    { intros Hpos. destruct Hcase as [->|(back & Hl & Hne)]; [|eauto].
      destruct (chg (k - 1)) eqn:E; [|done].
      destruct (inv_back _ _ _ Hi Hpos E) as (l & a & Heq). by destruct l. }
    assert (Hf : fresh_range k = (if decide (0 < k) then k - 1 else 0, k)).
    { unfold fresh_range. case_decide; [|done].
      unfold sz_sub. by rewrite sz_small by lia. }
    rewrite Hf. clear Hf.
    split.
    - intros r [Hr| ->%list_elem_of_singleton]%elem_of_app.
      + specialize (inv_bounds _ _ _ Hi r Hr). lia.
      + simpl. case_decide; lia.
    - apply StronglySorted_app_2; [|apply Hi|repeat constructor].
      intros r1 r2 Hr1 ->%list_elem_of_singleton. unfold range_before. simpl.
      pose proof (inv_bounds _ _ _ Hi r1 Hr1) as [? ?].
      pose proof (range_end_changed _ _ _ Hi Hr1) as Hend.
      case_decide; [|lia].
      assert (r1.2 ≠ k - 1) by (intros E; rewrite E, Hprev in Hend; [done|lia]).
      lia.
    - intros r n [Hr| ->%list_elem_of_singleton]%elem_of_app Hn.
      + by apply (inv_run _ _ _ Hi r).
      + simpl in Hn. case_decide; replace n with k by lia; done.
    - intros r [Hr| ->%list_elem_of_singleton]%elem_of_app.
      + by apply (inv_backstop _ _ _ Hi).
      + simpl. case_decide.
        * right. split; [auto|lia].
        * left. replace k with 0 in Hc by lia. done.
    - intros n Hn Hcn. destruct (decide (n = k)) as [->|Hne].
      + exists (if decide (0 < k) then k - 1 else 0, k). split; [apply elem_of_snoc_r|].
        simpl. case_decide; lia.
      + destruct (inv_cover _ _ _ Hi n) as (r & Hr & ?); [lia|done|].
        exists r. split; [by apply elem_of_snoc_l|done].
    - intros _ _. eexists _, _. replace (k + 1 - 1) with k by lia. done. }
  unfold mark_dirty.
  destruct (last ranges) as [back|] eqn:Hl.
  - case_decide as Hb; [|apply Hpush; eauto].
    apply last_Some in Hl as [l ->].
    rewrite set_back_second_snoc.
    assert (Hbk : back ∈ l ++ [back]) by apply elem_of_snoc_r.
    pose proof (inv_bounds _ _ _ Hi back Hbk) as [? ?].
    assert (0 < k) by lia.
    unfold sz_sub in Hb. rewrite sz_small in Hb by lia.
    split.
    + intros r [Hr| ->%list_elem_of_singleton]%elem_of_app.
      * assert (r ∈ l ++ [back]) as Hr' by (by apply elem_of_snoc_l).
        specialize (inv_bounds _ _ _ Hi r Hr'). lia.
      * simpl. lia.
    + pose proof (inv_sorted _ _ _ Hi) as Hs.
      apply StronglySorted_app in Hs as (Hs1 & Hs2 & _).
      apply StronglySorted_app_2; [|done|repeat constructor].
      intros r1 r2 Hr1 ->%list_elem_of_singleton.
      apply (Hs1 r1 back); [done|by apply list_elem_of_singleton].
    + intros r n [Hr| ->%list_elem_of_singleton]%elem_of_app Hn.
      * apply (inv_run _ _ _ Hi r); [by apply elem_of_snoc_l|done].
      * simpl in Hn. destruct (decide (n = k)) as [->|?]; [done|].
        apply (inv_run _ _ _ Hi back); [done|lia].
    + intros r [Hr| ->%list_elem_of_singleton]%elem_of_app.
      * apply (inv_backstop _ _ _ Hi). by apply elem_of_snoc_l.
      * simpl. destruct (inv_backstop _ _ _ Hi back Hbk) as [?|[? ?]]; [by left|].
        right. split; [done|lia].
    + intros n Hn Hcn. destruct (decide (n = k)) as [->|Hne].
      * exists (back.1, k). split; [apply elem_of_snoc_r|]. simpl. lia.
      * destruct (inv_cover _ _ _ Hi n) as (r & Hr & ?); [lia|done|].
        apply elem_of_app in Hr as [Hr| ->%list_elem_of_singleton].
        -- exists r. split; [by apply elem_of_snoc_l|done].
        -- exists (back.1, k). split; [apply elem_of_snoc_r|]. simpl. lia.
    + intros _ _. eexists _, _. replace (k + 1 - 1) with k by lia. done.
  - apply Hpush. left. by apply last_None.
Qed.

Lemma ranges_from_inv count k ranges :
  0 <= k -> k + Z.of_nat count <= SIZE_MOD ->
  detect_inv chg k ranges ->
  detect_inv chg (k + Z.of_nat count) (ranges_from chg count k ranges).
Proof.
  revert k ranges. induction count as [|count IH]; intros k ranges Hk Hb Hi.
  - simpl. by replace (k + Z.of_nat 0) with k by lia.
  - simpl ranges_from.
    replace (k + Z.of_nat (S count)) with ((k + 1) + Z.of_nat count) by lia.
    apply IH; [lia|lia|].
    destruct (chg k) eqn:E.
    + apply detect_inv_mark; [lia|done|done].
    + by apply detect_inv_skip.
Qed.

End Detection.

(** ** The first loop of update *)

Section DetectLoop.
Context {D : Type} `{!DoubleOps D}.

Lemma vec_get_lt {A : Type} (vec : list A) (i : Z) :
  0 <= i -> (Z.to_nat i < length vec)%nat -> exists x, vec_get vec i = Some x.
Proof.
  intros _ Hlt. unfold vec_get.
  destruct (lookup_lt_is_Some_2 vec (Z.to_nat i) Hlt) as [x Hx]. eauto.
Qed.

Lemma vec_set_lt {A : Type} (vec : list A) (i : Z) (x : A) :
  (Z.to_nat i < length vec)%nat -> vec_set vec i x = Some (<[Z.to_nat i := x]> vec).
Proof. intros Hlt. unfold vec_set. by rewrite decide_True. Qed.

Lemma ranges_from_ext (chg1 chg2 : Z -> bool) count n ranges :
  (forall i, n <= i < n + Z.of_nat count -> chg1 i = chg2 i) ->
  ranges_from chg1 count n ranges = ranges_from chg2 count n ranges.
Proof.
  revert n ranges. induction count as [|count IH]; intros n ranges Hext; [done|].
  simpl. rewrite (Hext n) by lia. apply IH. intros i Hi. apply Hext. lia.
Qed.

Lemma changed_at_insert (current : Z -> D) (old : list D) (i n : Z) (x : D) :
  0 <= i -> i < n ->
  changed_at current (<[Z.to_nat i := x]> old) n = changed_at current old n.
Proof.
  intros Hi Hn. unfold changed_at, vec_get.
  rewrite list_lookup_insert_ne by lia. done.
Qed.

Lemma detect_step_eq (d : D) (n : Z) (disp : list D) ranges old :
  vec_get disp n = Some old ->
  detect_step d n (disp, ranges)
  = Some (<[Z.to_nat n := d]> disp, if dbl_ne d old then mark_dirty n ranges else ranges).
Proof.
  intros Hold. unfold detect_step. rewrite Hold. cbn [mbind option_bind].
  rewrite vec_set_lt; [done|].
  unfold vec_get in Hold. by apply lookup_lt_Some in Hold.
Qed.

(** The loop, started at index [start] with [count] indices to go. *)
Lemma detect_loop (current : Z -> D) count start (disp : list D) ranges :
  0 <= start ->
  (Z.to_nat start + count <= length disp)%nat ->
  for_loopM count start (fun n => detect_step (current n) n) (disp, ranges)
  = Some (take (Z.to_nat start) disp ++ (current <$> seqZ start (Z.of_nat count))
            ++ drop (Z.to_nat start + count) disp,
          ranges_from (changed_at current disp) count start ranges).
Proof.
  revert start disp ranges.
  induction count as [|count IH]; intros start disp ranges Hs Hlen.
  - simpl. rewrite Nat.add_0_r, take_drop. done.
  - cbn [for_loopM].
    assert (Hs' : 0 <= start + 1) by lia.
    assert (Hlen' : (Z.to_nat (start + 1) + count
                     <= length (<[Z.to_nat start := current start]> disp))%nat)
      by (rewrite length_insert; lia).
    destruct (vec_get_lt disp start Hs ltac:(lia)) as [old Hold].
    rewrite (detect_step_eq _ _ _ _ old Hold). cbn [mbind option_bind].
    rewrite (IH _ _ _ Hs' Hlen').
    f_equal. f_equal.
    + rewrite (seqZ_cons start) by lia. rewrite fmap_cons.
      replace (Z.to_nat (start + 1)) with (S (Z.to_nat start)) by lia.
      rewrite take_insert_lt by lia.
      rewrite drop_insert_lt by lia.
      replace (Z.pred (Z.of_nat (S count))) with (Z.of_nat count) by lia.
      replace (Z.succ start) with (start + 1) by lia.
      replace (S (Z.to_nat start) + count)%nat with (Z.to_nat start + S count)%nat by lia.
      rewrite (take_S_r _ _ old) by done.
      rewrite insert_app_r_alt by (rewrite length_take; lia).
      rewrite length_take. replace (Z.to_nat start - Z.to_nat start `min` length disp)%nat with 0%nat by lia.
      simpl. rewrite <- app_assoc. done.
    + cbn [ranges_from].
      assert (changed_at current disp start = dbl_ne (current start) old) as ->.
      { unfold changed_at. by rewrite Hold. }
      apply ranges_from_ext. intros i Hi'.
      apply changed_at_insert; lia.
Qed.

(** The first loop on a displacement vector of [nlength + 1] values: every
    value is replaced by the fresh one, and the ranges are those of the
    changed indices. *)
Lemma detect_ranges_eq (current : Z -> D) (nlength : Z) (old : list D) :
  0 <= nlength ->
  length old = Z.to_nat (nlength + 1) ->
  detect_ranges current nlength old
  = Some (current <$> seqZ 0 (nlength + 1),
          ranges_from (changed_at current old) (Z.to_nat (nlength + 1)) 0 []).
Proof.
  intros Hn Hlen. unfold detect_ranges.
  rewrite detect_loop by (simpl; lia).
  f_equal. f_equal.
  simpl. rewrite drop_ge by lia. rewrite app_nil_r.
  by rewrite Z2Nat.id by lia.
Qed.

Lemma StronglySorted_lookup_lt {A : Type} (R : relation A) (l : list A) i j x y :
  StronglySorted R l -> l !! i = Some x -> l !! j = Some y -> (i < j)%nat -> R x y.
Proof.
  intros Hs Hi Hj Hlt.
  rewrite <- (take_drop j l) in Hs.
  apply (StronglySorted_app_1_elem_of _ _ _ _ _ Hs).
  - apply list_elem_of_lookup. exists i. by rewrite lookup_take_lt.
  - apply list_elem_of_lookup. exists 0%nat. rewrite lookup_drop. by rewrite Nat.add_0_r.
Qed.

(** C1 (as amended): the dirty ranges of the first loop of [update].  Every
    range lies in [0, nlength]; every changed index is covered; an index of
    a range is changed unless it is the first index of its range, the
    backstop [n - 1]; the ranges are disjoint and increasing, and each
    later range starts at an unchanged index, its backstop.  Two ranges may
    be adjacent: a single unchanged index between two changed ones is the
    backstop of the later range. *)
Theorem detect_ranges_cover (current : Z -> D) (nlength : Z) (old : list D) :
  0 <= nlength < SIZE_MOD - 1 ->
  length old = Z.to_nat (nlength + 1) ->
  exists disp ranges,
    detect_ranges current nlength old = Some (disp, ranges) /\
    (forall r, r ∈ ranges -> 0 <= r.1 <= r.2 /\ r.2 <= nlength) /\
    (forall n, 0 <= n <= nlength -> changed_at current old n = true ->
       exists r, r ∈ ranges /\ r.1 <= n <= r.2) /\
    (forall r n, r ∈ ranges -> r.1 <= n <= r.2 ->
       changed_at current old n = true \/ (n = r.1 /\ n < r.2)) /\
    (forall i j r1 r2, ranges !! i = Some r1 -> ranges !! j = Some r2 -> (i < j)%nat ->
       r1.2 < r2.1 /\ changed_at current old r2.1 = false).
Proof.
  intros Hn Hlen.
  eexists _, _. split; [by apply detect_ranges_eq; [lia|]|].
  set (chg := changed_at current old).
  assert (Hi : detect_inv chg (nlength + 1)
                 (ranges_from chg (Z.to_nat (nlength + 1)) 0 [])).
  { replace (nlength + 1) with (0 + Z.of_nat (Z.to_nat (nlength + 1))) at 1 by lia.
    apply ranges_from_inv; [lia|lia|apply detect_inv_nil]. }
  repeat split.
  - apply (inv_bounds _ _ _ Hi r H).
  - apply (inv_bounds _ _ _ Hi r H).
  - pose proof (inv_bounds _ _ _ Hi r H). lia.
  - intros n Hr Hc. apply (inv_cover _ _ _ Hi); [lia|done].
  - intros r n Hr Hrn.
    destruct (decide (n = r.1)) as [->|Hne].
    + destruct (inv_backstop _ _ _ Hi r Hr) as [[E Hc]|[Hc Hlt]].
      * left. by rewrite E.
      * right. done.
    + left. apply (inv_run _ _ _ Hi r); [done|lia].
  - apply (StronglySorted_lookup_lt _ _ _ _ _ _ (inv_sorted _ _ _ Hi) H H0 H1).
  - pose proof (StronglySorted_lookup_lt _ _ _ _ _ _ (inv_sorted _ _ _ Hi) H H0 H1) as Hb.
    assert (Hr1 : r1 ∈ ranges_from chg (Z.to_nat (nlength + 1)) 0 [])
      by (apply list_elem_of_lookup; eauto).
    assert (Hr2 : r2 ∈ ranges_from chg (Z.to_nat (nlength + 1)) 0 [])
      by (apply list_elem_of_lookup; eauto).
    pose proof (inv_bounds _ _ _ Hi r1 Hr1).
    destruct (inv_backstop _ _ _ Hi r2 Hr2) as [[E Hc]|[Hc Hlt]]; [|done].
    unfold range_before in Hb. lia.
Qed.

End DetectLoop.

(** ** The grid built by the constructor *)

Section Grid.
Context {D F : Type} `{!DoubleOps D} `{!Narrow D F}.

Lemma for_loop_app {A : Type} (g : Z -> list A) (body : Z -> list A -> list A)
  count start (s : list A) :
  (forall i s, body i s = s ++ g i) ->
  for_loop count start body s = s ++ mjoin (g <$> seqZ start (Z.of_nat count)).
Proof.
  intros Hbody. revert start s.
  induction count as [|count IH]; intros start s.
  - simpl. by rewrite app_nil_r.
  - cbn [for_loop]. rewrite IH, Hbody.
    rewrite (seqZ_cons start) by lia. rewrite fmap_cons.
    replace (Z.pred (Z.of_nat (S count))) with (Z.of_nat count) by lia.
    replace (Z.succ start) with (start + 1) by lia.
    change (mjoin (g start :: ?l)) with (g start ++ mjoin l).
    by rewrite app_assoc.
Qed.

Lemma set_attrib_snoc (pos : nat) (p : vec3 F) (m : vertices_t F) (vx : vertex F) :
  set_attrib pos p (m ++ [vx]) = m ++ [write_slot pos p vx].
Proof.
  assert (Hne : forall l : vertices_t F, l <> [] ->
            set_attrib pos p l
            = <[pred (length l) := write_slot pos p (default [] (last l))]> l)
    by (by intros [|? ?]).
  rewrite Hne by (by destruct m).
  rewrite last_snoc, length_app. simpl.
  replace (Nat.pred (length m + 1)%nat) with (length m + 0)%nat by lia.
  by rewrite insert_app_r.
Qed.

Lemma wave_grid_conf_vertex_eq (t : Z -> vec3 F) (i : Z) (m : vertices_t F) :
  wave_grid_conf_vertex t i m = m ++ [emitted_vertex t i].
Proof.
  unfold wave_grid_conf_vertex, next_vertex.
  by rewrite !set_attrib_snoc.
Qed.

Lemma wave_grid_conf_eq (m : vertices_t F) x y n_x n_y (ul ll ur lr : vec3 F) :
  wave_grid_conf m x y n_x n_y ul ll ur lr
  = m ++ (emitted_vertex (corner_table ul ll ur lr) <$> seqZ 0 6).
Proof.
  unfold wave_grid_conf.
  rewrite (for_loop_app (fun i => [emitted_vertex (corner_table ul ll ur lr) i])).
  - f_equal.
  - intros. apply wave_grid_conf_vertex_eq.
Qed.

Lemma make_grid_eq (n_x n_y : Z) (length width base : D) :
  make_grid n_x n_y length width base wave_grid_conf []
  = mjoin ((fun i => mjoin (quad_vertices length width base n_x n_y i <$> seqZ 0 n_y))
           <$> seqZ 0 n_x).
Proof.
  unfold make_grid.
  rewrite (for_loop_app
    (fun i => mjoin (quad_vertices length width base n_x n_y i <$> seqZ 0 n_y))).
  - simpl. f_equal. f_equal.
    destruct (decide (0 <= n_x)); [by rewrite Z2Nat.id|].
    rewrite !seqZ_nil by lia. done.
  - intros i s.
    rewrite (for_loop_app (quad_vertices length width base n_x n_y i)).
    + f_equal. f_equal. f_equal.
      destruct (decide (0 <= n_y)); [by rewrite Z2Nat.id|].
      rewrite !seqZ_nil by lia. done.
    + intros j s'. apply wave_grid_conf_eq.
Qed.

Lemma quad_vertices_length length width base n_x n_y i j :
  Datatypes.length (quad_vertices length width base n_x n_y i j) = 6%nat.
Proof. done. Qed.

Lemma quad_row_length length width base n_x n_y i :
  0 <= n_y ->
  Datatypes.length (mjoin (quad_vertices length width base n_x n_y i <$> seqZ 0 n_y))
  = (Z.to_nat n_y * 6)%nat.
Proof.
  intros Hn. rewrite length_join.
  rewrite (sum_list_fmap_same 6).
  - rewrite length_fmap, length_seqZ. done.
  - apply Forall_fmap, Forall_forall. intros; apply quad_vertices_length.
Qed.

(** The vertex emitted at place [p] of the quad [(i, j)] sits at index
    [6 * (i * n_y + j) + p] of the store. *)
Lemma make_grid_lookup (n_x n_y : Z) (length width base : D) (i j p : Z) :
  0 <= i < n_x -> 0 <= j < n_y -> 0 <= p < 6 ->
  vec_get (make_grid n_x n_y length width base wave_grid_conf [])
          (6 * (i * n_y + j) + p)
  = Some (emitted_vertex
            (let c := grid_corner length width base n_x n_y in
             corner_table (c i (j + 1)) (c i j) (c (i + 1) (j + 1)) (c (i + 1) j)) p).
Proof.
  intros Hi Hj Hp. unfold vec_get. rewrite make_grid_eq.
  replace (Z.to_nat (6 * (i * n_y + j) + p))
    with (Z.to_nat i * (Z.to_nat n_y * 6) + (Z.to_nat j * 6 + Z.to_nat p))%nat by nia.
  apply join_lookup_Some_same_length'.
  - apply Forall_fmap, Forall_forall. intros; simpl. apply quad_row_length. lia.
  - nia.
  - eexists. split.
    + rewrite list_lookup_fmap, lookup_seqZ_lt by lia. simpl. reflexivity.
    + apply join_lookup_Some_same_length'.
      * apply Forall_fmap, Forall_forall. intros; apply quad_vertices_length.
      * lia.
      * eexists. split.
        -- rewrite list_lookup_fmap, lookup_seqZ_lt by lia. simpl. reflexivity.
        -- unfold quad_vertices.
           rewrite list_lookup_fmap, lookup_seqZ_lt by lia. simpl.
           rewrite !Z2Nat.id by lia. done.
Qed.

Lemma make_grid_length (n_x n_y : Z) (length width base : D) :
  0 <= n_x -> 0 <= n_y ->
  Datatypes.length (make_grid n_x n_y length width base wave_grid_conf [])
  = Z.to_nat (6 * n_x * n_y).
Proof.
  intros Hx Hy. rewrite make_grid_eq, length_join.
  rewrite (sum_list_fmap_same (Z.to_nat n_y * 6)).
  - rewrite length_fmap, length_seqZ. nia.
  - apply Forall_fmap, Forall_forall. intros; simpl. by apply quad_row_length.
Qed.

Lemma make_grid_vertex_size (n_x n_y : Z) (length width base : D) :
  Forall (fun vx => Datatypes.length vx = VERTEX_SIZE)
         (make_grid n_x n_y length width base wave_grid_conf []).
Proof.
  rewrite make_grid_eq.
  apply Forall_forall. intros vx Hvx.
  apply list_elem_of_join in Hvx as (row & Hvx & Hrow).
  apply list_elem_of_fmap in Hrow as (i & -> & _).
  apply list_elem_of_join in Hvx as (q & Hvx & Hq).
  apply list_elem_of_fmap in Hq as (j & -> & _).
  unfold quad_vertices in Hvx.
  apply list_elem_of_fmap in Hvx as (p & -> & _). done.
Qed.

(** Every vertex index decomposes into a quad and a place in the quad. *)
Lemma vertex_index_split (n_x n_y v : Z) :
  1 <= n_y -> 0 <= v < 6 * n_x * n_y ->
  exists i j p, v = 6 * (i * n_y + j) + p /\ 0 <= i < n_x /\ 0 <= j < n_y /\ 0 <= p < 6
    /\ v / (6 * n_y) = i /\ v mod 2 = p mod 2.
Proof.
  intros Hy Hv.
  exists (v / (6 * n_y)), (v mod (6 * n_y) / 6), (v mod (6 * n_y) mod 6).
  pose proof (Z.div_mod v (6 * n_y) ltac:(lia)) as E1.
  pose proof (Z.mod_pos_bound v (6 * n_y) ltac:(lia)) as B1.
  pose proof (Z.div_mod (v mod (6 * n_y)) 6 ltac:(lia)) as E2.
  pose proof (Z.mod_pos_bound (v mod (6 * n_y)) 6 ltac:(lia)) as B2.
  set (i := v / (6 * n_y)) in *. set (r := v mod (6 * n_y)) in *.
  set (j := r / 6) in *. set (p := r mod 6) in *.
  assert (0 <= i < n_x) by nia.
  assert (0 <= j < n_y) by lia.
  repeat split; try lia.
  replace v with (p + (3 * (i * n_y + j)) * 2) by lia.
  by rewrite Z_mod_plus_full.
Qed.

End Grid.

(** ** Vertex indices and length indices *)

Section VertexIndex.
Context {D F : Type} (w : WaveMesh D F).

Lemma SIZE_MOD_eq : SIZE_MOD = 18446744073709551616.
Proof. reflexivity. Qed.

(** Without overflow [vertex_length_index] is the formula of the source. *)
Lemma vertex_length_index_eq (v : Z) :
  1 <= nwidth_ w -> 6 * nlength_ w * nwidth_ w < SIZE_MOD ->
  0 <= v < 6 * nlength_ w * nwidth_ w ->
  vertex_length_index w v = Some (v / (6 * nwidth_ w) + v mod 2)
  /\ v / (6 * nwidth_ w) < nlength_ w
  /\ 0 <= v / (6 * nwidth_ w) + v mod 2 <= nlength_ w.
Proof.
  intros Hw Hsz Hv. rewrite SIZE_MOD_eq in Hsz.
  assert (Hl : 1 <= nlength_ w) by nia.
  assert (H6 : sz_mul 6 (nwidth_ w) = 6 * nwidth_ w).
  { unfold sz_mul. apply sz_small. rewrite SIZE_MOD_eq. nia. }
  pose proof (Z.div_mod v (6 * nwidth_ w) ltac:(lia)) as E.
  pose proof (Z.mod_pos_bound v (6 * nwidth_ w) ltac:(lia)) as B.
  pose proof (Z.mod_pos_bound v 2 ltac:(lia)) as B2.
  assert (Hq : 0 <= v / (6 * nwidth_ w) < nlength_ w) by nia.
  unfold vertex_length_index. rewrite H6.
  unfold sz_div. rewrite decide_False by lia. cbn [mbind option_bind].
  unfold sz_add. rewrite sz_small by (rewrite SIZE_MOD_eq; nia).
  repeat split; lia.
Qed.

Lemma range_vstart_eq (lo hi : Z) :
  1 <= nwidth_ w -> 6 * nlength_ w * nwidth_ w < SIZE_MOD ->
  0 <= lo <= nlength_ w ->
  range_vstart w (lo, hi) = lo * nwidth_ w * 6 + lo mod 2.
Proof.
  intros Hw Hsz Hlo. rewrite SIZE_MOD_eq in Hsz.
  pose proof (Z.mod_pos_bound lo 2 ltac:(lia)) as B2.
  unfold range_vstart, sz_add, sz_mul. simpl.
  rewrite (sz_small (lo * nwidth_ w)) by (rewrite SIZE_MOD_eq; nia).
  rewrite (sz_small (lo * nwidth_ w * 6)) by (rewrite SIZE_MOD_eq; nia).
  apply sz_small. rewrite SIZE_MOD_eq. nia.
Qed.

Lemma range_vend_eq (lo hi : Z) :
  1 <= nwidth_ w -> 6 * nlength_ w * nwidth_ w < SIZE_MOD ->
  0 <= hi <= nlength_ w ->
  range_vend w (lo, hi)
  = (hi + bool_to_sz (bool_decide (hi < nlength_ w))) * nwidth_ w * 6
  /\ hi + bool_to_sz (bool_decide (hi < nlength_ w)) <= nlength_ w.
Proof.
  intros Hw Hsz Hhi. rewrite SIZE_MOD_eq in Hsz.
  unfold range_vend, sz_add, sz_mul. simpl.
  set (b := bool_to_sz (bool_decide (hi < nlength_ w))).
  assert (Hb : 0 <= b /\ hi + b <= nlength_ w).
  { unfold b. case_bool_decide; simpl; lia. }
  rewrite (sz_small (hi + b)) by (rewrite SIZE_MOD_eq; nia).
  rewrite (sz_small ((hi + b) * nwidth_ w)) by (rewrite SIZE_MOD_eq; nia).
  rewrite sz_small by (rewrite SIZE_MOD_eq; nia).
  split; [done|lia].
Qed.

(** The vertex span of a length index range, without overflow. *)
Lemma range_span (lo hi : Z) :
  1 <= nwidth_ w -> 6 * nlength_ w * nwidth_ w < SIZE_MOD ->
  0 <= lo <= hi -> hi <= nlength_ w ->
  0 <= range_vstart w (lo, hi)
  /\ range_vend w (lo, hi) <= 6 * nlength_ w * nwidth_ w
  /\ 6 * nwidth_ w * lo <= range_vstart w (lo, hi) <= 6 * nwidth_ w * lo + 1
  /\ range_vend w (lo, hi)
     = 6 * nwidth_ w * (hi + bool_to_sz (bool_decide (hi < nlength_ w)))
  /\ (lo < nlength_ w -> range_vstart w (lo, hi) < range_vend w (lo, hi)).
Proof.
  intros Hw Hsz Hlo Hhi.
  rewrite range_vstart_eq by lia.
  destruct (range_vend_eq lo hi Hw Hsz ltac:(lia)) as [-> Hb].
  pose proof (Z.mod_pos_bound lo 2 ltac:(lia)) as B2.
  set (b := bool_to_sz (bool_decide (hi < nlength_ w))) in *.
  assert (Hb' : lo < nlength_ w -> lo + 1 <= hi + b).
  { unfold b. case_bool_decide; simpl; lia. }
  repeat split; try nia.
Qed.

(** C4 (as amended): the vertex span of the range [lo, hi] is made of whole
    quads.  A vertex [v] of the span lies in a quad whose near edge
    [v / (6 * nwidth)] is in [lo, hi]; its length index is that edge for an
    even [v] and the next line for an odd one, so it lies in [lo, hi + 1]
    and never above [nlength]; it exceeds [hi] exactly for the odd vertices
    of the quads whose near edge is [hi].  Conversely every vertex of a quad
    whose near edge is in [lo, hi] is in the span, but for the vertex
    [6 * nwidth * lo] when [lo] is odd; in particular every odd vertex of
    the quads of near edge [hi < nlength] is in the span, with length index
    [hi + 1]. *)
Theorem vertex_range_length_index (lo hi v : Z) :
  1 <= nwidth_ w -> 6 * nlength_ w * nwidth_ w < SIZE_MOD ->
  0 <= lo <= hi -> hi <= nlength_ w ->
  range_vstart w (lo, hi) <= v < range_vend w (lo, hi) ->
  (exists li,
     vertex_length_index w v = Some li /\
     li = v / (6 * nwidth_ w) + v mod 2 /\
     lo <= v / (6 * nwidth_ w) <= hi /\ v / (6 * nwidth_ w) < nlength_ w /\
     lo <= li <= hi + 1 /\ li <= nlength_ w /\
     (hi < li <-> v / (6 * nwidth_ w) = hi /\ v mod 2 = 1)) /\
  (forall u, 0 <= u ->
     (range_vstart w (lo, hi) <= u < range_vend w (lo, hi)
      <-> lo <= u / (6 * nwidth_ w) <= hi /\ u / (6 * nwidth_ w) < nlength_ w
          /\ ~ (lo mod 2 = 1 /\ u = 6 * nwidth_ w * lo))) /\
  (forall u, 0 <= u -> u / (6 * nwidth_ w) = hi -> u mod 2 = 1 -> hi < nlength_ w ->
     range_vstart w (lo, hi) <= u < range_vend w (lo, hi)
     /\ vertex_length_index w u = Some (hi + 1)).
Proof.
  intros Hw Hsz Hlo Hhi Hv.
  destruct (range_span lo hi Hw Hsz Hlo Hhi) as (H0 & Hend & Hstart & Evend & _).
  pose proof (range_vstart_eq lo hi Hw Hsz ltac:(lia)) as Evstart.
  set (b := bool_to_sz (bool_decide (hi < nlength_ w))) in *.
  assert (Hb : (hi < nlength_ w -> b = 1) /\ (hi = nlength_ w -> b = 0)).
  { unfold b. case_bool_decide; simpl; lia. }
  assert (Hspan : forall u, 0 <= u ->
            (range_vstart w (lo, hi) <= u < range_vend w (lo, hi)
             <-> lo <= u / (6 * nwidth_ w) <= hi /\ u / (6 * nwidth_ w) < nlength_ w
                 /\ ~ (lo mod 2 = 1 /\ u = 6 * nwidth_ w * lo))).
  { intros u Hu. rewrite Evend.
    pose proof (Z.div_mod u (6 * nwidth_ w) ltac:(lia)) as E.
    pose proof (Z.mod_pos_bound u (6 * nwidth_ w) ltac:(lia)) as B.
    pose proof (Z.mod_pos_bound lo 2 ltac:(lia)) as Bl.
    set (q := u / (6 * nwidth_ w)) in *. set (m := u mod (6 * nwidth_ w)) in *.
    rewrite Evstart.
    destruct Hb as [Hb1 Hb0].
    destruct (Z_lt_le_dec hi (nlength_ w)) as [Hlt|Hge].
    - rewrite (Hb1 Hlt). clear Hb1 Hb0 Hsz Hend Hv Evend Evstart H0 Hstart. nia.
    - assert (hi = nlength_ w) by lia.
      rewrite (Hb0 ltac:(lia)). clear Hb1 Hb0 Hsz Hend Hv Evend Evstart H0 Hstart. nia. }
  split; [|split; [exact Hspan|]].
  - destruct (vertex_length_index_eq v Hw Hsz ltac:(lia)) as (E & Hq & Hli).
    destruct (proj1 (Hspan v ltac:(lia)) Hv) as (Hq1 & Hq2 & _).
    pose proof (Z.mod_pos_bound v 2 ltac:(lia)) as B2.
    eexists. split; [exact E|]. split; [done|].
    split; [done|]. split; [done|]. split; [lia|]. split; [lia|]. lia.
  - intros u Hu Hq Hodd Hlt.
    assert (Hin : range_vstart w (lo, hi) <= u < range_vend w (lo, hi)).
    { apply Hspan; [done|]. rewrite Hq. split; [lia|]. split; [done|].
      intros [_ ->].
      replace (6 * nwidth_ w * lo) with (3 * nwidth_ w * lo * 2) in Hodd by lia.
      rewrite Z.mod_mul in Hodd by lia. discriminate Hodd. }
    split; [exact Hin|].
    destruct (vertex_length_index_eq u Hw Hsz ltac:(lia)) as (E & _ & _).
    rewrite E, Hq, Hodd. done.
Qed.

End VertexIndex.

(** ** The second loop of update *)

Section VertexLoop.
Context {D F : Type} `{!DoubleOps D} `{!Libm D} `{!Narrow D F}.
Context (w : WaveMesh D F).
Context (Hw : 1 <= nwidth_ w) (Hsz : 6 * nlength_ w * nwidth_ w < SIZE_MOD).

Lemma vec_set2_eq {A : Type} (vs : list (list A)) (v k : Z) (x : A) (row : list A) :
  vs !! Z.to_nat v = Some row -> (Z.to_nat k < length row)%nat ->
  vec_set2 vs v k x = Some (<[Z.to_nat v := <[Z.to_nat k := x]> row]> vs).
Proof.
  intros Hrow Hk. unfold vec_set2, vec_get. rewrite Hrow. cbn [mbind option_bind].
  rewrite vec_set_lt by done. cbn [mbind option_bind].
  apply vec_set_lt. by apply lookup_lt_Some in Hrow.
Qed.

Lemma only_z_refl (dirty : nat -> Prop) (vs : vertices_t F) :
  only_z_rewritten dirty vs vs.
Proof. by split. Qed.

Lemma only_z_trans (P Q R : nat -> Prop) (a b c : vertices_t F) :
  (forall v, P v -> R v) -> (forall v, Q v -> R v) ->
  only_z_rewritten P a b -> only_z_rewritten Q b c -> only_z_rewritten R a c.
Proof.
  intros HP HQ [L1 E1] [L2 E2]. split; [congruence|].
  intros v k Hn. rewrite E2, E1; [done| |]; intros [? ?]; apply Hn; auto.
Qed.

Lemma only_z_mono (P Q : nat -> Prop) (a b : vertices_t F) :
  (forall v, P v -> Q v) -> only_z_rewritten P a b -> only_z_rewritten Q a b.
Proof.
  intros HPQ [L E]. split; [done|].
  intros v k Hn. apply E. intros [? ?]. apply Hn. auto.
Qed.

(** The four writes of [update_vertex] on the row of vertex [v]. *)
Lemma update_vertex_eq (disp : list D) (v : Z) (vs : vertices_t F) (row : list F) :
  0 <= v < 6 * nlength_ w * nwidth_ w ->
  length disp = Z.to_nat (nlength_ w + 1) ->
  vs !! Z.to_nat v = Some row -> length row = VERTEX_SIZE ->
  exists d0 d1 d2 d3,
    update_vertex w disp v vs
    = Some (<[Z.to_nat v :=
               <[11%nat := narrow d3]> (<[8%nat := narrow d2]>
                 (<[5%nat := narrow d1]> (<[2%nat := narrow d0]> row)))]> vs)
    /\ vec_get disp (v / (6 * nwidth_ w) + v mod 2) = Some d0.
Proof.
  intros Hv Hdisp Hrow Hlen. pose proof Hsz as Hsz'. rewrite SIZE_MOD_eq in Hsz'.
  assert (Hvt : sz_mul 3 (v / 3) = 3 * (v / 3)).
  { unfold sz_mul. apply sz_small. rewrite SIZE_MOD_eq.
    pose proof (Z.div_mod v 3 ltac:(lia)). pose proof (Z.mod_pos_bound v 3 ltac:(lia)). lia. }
  assert (Hq : 0 <= 3 * (v / 3) /\ 3 * (v / 3) + 2 < 6 * nlength_ w * nwidth_ w).
  { pose proof (Z.div_mod v 3 ltac:(lia)). pose proof (Z.mod_pos_bound v 3 ltac:(lia)).
    set (M := nlength_ w * nwidth_ w) in *.
    replace (6 * nlength_ w * nwidth_ w) with (6 * M) in * by (unfold M; lia). lia. }
  assert (Hget : forall u, 0 <= u < 6 * nlength_ w * nwidth_ w ->
            exists d, vertex_length_index w u = Some (u / (6 * nwidth_ w) + u mod 2)
                      /\ vec_get disp (u / (6 * nwidth_ w) + u mod 2) = Some d).
  { intros u Hu. destruct (vertex_length_index_eq w u Hw Hsz Hu) as (E & _ & Hli).
    destruct (vec_get_lt disp (u / (6 * nwidth_ w) + u mod 2)) as [d Hd]; [lia|lia|].
    eauto. }
  destruct (Hget v Hv) as (d0 & E0 & G0).
  destruct (Hget (3 * (v / 3)) ltac:(lia)) as (d1 & E1 & G1).
  destruct (Hget (3 * (v / 3) + 1) ltac:(lia)) as (d2 & E2 & G2).
  destruct (Hget (3 * (v / 3) + 2) ltac:(lia)) as (d3 & E3 & G3).
  exists d0, d1, d2, d3. split; [|done].
  unfold update_vertex. rewrite Hvt.
  unfold sz_add. rewrite !sz_small by (rewrite SIZE_MOD_eq; lia).
  rewrite E0. cbn [mbind option_bind]. rewrite G0. cbn [mbind option_bind].
  rewrite (vec_set2_eq _ _ _ _ row) by (done || (rewrite Hlen; unfold VERTEX_SIZE; simpl; lia)).
  cbn [mbind option_bind].
  rewrite E1. cbn [mbind option_bind]. rewrite G1. cbn [mbind option_bind].
  assert (Hvl : (Z.to_nat v < length vs)%nat) by (by apply lookup_lt_Some in Hrow).
  erewrite vec_set2_eq;
    [|by apply list_lookup_insert_eq
     |rewrite !length_insert, Hlen; unfold VERTEX_SIZE; simpl; lia].
  cbn [mbind option_bind].
  rewrite E2. cbn [mbind option_bind]. rewrite G2. cbn [mbind option_bind].
  erewrite vec_set2_eq;
    [|apply list_lookup_insert_eq; by rewrite !length_insert
     |rewrite !length_insert, Hlen; unfold VERTEX_SIZE; simpl; lia].
  cbn [mbind option_bind].
  rewrite E3. cbn [mbind option_bind]. rewrite G3. cbn [mbind option_bind].
  erewrite vec_set2_eq;
    [|apply list_lookup_insert_eq; by rewrite !length_insert
     |rewrite !length_insert, Hlen; unfold VERTEX_SIZE; simpl; lia].
  rewrite !list_insert_insert_eq. done.
Qed.

Lemma component_insert_row (vs : vertices_t F) (i : nat) (row row' : list F) (v k : nat) :
  vs !! i = Some row ->
  (v = i -> row' !! k = row !! k) ->
  component (<[i := row']> vs) v k = component vs v k.
Proof.
  intros Hrow Hk. unfold component.
  destruct (decide (v = i)) as [->|Hne].
  - rewrite list_lookup_insert_eq by (by apply lookup_lt_Some in Hrow).
    rewrite Hrow. simpl. auto.
  - by rewrite list_lookup_insert_ne.
Qed.

Lemma update_vertex_ok (disp : list D) (v : Z) (vs : vertices_t F) :
  0 <= v < 6 * nlength_ w * nwidth_ w ->
  length disp = Z.to_nat (nlength_ w + 1) ->
  store_ok (6 * nlength_ w * nwidth_ w) vs ->
  exists vs',
    update_vertex w disp v vs = Some vs' /\
    store_ok (6 * nlength_ w * nwidth_ w) vs' /\
    only_z_rewritten (fun u => u = Z.to_nat v) vs vs'.
Proof.
  intros Hv Hdisp [Hlen Hall].
  destruct (lookup_lt_is_Some_2 vs (Z.to_nat v)) as [row Hrow]; [lia|].
  assert (Hrl : length row = VERTEX_SIZE).
  { rewrite Forall_forall in Hall. apply Hall. by eapply list_elem_of_lookup_2. }
  destruct (update_vertex_eq disp v vs row Hv Hdisp Hrow Hrl) as (d0 & d1 & d2 & d3 & -> & _).
  eexists. split; [done|]. split; [split|split].
  - by rewrite length_insert.
  - apply Forall_insert; [done|]. by rewrite !length_insert.
  - by rewrite length_insert.
  - intros u k Hn. apply (component_insert_row _ _ row); [done|].
    intros ->.
    assert (Hk : k <> 2%nat /\ k <> 5%nat /\ k <> 8%nat /\ k <> 11%nat).
    { unfold z_component in Hn. repeat split; intros ->; apply Hn; auto. }
    destruct Hk as (? & ? & ? & ?).
    by rewrite !list_lookup_insert_ne.
Qed.

Lemma vertex_loop_ok (disp : list D) count (a : Z) (vs : vertices_t F) :
  0 <= a -> a + Z.of_nat count <= 6 * nlength_ w * nwidth_ w ->
  length disp = Z.to_nat (nlength_ w + 1) ->
  store_ok (6 * nlength_ w * nwidth_ w) vs ->
  exists vs',
    for_loopM count a (update_vertex w disp) vs = Some vs' /\
    store_ok (6 * nlength_ w * nwidth_ w) vs' /\
    only_z_rewritten (fun u => a <= Z.of_nat u < a + Z.of_nat count) vs vs'.
Proof.
  revert a vs. induction count as [|count IH]; intros a vs Ha Hb Hdisp Hok.
  - exists vs. split; [done|]. split; [done|]. apply only_z_refl.
  - cbn [for_loopM].
    destruct (update_vertex_ok disp a vs ltac:(lia) Hdisp Hok) as (vs1 & -> & Hok1 & Hz1).
    cbn [mbind option_bind].
    destruct (IH (a + 1) vs1 ltac:(lia) ltac:(lia) Hdisp Hok1) as (vs2 & -> & Hok2 & Hz2).
    exists vs2. split; [done|]. split; [done|].
    eapply only_z_trans; [| |exact Hz1|exact Hz2]; simpl; intros u Hu; lia.
Qed.

Lemma update_range_ok (disp : list D) (r : Z * Z) (vs : vertices_t F) :
  0 <= r.1 <= r.2 -> r.2 <= nlength_ w -> r.1 < nlength_ w ->
  length disp = Z.to_nat (nlength_ w + 1) ->
  store_ok (6 * nlength_ w * nwidth_ w) vs ->
  exists vs',
    update_range w disp r vs = Some (vs', vertex_range w r) /\
    store_ok (6 * nlength_ w * nwidth_ w) vs' /\
    only_z_rewritten (fun u => range_vstart w r <= Z.of_nat u < range_vend w r) vs vs'.
Proof.
  intros Hlo Hhi Hlt Hdisp Hok. destruct r as [lo hi]. simpl in Hlo, Hhi, Hlt.
  destruct (range_span w lo hi Hw Hsz Hlo Hhi) as (H0 & Hend & Hstart & Evend & Hne).
  specialize (Hne Hlt).
  assert (Hcount : range_vstart w (lo, hi)
                   + Z.of_nat (Z.to_nat (range_vend w (lo, hi) - range_vstart w (lo, hi)))
                   <= 6 * nlength_ w * nwidth_ w) by (clear Hsz; lia).
  unfold update_range.
  destruct (vertex_loop_ok disp (Z.to_nat (range_vend w (lo, hi) - range_vstart w (lo, hi)))
              (range_vstart w (lo, hi)) vs H0 Hcount Hdisp Hok)
    as (vs' & -> & Hok' & Hz).
  cbn [mbind option_bind].
  exists vs'. split; [|split; [done|]].
  - unfold vertex_range. do 3 f_equal.
    unfold sz_sub. apply sz_small. clear Hcount Hstart Evend. rewrite SIZE_MOD_eq in *. lia.
  - eapply only_z_mono; [|exact Hz]. simpl. intros u Hu. clear Hsz. lia.
Qed.

Lemma update_ranges_ok (disp : list D) (ranges : list (Z * Z)) (vs : vertices_t F) :
  Forall (fun r => 0 <= r.1 <= r.2 /\ r.2 <= nlength_ w /\ r.1 < nlength_ w) ranges ->
  length disp = Z.to_nat (nlength_ w + 1) ->
  store_ok (6 * nlength_ w * nwidth_ w) vs ->
  exists vs',
    update_ranges w disp ranges vs = Some (vs', vertex_range w <$> ranges) /\
    store_ok (6 * nlength_ w * nwidth_ w) vs' /\
    only_z_rewritten
      (fun u => exists r, r ∈ ranges /\ range_vstart w r <= Z.of_nat u < range_vend w r)
      vs vs'.
Proof.
  intros Hall Hdisp. revert vs.
  induction Hall as [|r ranges (Hlo & Hhi & Hlt) Hall IH]; intros vs Hok.
  - exists vs. split; [done|]. split; [done|]. apply only_z_refl.
  - cbn [update_ranges].
    destruct (update_range_ok disp r vs Hlo Hhi Hlt Hdisp Hok) as (vs1 & -> & Hok1 & Hz1).
    cbn [mbind option_bind].
    destruct (IH vs1 Hok1) as (vs2 & -> & Hok2 & Hz2).
    cbn [mbind option_bind].
    exists vs2. split; [done|]. split; [done|].
    eapply only_z_trans; [| |exact Hz1|exact Hz2]; simpl.
    + intros u Hu. exists r. split; [left|done].
    + intros u (r' & Hr' & Hu). exists r'. split; [by right|done].
Qed.

End VertexLoop.

(** ** update as a whole *)

Section Update.
Context {D F : Type} `{!DoubleOps D} `{!Libm D} `{!Narrow D F}.

Lemma valid_store (w : WaveMesh D F) :
  valid w -> store_ok (6 * nlength_ w * nwidth_ w) (mesh_ w).
Proof. intros Hv. split; [apply Hv|apply Hv]. Qed.

Lemma valid_nlength_bound (w : WaveMesh D F) :
  valid w -> 1 <= nlength_ w < SIZE_MOD - 1.
Proof.
  intros Hv. pose proof (valid_nlength w Hv). pose proof (valid_nwidth w Hv).
  pose proof (valid_size w Hv) as Hs. rewrite SIZE_MOD_eq in *. nia.
Qed.

(** The invariant of the first loop holds for the ranges [update] finds. *)
Lemma dirty_ranges_inv (w : WaveMesh D F) (elapsed : D) :
  valid w ->
  detect_inv (changed_at (fun n => displacement w n elapsed) (displacement_ w))
             (nlength_ w + 1) (dirty_ranges w elapsed).
Proof.
  intros Hv. pose proof (valid_nlength_bound w Hv).
  unfold dirty_ranges.
  replace (nlength_ w + 1) with (0 + Z.of_nat (Z.to_nat (nlength_ w + 1))) at 1 by lia.
  apply ranges_from_inv; [lia|lia|apply detect_inv_nil].
Qed.

Lemma dirty_ranges_bounds (w : WaveMesh D F) (elapsed : D) (r : Z * Z) :
  valid w -> r ∈ dirty_ranges w elapsed ->
  0 <= r.1 <= r.2 /\ r.2 <= nlength_ w /\ r.1 < nlength_ w.
Proof.
  intros Hv Hr. pose proof (dirty_ranges_inv w elapsed Hv) as Hi.
  pose proof (valid_nlength w Hv).
  destruct (inv_bounds _ _ _ Hi r Hr) as [? ?].
  destruct (inv_backstop _ _ _ Hi r Hr) as [[? ?]|[? ?]]; lia.
Qed.

(** What [update] returns on a valid mesh. *)
Lemma update_eq (w : WaveMesh D F) (elapsed : D) :
  valid w ->
  exists vs',
    update w elapsed
    = Some (MkWaveMesh vs' (length_ w) (width_ w) (nlength_ w) (nwidth_ w)
              (wave_k_ w) (wave_period_ w) (wave_full_period_ w) (wave_velocity_ w)
              ((fun n => displacement w n elapsed) <$> seqZ 0 (nlength_ w + 1)),
            vertex_range w <$> dirty_ranges w elapsed)
    /\ store_ok (6 * nlength_ w * nwidth_ w) vs'
    /\ only_z_rewritten
         (fun u => exists r, r ∈ dirty_ranges w elapsed
                             /\ range_vstart w r <= Z.of_nat u < range_vend w r)
         (mesh_ w) vs'.
Proof.
  intros Hv. pose proof (valid_nlength_bound w Hv) as Hn.
  unfold update.
  rewrite detect_ranges_eq by (lia || apply Hv).
  cbn [mbind option_bind].
  fold (dirty_ranges w elapsed).
  destruct (update_ranges_ok w (valid_nwidth w Hv) (valid_size w Hv)
              ((fun n => displacement w n elapsed) <$> seqZ 0 (nlength_ w + 1))
              (dirty_ranges w elapsed) (mesh_ w))
    as (vs' & -> & Hok & Hz).
  - apply Forall_forall. intros r Hr. by apply (dirty_ranges_bounds w elapsed).
  - by rewrite length_fmap, length_seqZ.
  - by apply valid_store.
  - exists vs'. done.
Qed.

(** The first loop of [update] on a valid mesh. *)
Lemma detect_ranges_dirty (w : WaveMesh D F) (elapsed : D) :
  valid w ->
  detect_ranges (fun n => displacement w n elapsed) (nlength_ w) (displacement_ w)
  = Some ((fun n => displacement w n elapsed) <$> seqZ 0 (nlength_ w + 1),
          dirty_ranges w elapsed).
Proof.
  intros Hv. pose proof (valid_nlength_bound w Hv).
  apply detect_ranges_eq; [lia|apply Hv].
Qed.

Lemma update_valid (w : WaveMesh D F) (elapsed : D) (vs' : vertices_t F) :
  valid w -> store_ok (6 * nlength_ w * nwidth_ w) vs' ->
  valid (MkWaveMesh vs' (length_ w) (width_ w) (nlength_ w) (nwidth_ w)
           (wave_k_ w) (wave_period_ w) (wave_full_period_ w) (wave_velocity_ w)
           ((fun n => displacement w n elapsed) <$> seqZ 0 (nlength_ w + 1))).
Proof.
  intros Hv [Hl Hall]. split; simpl; try apply Hv; try done.
  by rewrite length_fmap, length_seqZ.
Qed.

(** A vertex range forwarded by [update], in plain arithmetic. *)
Lemma vertex_range_bounds (w : WaveMesh D F) (elapsed : D) (r : Z * Z) :
  valid w -> r ∈ dirty_ranges w elapsed ->
  0 <= range_vstart w r /\ range_vstart w r < range_vend w r
  /\ range_vend w r <= 6 * nlength_ w * nwidth_ w.
Proof.
  intros Hv Hr. destruct (dirty_ranges_bounds w elapsed r Hv Hr) as (Hlo & Hhi & Hlt).
  destruct r as [lo hi].
  destruct (range_span w lo hi (valid_nwidth w Hv) (valid_size w Hv) Hlo Hhi)
    as (H0 & Hend & _ & _ & Hne).
  auto.
Qed.

(** C8: [update] rewrites only z components (floats 2, 5, 8 and 11) of
    vertices inside the vertex ranges it forwards; every other float of the
    vertex store, and the size of the store, is left as it was. *)
Theorem update_rewrites_only_z (w : WaveMesh D F) (elapsed : D) :
  valid w ->
  exists w' vranges,
    update w elapsed = Some (w', vranges) /\
    length (mesh_ w') = length (mesh_ w) /\
    forall v k : nat,
      ~ (z_component k /\ exists r, r ∈ vranges /\ r.1 <= Z.of_nat v <= r.2) ->
      component (mesh_ w') v k = component (mesh_ w) v k.
Proof.
  intros Hv. destruct (update_eq w elapsed Hv) as (vs' & E & Hok & [Hlen Hz]).
  eexists _, _. split; [exact E|]. simpl. split; [done|].
  intros v k Hn. apply Hz. intros [(r & Hr & Hin) Hk]. apply Hn. split; [done|].
  exists (vertex_range w r). split.
  - apply list_elem_of_fmap. eauto.
  - unfold vertex_range. simpl. lia.
Qed.

(** C10: on a valid mesh [update] runs without any access outside
    [displacement_] or the vertex store (it returns a result), leaves the
    mesh valid, and forwards vertex ranges [(vstart, vend - 1)] with
    [vstart < vend <= 6 * nlength * nwidth], pairwise disjoint and in
    increasing order; the length indices it reads for a vertex of a range
    lie in [0, nlength]. *)
Theorem update_in_bounds (w : WaveMesh D F) (elapsed : D) :
  valid w ->
  exists w' vranges,
    update w elapsed = Some (w', vranges) /\
    valid w' /\
    vranges = vertex_range w <$> dirty_ranges w elapsed /\
    (forall r, r ∈ dirty_ranges w elapsed ->
       0 <= range_vstart w r /\ range_vstart w r < range_vend w r
       /\ range_vend w r <= 6 * nlength_ w * nwidth_ w) /\
    (forall r v, r ∈ vranges -> r.1 <= v <= r.2 ->
       0 <= v < 6 * nlength_ w * nwidth_ w /\
       forall u, u ∈ [v; 3 * (v / 3); 3 * (v / 3) + 1; 3 * (v / 3) + 2] ->
         exists li, vertex_length_index w u = Some li /\ 0 <= li <= nlength_ w) /\
    (forall i j r1 r2, vranges !! i = Some r1 -> vranges !! j = Some r2 ->
       (i < j)%nat -> r1.1 <= r1.2 /\ r1.2 < r2.1).
Proof.
  intros Hv. destruct (update_eq w elapsed Hv) as (vs' & E & Hok & _).
  pose proof (valid_nwidth w Hv) as Hw. pose proof (valid_size w Hv) as Hsz.
  eexists _, _. split; [exact E|].
  split; [by apply update_valid|]. split; [done|].
  split; [intros r Hr; by apply (vertex_range_bounds w elapsed)|].
  split.
  - intros r' v Hr' Hin.
    apply list_elem_of_fmap in Hr' as (r & -> & Hr).
    destruct (vertex_range_bounds w elapsed r Hv Hr) as (H0 & Hne & Hend).
    unfold vertex_range in Hin. simpl in Hin.
    split; [lia|]. intros u Hu.
    assert (Hub : 0 <= u < 6 * nlength_ w * nwidth_ w).
    { pose proof (Z.div_mod v 3 ltac:(lia)). pose proof (Z.mod_pos_bound v 3 ltac:(lia)).
      set (M := nlength_ w * nwidth_ w) in *.
      replace (6 * nlength_ w * nwidth_ w) with (6 * M) in * by (unfold M; lia).
      clear Hsz.
      repeat (apply elem_of_cons in Hu as [->|Hu]; [lia|]).
      by apply elem_of_nil in Hu. }
    destruct (vertex_length_index_eq w u Hw Hsz Hub) as (Eu & _ & Hli).
    eauto.
  - intros i j r1' r2' H1 H2 Hij.
    apply list_lookup_fmap_Some in H1 as (r1 & -> & H1).
    apply list_lookup_fmap_Some in H2 as (r2 & -> & H2).
    pose proof (dirty_ranges_inv w elapsed Hv) as Hi.
    pose proof (StronglySorted_lookup_lt _ _ _ _ _ _ (inv_sorted _ _ _ Hi) H1 H2 Hij) as Hb.
    unfold range_before in Hb.
    assert (Hr1 : r1 ∈ dirty_ranges w elapsed) by (apply list_elem_of_lookup; eauto).
    assert (Hr2 : r2 ∈ dirty_ranges w elapsed) by (apply list_elem_of_lookup; eauto).
    destruct (vertex_range_bounds w elapsed r1 Hv Hr1) as (H0 & Hne & Hend).
    destruct (dirty_ranges_bounds w elapsed r1 Hv Hr1) as (Hlo1 & Hhi1 & Hlt1).
    destruct (dirty_ranges_bounds w elapsed r2 Hv Hr2) as (Hlo2 & Hhi2 & Hlt2).
    destruct r1 as [lo1 hi1], r2 as [lo2 hi2]. simpl in *.
    destruct (range_span w lo1 hi1 Hw Hsz Hlo1 Hhi1) as (_ & _ & _ & Ev1 & _).
    destruct (range_span w lo2 hi2 Hw Hsz Hlo2 Hhi2) as (_ & _ & Hs2 & _ & _).
    unfold vertex_range. simpl. split; [lia|].
    rewrite bool_decide_true in Ev1 by lia. simpl in Ev1.
    clear Hsz. nia.
Qed.

Lemma ranges_from_none (chg : Z -> bool) count n ranges :
  (forall i, n <= i < n + Z.of_nat count -> chg i = false) ->
  ranges_from chg count n ranges = ranges.
Proof.
  revert n ranges. induction count as [|count IH]; intros n ranges Hc; [done|].
  simpl. rewrite (Hc n) by lia. apply IH. intros i Hi. apply Hc. lia.
Qed.

(** C5: a second [update] at the same time finds no dirty range, forwards
    no vertex range and leaves the vertex store alone, provided the
    displacement values at that time compare equal to themselves (they are
    not NaN). *)
Theorem update_twice_no_op (w : WaveMesh D F) (elapsed : D) :
  valid w ->
  (forall n, 0 <= n <= nlength_ w ->
     dbl_ne (displacement w n elapsed) (displacement w n elapsed) = false) ->
  exists w1 r1 w2,
    update w elapsed = Some (w1, r1) /\
    detect_ranges (fun n => displacement w1 n elapsed) (nlength_ w1) (displacement_ w1)
      = Some (displacement_ w1, []) /\
    update w1 elapsed = Some (w2, []) /\
    mesh_ w2 = mesh_ w1.
Proof.
  intros Hv Hne. destruct (update_eq w elapsed Hv) as (vs' & E & Hok & _).
  pose proof (valid_nlength_bound w Hv) as Hn.
  pose proof (update_valid w elapsed vs' Hv Hok) as Hv1.
  set (w1 := MkWaveMesh vs' (length_ w) (width_ w) (nlength_ w) (nwidth_ w)
               (wave_k_ w) (wave_period_ w) (wave_full_period_ w) (wave_velocity_ w)
               ((fun n => displacement w n elapsed) <$> seqZ 0 (nlength_ w + 1))) in *.
  assert (Hnone : dirty_ranges w1 elapsed = []).
  { unfold dirty_ranges. apply ranges_from_none. intros i Hi.
    change (nlength_ w1) with (nlength_ w) in Hi.
    unfold changed_at, vec_get. simpl.
    rewrite list_lookup_fmap, lookup_seqZ_lt by lia. simpl.
    rewrite Z2Nat.id by lia. apply Hne. lia. }
  assert (Hdet : detect_ranges (fun n => displacement w1 n elapsed) (nlength_ w1)
                   (displacement_ w1) = Some (displacement_ w1, [])).
  { rewrite detect_ranges_eq by (simpl; lia || apply Hv1).
    fold (dirty_ranges w1 elapsed). rewrite Hnone. done. }
  exists w1, (vertex_range w <$> dirty_ranges w elapsed).
  unfold update at 2. rewrite Hdet. cbn [mbind option_bind update_ranges].
  eexists. split; [exact E|]. split; [done|]. split; done.
Qed.

End Update.

(** ** The state the constructor builds *)

Section Construction.
Context {D F : Type} `{!DoubleOps D} `{!Narrow D F}.

(** The constructor establishes [valid]. *)
Lemma WaveMesh_new_valid (length width : D) (nlength nwidth : Z) (wavelength duty_cycle : D) :
  1 <= nlength -> 1 <= nwidth -> 6 * nlength * nwidth < SIZE_MOD ->
  valid (WaveMesh_new (F := F) length width nlength nwidth wavelength duty_cycle).
Proof.
  intros Hl Hw Hsz. split; simpl; try done.
  - rewrite length_replicate. unfold sz_add. rewrite sz_small; [done|].
    rewrite SIZE_MOD_eq in *. nia.
  - unfold create_mesh. apply make_grid_length; lia.
  - apply make_grid_vertex_size.
Qed.

(** The corner of the table entry [p] of the quad [(i, j)]: even entries
    lie on length line [i], odd entries on length line [i + 1]. *)
Lemma corner_table_x (length width base : D) (n_x n_y i j p : Z) :
  0 <= p < 6 ->
  v3x (corner_table (F := F)
         (grid_corner length width base n_x n_y i (j + 1))
         (grid_corner length width base n_x n_y i j)
         (grid_corner length width base n_x n_y (i + 1) (j + 1))
         (grid_corner length width base n_x n_y (i + 1) j) p)
  = narrow (grid_x length n_x (i + p mod 2)).
Proof.
  intros Hp.
  assert (Hc : p = 0 \/ p = 1 \/ p = 2 \/ p = 3 \/ p = 4 \/ p = 5) by lia.
  destruct Hc as [->|[->|[->|[->|[->| ->]]]]]; simpl;
    rewrite ?Z.add_0_r; reflexivity.
Qed.

(** The width line of the table entry [p]: the upper corners (entries 1, 2
    and 3) lie on line [j + 1], the lower ones on line [j]. *)
Lemma corner_table_y (length width base : D) (n_x n_y i j p : Z) :
  0 <= p < 6 ->
  v3y (corner_table (F := F)
         (grid_corner length width base n_x n_y i (j + 1))
         (grid_corner length width base n_x n_y i j)
         (grid_corner length width base n_x n_y (i + 1) (j + 1))
         (grid_corner length width base n_x n_y (i + 1) j) p)
  = narrow (grid_y width n_y (j + bool_to_sz (bool_decide (1 <= p <= 3)))).
Proof.
  intros Hp.
  assert (Hc : p = 0 \/ p = 1 \/ p = 2 \/ p = 3 \/ p = 4 \/ p = 5) by lia.
  destruct Hc as [->|[->|[->|[->|[->| ->]]]]]; simpl;
    rewrite ?Z.add_0_r; reflexivity.
Qed.

Lemma corner_table_z (length width base : D) (n_x n_y i j p : Z) :
  v3z (corner_table (F := F)
         (grid_corner length width base n_x n_y i (j + 1))
         (grid_corner length width base n_x n_y i j)
         (grid_corner length width base n_x n_y (i + 1) (j + 1))
         (grid_corner length width base n_x n_y (i + 1) j) p)
  = narrow base.
Proof. unfold corner_table. by repeat case_match. Qed.

(** C3: in the grid the constructor builds, the vertex of index [v] is the
    one emitted at place [p] of the quad [(i, j)] with
    [v = 6 * (i * nwidth + j) + p]; its own position lies on the length
    line [i + p mod 2] (even places carry [i], odd places [i + 1]), and
    this is [v / (6 * nwidth) + v mod 2], the value of
    [vertex_length_index]. *)
Theorem grid_vertex_length_index (length width : D) (nlength nwidth : Z)
  (wavelength duty_cycle : D) (v : Z) :
  1 <= nwidth -> 6 * nlength * nwidth < SIZE_MOD ->
  0 <= v < 6 * nlength * nwidth ->
  exists i j p vx,
    v = 6 * (i * nwidth + j) + p /\ 0 <= i < nlength /\ 0 <= j < nwidth /\ 0 <= p < 6 /\
    vec_get (mesh_ (WaveMesh_new (F := F) length width nlength nwidth wavelength duty_cycle)) v
      = Some vx /\
    vx !! 0%nat = Some (narrow (grid_x length nlength (i + p mod 2))) /\
    v / (6 * nwidth) + v mod 2 = i + p mod 2 /\
    vertex_length_index
      (WaveMesh_new (F := F) length width nlength nwidth wavelength duty_cycle) v
      = Some (v / (6 * nwidth) + v mod 2).
Proof.
  intros Hw Hsz Hv.
  destruct (vertex_index_split nlength nwidth v Hw Hv) as (i & j & p & E & Hi & Hj & Hp & Eq & Em).
  exists i, j, p. eexists.
  split; [done|]. split; [done|]. split; [done|]. split; [done|].
  split; [|split; [|split]].
  - simpl. unfold create_mesh. rewrite E. by apply make_grid_lookup.
  - simpl. f_equal. by apply corner_table_x.
  - lia.
  - apply (vertex_length_index_eq
             (WaveMesh_new (F := F) length width nlength nwidth wavelength duty_cycle));
      simpl; done.
Qed.

(** C7 (as amended): what the constructor stores.  The own x and y of a
    vertex are the interpolated coordinates of a length line and of a width
    line of the grid; the z of each of its four slots is the converted base
    height [0.0] that [create_mesh] passes to [make_grid]; [displacement_]
    holds [nlength + 1] zeros.  The vertex z is thus the stored displacement
    of its length index, which is zero whatever
    [displacement(lengthIndex(v), 0)] is. *)
Theorem initial_state (length width : D) (nlength nwidth : Z)
  (wavelength duty_cycle : D) (v : Z) :
  1 <= nwidth -> 6 * nlength * nwidth < SIZE_MOD ->
  0 <= v < 6 * nlength * nwidth ->
  displacement_ (WaveMesh_new (F := F) length width nlength nwidth wavelength duty_cycle)
    = replicate (Z.to_nat (nlength + 1)) (dbl_of_Z 0) /\
  exists vx d jy,
    vec_get (mesh_ (WaveMesh_new (F := F) length width nlength nwidth wavelength duty_cycle)) v
      = Some vx /\
    vx !! 0%nat = Some (narrow (grid_x length nlength (v / (6 * nwidth) + v mod 2))) /\
    0 <= jy <= nwidth /\ vx !! 1%nat = Some (narrow (grid_y width nwidth jy)) /\
    vec_get (displacement_
               (WaveMesh_new (F := F) length width nlength nwidth wavelength duty_cycle))
            (v / (6 * nwidth) + v mod 2) = Some d /\
    d = dbl_of_Z 0 /\
    vx !! 2%nat = Some (narrow d) /\ vx !! 5%nat = Some (narrow d) /\
    vx !! 8%nat = Some (narrow d) /\ vx !! 11%nat = Some (narrow d).
Proof.
  intros Hw Hsz Hv.
  assert (Hn : sz_add nlength 1 = nlength + 1).
  { unfold sz_add. apply sz_small. rewrite SIZE_MOD_eq in *. nia. }
  split; [simpl; by rewrite Hn|].
  destruct (vertex_index_split nlength nwidth v Hw Hv) as (i & j & p & E & Hi & Hj & Hp & Eq & Em).
  eexists _, (dbl_of_Z 0), (j + bool_to_sz (bool_decide (1 <= p <= 3))).
  split; [simpl; unfold create_mesh; rewrite E; by apply make_grid_lookup|].
  split; [simpl; f_equal; rewrite Eq, Em; by apply corner_table_x|].
  split; [case_bool_decide; simpl; lia|].
  split; [simpl; f_equal; by apply corner_table_y|].
  split.
  { simpl. rewrite Hn. unfold vec_get. apply lookup_replicate_2.
    pose proof (Z.mod_pos_bound v 2 ltac:(lia)). lia. }
  split; [done|].
  simpl. rewrite !corner_table_z. done.
Qed.

End Construction.

(** ** Rounding in binary64

    What the properties of [wave_func] need of the rounding of the
    primitive floats, from its specification in [SpecFloat]. *)

Section Rounding64.


Lemma pow2_pos (a : Z) : 0 <= a -> 0 < 2 ^ a.
Proof. intros. apply Z.pow_pos_nonneg; lia. Qed.

Lemma pow2_split (a b : Z) : 0 <= a -> 0 <= b -> 2 ^ (a + b) = 2 ^ a * 2 ^ b.
Proof. intros. apply Z.pow_add_r; lia. Qed.

Lemma pow2_le (a b : Z) : 0 <= a <= b -> 2 ^ a <= 2 ^ b.
Proof. intros. apply Z.pow_le_mono_r; lia. Qed.

Lemma pow2_lt (a b : Z) : 0 <= a < b -> 2 ^ a < 2 ^ b.
Proof. intros. apply Z.pow_lt_mono_r; lia. Qed.

(** The number of binary digits of a positive number. *)
Lemma digits2_pos_log2 (m : positive) :
  Z.pos (digits2_pos m) = Z.log2 (Z.pos m) + 1.
Proof.
  induction m as [m IH|m IH|].
  - cbn [digits2_pos]. rewrite Pos2Z.inj_succ, IH.
    change (Z.pos m~1) with (2 * Z.pos m + 1).
    rewrite Z.log2_succ_double by lia. lia.
  - cbn [digits2_pos]. rewrite Pos2Z.inj_succ, IH.
    change (Z.pos m~0) with (2 * Z.pos m).
    rewrite Z.log2_double by lia. lia.
  - reflexivity.
Qed.

Lemma digits2_pos_bounds (m : positive) :
  2 ^ (Z.pos (digits2_pos m) - 1) <= Z.pos m < 2 ^ Z.pos (digits2_pos m).
Proof.
  rewrite digits2_pos_log2.
  pose proof (Z.log2_spec (Z.pos m) ltac:(lia)) as H.
  replace (Z.log2 (Z.pos m) + 1 - 1) with (Z.log2 (Z.pos m)) by lia.
  replace (Z.log2 (Z.pos m) + 1) with (Z.succ (Z.log2 (Z.pos m))) by lia.
  exact H.
Qed.

Lemma digits2_pos_unique (m : positive) (d : Z) :
  2 ^ (d - 1) <= Z.pos m < 2 ^ d -> Z.pos (digits2_pos m) = d.
Proof.
  intros H. rewrite digits2_pos_log2.
  assert (Hd : 1 <= d).
  { destruct (Z_lt_le_dec d 1) as [Hlt|]; [|done].
    exfalso. assert (2 ^ d <= 1); [|lia].
    destruct (Z_lt_le_dec d 0) as [Hn|Hn].
    - rewrite Z.pow_neg_r by lia. lia.
    - replace d with 0 by lia. simpl. lia. }
  rewrite (Z.log2_unique (Z.pos m) (d - 1)); [lia|lia|].
  replace (Z.succ (d - 1)) with d by lia. exact H.
Qed.

(** Shifting a mantissa to the left. *)
Lemma iter_xO (m d : positive) : Z.pos (Pos.iter xO m d) = Z.pos m * 2 ^ Z.pos d.
Proof.
  induction d as [|d IH] using Pos.peano_ind.
  - simpl. lia.
  - rewrite Pos.iter_succ, Pos2Z.inj_succ, Z.pow_succ_r by lia.
    change (Z.pos (Pos.iter xO m d)~0) with (2 * Z.pos (Pos.iter xO m d)).
    rewrite IH. lia.
Qed.

Lemma shl_align_spec (m : positive) (e e' : Z) :
  e' <= e ->
  Z.pos (fst (shl_align m e e')) = Z.pos m * 2 ^ (e - e')
  /\ snd (shl_align m e e') = e'.
Proof.
  intros He. unfold shl_align.
  destruct (e' - e) as [|d|d] eqn:Hd; simpl.
  - replace (e - e') with 0 by lia. simpl. lia.
  - lia.
  - rewrite iter_xO. replace (e - e') with (Z.pos d) by lia. done.
Qed.

(** Shifting to the right keeps the quotient; an exact division leaves the
    location exact. *)
Lemma shr_1_spec (mrs : shr_record) :
  0 <= shr_m mrs ->
  shr_m (shr_1 mrs) = shr_m mrs / 2
  /\ (shr_m mrs mod 2 = 0 -> shr_r mrs = false -> shr_s mrs = false ->
      shr_r (shr_1 mrs) = false /\ shr_s (shr_1 mrs) = false).
Proof.
  destruct mrs as [m r s]. cbn [shr_m shr_r shr_s]. intros Hm.
  destruct m as [|p|p]; [| |lia].
  - simpl. split; [reflexivity|]. intros _ -> ->. done.
  - destruct p as [p|p|].
    + cbn [shr_1 shr_m shr_r shr_s]. split.
      * change (Z.pos p~1) with (2 * Z.pos p + 1).
        apply (Z.div_unique _ _ _ 1); lia.
      * intros H. exfalso.
        rewrite Pos2Z.inj_xI in H.
        replace (2 * Z.pos p + 1) with (1 + Z.pos p * 2) in H by lia.
        rewrite Z.mod_add in H by lia. discriminate H.
    + cbn [shr_1 shr_m shr_r shr_s]. split.
      * change (Z.pos p~0) with (2 * Z.pos p).
        apply (Z.div_unique _ _ _ 0); lia.
      * intros _ -> ->. done.
    + cbn [shr_1 shr_m shr_r shr_s]. split; [reflexivity|].
      intros H. discriminate H.
Qed.

Lemma iter_shr_1_spec (k : positive) (mrs : shr_record) :
  0 <= shr_m mrs ->
  shr_m (SpecFloat.iter_pos shr_1 k mrs) = shr_m mrs / 2 ^ Z.pos k
  /\ (shr_m mrs mod 2 ^ Z.pos k = 0 -> shr_r mrs = false -> shr_s mrs = false ->
      shr_r (SpecFloat.iter_pos shr_1 k mrs) = false /\ shr_s (SpecFloat.iter_pos shr_1 k mrs) = false).
Proof.
  revert mrs. induction k as [k IH|k IH|]; intros mrs Hm.
  - cbn [SpecFloat.iter_pos].
    destruct (shr_1_spec mrs Hm) as [E1 X1].
    assert (H1 : 0 <= shr_m (shr_1 mrs)) by (rewrite E1; apply Z.div_pos; lia).
    destruct (IH _ H1) as [E2 X2].
    assert (H2 : 0 <= shr_m (SpecFloat.iter_pos shr_1 k (shr_1 mrs))).
    { rewrite E2. apply Z.div_pos; [lia|]. apply pow2_pos. lia. }
    destruct (IH _ H2) as [E3 X3].
    pose proof (pow2_pos (Z.pos k) ltac:(lia)) as Hp.
    assert (Hpow : 2 ^ Z.pos k~1 = 2 * (2 ^ Z.pos k * 2 ^ Z.pos k)).
    { rewrite (Pos2Z.inj_xI k).
      replace (2 * Z.pos k + 1) with (1 + (Z.pos k + Z.pos k)) by lia.
      rewrite !pow2_split by lia. reflexivity. }
    split.
    + rewrite E3, E2, E1, Hpow, !Z.div_div by lia. reflexivity.
    + intros Hx Hr Hs. rewrite Hpow in Hx.
      rewrite Z.rem_mul_r in Hx by lia.
      pose proof (Z.mod_pos_bound (shr_m mrs) 2 ltac:(lia)).
      pose proof (Z.mod_pos_bound (shr_m mrs / 2) (2 ^ Z.pos k * 2 ^ Z.pos k) ltac:(lia)).
      assert (Hx1 : shr_m mrs mod 2 = 0) by nia.
      assert (Hx2 : (shr_m mrs / 2) mod (2 ^ Z.pos k * 2 ^ Z.pos k) = 0) by nia.
      rewrite Z.rem_mul_r in Hx2 by lia.
      pose proof (Z.mod_pos_bound (shr_m mrs / 2) (2 ^ Z.pos k) ltac:(lia)).
      pose proof (Z.mod_pos_bound (shr_m mrs / 2 / 2 ^ Z.pos k) (2 ^ Z.pos k) ltac:(lia)).
      destruct (X1 Hx1 Hr Hs) as [R1 S1].
      apply X3; [|apply X2; [rewrite E1; nia|done|done]..].
      rewrite E2, E1. nia.
  - cbn [SpecFloat.iter_pos].
    destruct (IH _ Hm) as [E2 X2].
    assert (H2 : 0 <= shr_m (SpecFloat.iter_pos shr_1 k mrs)).
    { rewrite E2. apply Z.div_pos; [lia|]. apply pow2_pos. lia. }
    destruct (IH _ H2) as [E3 X3].
    pose proof (pow2_pos (Z.pos k) ltac:(lia)) as Hp.
    assert (Hpow : 2 ^ Z.pos k~0 = 2 ^ Z.pos k * 2 ^ Z.pos k).
    { rewrite (Pos2Z.inj_xO k).
      replace (2 * Z.pos k) with (Z.pos k + Z.pos k) by lia.
      rewrite !pow2_split by lia. reflexivity. }
    split.
    + rewrite E3, E2, Hpow, !Z.div_div by lia. reflexivity.
    + intros Hx Hr Hs. rewrite Hpow in Hx.
      rewrite Z.rem_mul_r in Hx by lia.
      pose proof (Z.mod_pos_bound (shr_m mrs) (2 ^ Z.pos k) ltac:(lia)).
      pose proof (Z.mod_pos_bound (shr_m mrs / 2 ^ Z.pos k) (2 ^ Z.pos k) ltac:(lia)).
      apply X3; [|apply X2; [nia|done|done]..].
      rewrite E2. nia.
  - cbn [SpecFloat.iter_pos]. change (2 ^ 1) with 2. by apply shr_1_spec.
Qed.

Lemma shr_spec (m e k : Z) :
  0 <= m -> 0 <= k ->
  snd (shr (Build_shr_record m false false) e k) = e + k
  /\ shr_m (fst (shr (Build_shr_record m false false) e k)) = m / 2 ^ k
  /\ (m mod 2 ^ k = 0 ->
      loc_of_shr_record (fst (shr (Build_shr_record m false false) e k)) = loc_Exact).
Proof.
  intros Hm Hk. destruct k as [|k|k]; [| |lia].
  - simpl. rewrite Z.div_1_r. split; [lia|done].
  - cbn [shr fst snd].
    destruct (iter_shr_1_spec k (Build_shr_record m false false) Hm) as [E X].
    split; [done|]. split; [exact E|].
    intros Hx. destruct (X Hx eq_refl eq_refl) as [R S].
    destruct (SpecFloat.iter_pos shr_1 k _) as [m' r s]. simpl in *. by subst.
Qed.

Lemma round_nearest_even_bounds (m : Z) (l : location) :
  m <= round_nearest_even m l <= m + 1.
Proof. destruct l as [|[| |]]; simpl; try lia. destruct (Z.even m); lia. Qed.

Lemma fexp64_eq (l : Z) : fexp prec emax l = Z.max (l - 53) (-1074).
Proof. reflexivity. Qed.

Lemma canonical_eq (m : positive) (e : Z) :
  canonical_mantissa prec emax m e = true
  <-> Z.max (Z.pos (digits2_pos m) + e - 53) (-1074) = e.
Proof. unfold canonical_mantissa. rewrite fexp64_eq. apply Z.eqb_eq. Qed.

(** Rounding a mantissa that needs a right shift of [k] bits: the result is
    the quotient or the next integer, and the quotient itself when the
    division is exact; the mantissa is canonical. *)
Lemma binary_round_aux_spec (s : bool) (mz : positive) (e1 : Z) :
  let E := fexp prec emax (Z.pos (digits2_pos mz) + e1) in
  let k := E - e1 in
  0 <= k ->
  exists m1 : Z,
    Z.pos mz / 2 ^ k <= m1 <= Z.pos mz / 2 ^ k + 1 /\
    (Z.pos mz mod 2 ^ k = 0 -> m1 = Z.pos mz / 2 ^ k) /\
    (binary_round_aux prec emax s (Z.pos mz) e1 loc_Exact = S754_zero s /\ m1 = 0
     \/ exists m e,
          binary_round_aux prec emax s (Z.pos mz) e1 loc_Exact
          = (if e <=? emax - prec then S754_finite s m e else S754_infinity s)
          /\ canonical_mantissa prec emax m e = true
          /\ E <= e /\ Z.pos m * 2 ^ (e - E) = m1).
Proof.
  intros E k Hk.
  pose proof (digits2_pos_bounds mz) as Hd.
  set (d := Z.pos (digits2_pos mz)) in *.
  assert (HE : E = Z.max (d + e1 - 53) (-1074)) by reflexivity.
  pose proof (pow2_pos k Hk) as Hpk.
  destruct (shr_spec (Z.pos mz) e1 k ltac:(lia) Hk) as (S1 & S2 & S3).
  unfold binary_round_aux, shr_fexp.
  cbn [Zdigits2 shr_record_of_loc]. fold d. fold E. fold k.
  destruct (shr (Build_shr_record (Z.pos mz) false false) e1 k) as [mrs' e'] eqn:Eshr.
  cbn [fst snd] in S1, S2, S3.
  set (m' := Z.pos mz / 2 ^ k) in *.
  assert (Hm'0 : 0 <= m') by (apply Z.div_pos; lia).
  assert (Hm'53 : m' < 2 ^ 53).
  { apply Z.div_lt_upper_bound; [lia|].
    assert (1 <= d).
    { destruct (Z_lt_le_dec d 1); [|done]. unfold d in *. lia. }
    assert (2 ^ d <= 2 ^ (k + 53)) by (apply pow2_le; lia).
    rewrite pow2_split in * by lia. lia. }
  set (m1 := round_nearest_even (shr_m mrs') (loc_of_shr_record mrs')).
  pose proof (round_nearest_even_bounds (shr_m mrs') (loc_of_shr_record mrs')) as Hr.
  fold m1 in Hr. rewrite S2 in Hr.
  exists m1. split; [exact Hr|]. split.
  { intros Hx. unfold m1. rewrite (S3 Hx). simpl. exact S2. }
  assert (He' : e' = E) by (unfold k in S1; lia).
  clear S1 Eshr. subst e'.
  assert (HEmin : -1074 <= E) by lia.
  destruct (Z.eq_dec m1 0) as [H0|H0].
  { left. rewrite H0. cbn [Zdigits2]. rewrite Z.add_0_l.
    assert (Hs : fexp prec emax E - E <= 0) by (rewrite fexp64_eq; lia).
    destruct (fexp prec emax E - E) as [|q|q] eqn:Hq; [| lia |]; simpl; done. }
  right.
  assert (Hm1 : 0 < m1) by lia.
  destruct m1 as [|p1|p1] eqn:Em1; [lia| |lia].
  pose proof (digits2_pos_bounds p1) as Hd1.
  cbn [Zdigits2].
  set (d1 := Z.pos (digits2_pos p1)) in *.
  destruct (Z_lt_le_dec (Z.pos p1) (2 ^ 53)) as [Hlt|Hge].
  - (* No carry: the mantissa stays at exponent E. *)
    assert (Hd1le : d1 <= 53).
    { destruct (Z_lt_le_dec 53 d1); [|done].
      assert (2 ^ 53 <= 2 ^ (d1 - 1)) by (apply pow2_le; lia). lia. }
    assert (Hs : fexp prec emax (d1 + E) - E <= 0) by (rewrite fexp64_eq; lia).
    exists p1, E.
    split.
    { destruct (fexp prec emax (d1 + E) - E) as [|q|q] eqn:Hq; [| lia |]; simpl; done. }
    split; [|split; [lia|replace (E - E) with 0 by lia; simpl; lia]].
    apply canonical_eq. fold d1.
    destruct (Z.eq_dec E (-1074)) as [Emin|Emin]; [lia|].
    assert (Hk53 : d = k + 53) by lia.
    assert (2 ^ 52 <= m').
    { apply Z.div_le_lower_bound; [lia|].
      replace (d - 1) with (k + 52) in Hd by lia.
      rewrite pow2_split in Hd by lia. lia. }
    assert (53 <= d1).
    { destruct (Z_lt_le_dec d1 53); [|done].
      assert (2 ^ d1 <= 2 ^ 52); [|lia].
      assert (1 <= d1) by (unfold d1; lia).
      apply pow2_le; lia. }
    lia.
  - (* The carry: 2^53 becomes 2^52 at exponent E + 1. *)
    assert (Hp1 : Z.pos p1 = 2 ^ 53) by lia.
    assert (Hp1' : p1 = 9007199254740992%positive).
    { apply Pos2Z.inj. rewrite Hp1. reflexivity. }
    subst p1.
    exists 4503599627370496%positive, (E + 1).
    split.
    { change d1 with 54. rewrite fexp64_eq.
      replace (Z.max (54 + E - 53) (-1074) - E) with 1 by lia.
      reflexivity. }
    split; [apply canonical_eq; simpl; lia|].
    split; [lia|]. replace (E + 1 - E) with 1 by lia. reflexivity.
Qed.

(** A canonical mantissa has at most 53 digits, and exactly 53 above the
    smallest exponent. *)
Lemma canonical_digits (m : positive) (e : Z) :
  canonical_mantissa prec emax m e = true ->
  -1074 <= e /\ Z.pos m < 2 ^ 53 /\ (-1074 < e -> 2 ^ 52 <= Z.pos m).
Proof.
  intros Hc%canonical_eq.
  pose proof (digits2_pos_bounds m) as Hd.
  set (d := Z.pos (digits2_pos m)) in *.
  assert (1 <= d) by (unfold d; lia).
  split; [lia|]. split.
  - assert (2 ^ d <= 2 ^ 53) by (apply pow2_le; lia). lia.
  - intros He. assert (d = 53) by lia.
    replace (d - 1) with 52 in Hd by lia. lia.
Qed.

(** The order of two canonical doubles is read off their exponents, then
    their mantissas. *)
Lemma canonical_le (m1 : positive) (e1 : Z) (m2 : positive) (e2 : Z) :
  canonical_mantissa prec emax m1 e1 = true ->
  canonical_mantissa prec emax m2 e2 = true ->
  float_units m1 e1 <= float_units m2 e2 ->
  e1 < e2 \/ (e1 = e2 /\ (m1 <= m2)%positive).
Proof.
  unfold float_units.
  intros (He1 & Hm1 & Hn1)%canonical_digits (He2 & Hm2 & Hn2)%canonical_digits Hle.
  pose proof (pow2_pos (e2 + 1074) ltac:(lia)) as Hp2.
  destruct (Z_lt_le_dec e1 e2) as [|Hge]; [by left|right].
  destruct (Z.eq_dec e1 e2) as [->|Hne].
  - split; [done|]. apply Pos2Z.pos_le_pos. nia.
  - exfalso. specialize (Hn1 ltac:(lia)).
    assert (2 ^ (e2 + 1074 + 1) <= 2 ^ (e1 + 1074)) by (apply pow2_le; lia).
    rewrite pow2_split in * by lia. change (2 ^ 1) with 2 in *.
    change (2 ^ 52) with 4503599627370496 in *.
    change (2 ^ 53) with 9007199254740992 in *.
    nia.
Qed.

Lemma canonical_leb (s : bool) (m1 : positive) (e1 : Z) (m2 : positive) (e2 : Z) :
  canonical_mantissa prec emax m1 e1 = true ->
  canonical_mantissa prec emax m2 e2 = true ->
  float_units m1 e1 <= float_units m2 e2 ->
  SFleb (S754_finite false m1 e1) (S754_finite false m2 e2) = true.
Proof.
  intros H1 H2 Hle.
  unfold SFleb, SFcompare.
  destruct (canonical_le m1 e1 m2 e2 H1 H2 Hle) as [Hlt|[-> Hm]].
  - apply Z.compare_lt_iff in Hlt. by rewrite Hlt.
  - rewrite Z.compare_refl.
    change (Pos.compare_cont Eq m1 m2) with (Pos.compare m1 m2).
    apply Pos.compare_le_iff in Hm.
    by destruct (m1 ?= m2)%positive.
Qed.

(** Rounding is monotone against a double: a value that is, before
    rounding, at most the double [mp * 2^ep] rounds to a double that is at
    most [mp * 2^ep]; overflow is excluded. *)
Lemma binary_round_le (s : bool) (m : positive) (e : Z) (mp : positive) (ep : Z) :
  -1074 <= e ->
  bounded prec emax mp ep = true ->
  float_units m e <= float_units mp ep ->
  binary_round prec emax s m e = S754_zero s
  \/ exists m' e',
       binary_round prec emax s m e = S754_finite s m' e'
       /\ bounded prec emax m' e' = true
       /\ float_units m' e' <= float_units mp ep.
Proof.
  intros He Hb Hle.
  apply andb_prop in Hb as [Hcp Hep]. apply Z.leb_le in Hep.
  change (emax - prec) with 971 in Hep.
  pose proof (canonical_digits mp ep Hcp) as (Hepmin & Hmp & _).
  pose proof (proj1 (canonical_eq mp ep) Hcp) as Hcp'.
  pose proof (digits2_pos_bounds m) as Hd.
  pose proof (digits2_pos_bounds mp) as Hdp.
  set (d := Z.pos (digits2_pos m)) in *.
  set (dp := Z.pos (digits2_pos mp)) in *.
  assert (Hd1 : 1 <= d) by (unfold d; lia).
  assert (Hdp1 : 1 <= dp) by (unfold dp; lia).
  unfold float_units in Hle.
  set (E := fexp prec emax (d + e)).
  assert (HE : E = Z.max (d + e - 53) (-1074)) by reflexivity.
  (* The magnitude of the value is at most that of the bound. *)
  assert (HL : d + e <= dp + ep).
  { destruct (Z_lt_le_dec (dp + ep) (d + e)) as [Hgt|]; [exfalso|done].
    assert (2 ^ (dp + (ep + 1074)) <= 2 ^ (d - 1 + (e + 1074))) by (apply pow2_le; lia).
    rewrite (pow2_split dp), (pow2_split (d - 1)) in H by lia.
    pose proof (pow2_pos (e + 1074) ltac:(lia)) as Ha.
    pose proof (pow2_pos (ep + 1074) ltac:(lia)) as Hb.
    assert (Z.pos mp * 2 ^ (ep + 1074) < 2 ^ dp * 2 ^ (ep + 1074))
      by (apply Z.mul_lt_mono_pos_r; lia).
    assert (2 ^ (d - 1) * 2 ^ (e + 1074) <= Z.pos m * 2 ^ (e + 1074))
      by (apply Z.mul_le_mono_nonneg_r; lia).
    lia. }
  assert (HEep : E <= ep) by lia.
  (* The aligned mantissa. *)
  unfold binary_round. fold d. fold E.
  assert (Hal : exists mz e1,
             shl_align m e E = (mz, e1) /\ -1074 <= e1 <= E
             /\ fexp prec emax (Z.pos (digits2_pos mz) + e1) = E
             /\ Z.pos mz * 2 ^ (e1 + 1074) = Z.pos m * 2 ^ (e + 1074)).
  { destruct (Z_lt_le_dec E e) as [Hlt|Hge].
    - destruct (shl_align_spec m e E ltac:(lia)) as [A1 A2].
      destruct (shl_align m e E) as [mz e1]. cbn [fst snd] in A1, A2. subst e1.
      exists mz, E. split; [done|]. split; [lia|].
      assert (Hdz : Z.pos (digits2_pos mz) = d + (e - E)).
      { apply digits2_pos_unique. rewrite A1.
        replace (d + (e - E) - 1) with ((d - 1) + (e - E)) by lia.
        rewrite (pow2_split (d - 1)), (pow2_split d) by lia.
        pose proof (pow2_pos (e - E) ltac:(lia)). nia. }
      split.
      + rewrite Hdz. replace (d + (e - E) + E) with (d + e) by lia. done.
      + rewrite A1. replace (e + 1074) with ((e - E) + (E + 1074)) by lia.
        rewrite (pow2_split (e - E)) by lia. lia.
    - exists m, e. split; [|split; [lia|done]].
      unfold shl_align. destruct (E - e) eqn:Hq; [done|done|lia]. }
  destruct Hal as (mz & e1 & -> & He1 & HE1 & Hval).
  pose proof (binary_round_aux_spec s mz e1) as Haux.
  rewrite HE1 in Haux. cbn zeta in Haux.
  destruct (Haux ltac:(lia)) as (m1 & Hm1 & Hex & Hres). clear Haux.
  destruct Hres as [[-> _]|(m' & e' & Hres & Hc' & HEe' & Hm')]; [by left|right].
  set (k := E - e1) in *.
  pose proof (pow2_pos k ltac:(lia)) as Hpk.
  set (Q := Z.pos mp * 2 ^ (ep - E)).
  pose proof (pow2_pos (E + 1074) ltac:(lia)) as HpE.
  pose proof (pow2_pos (e1 + 1074) ltac:(lia)) as Hpe1.
  assert (HP : Z.pos mp * 2 ^ (ep + 1074) = Q * 2 ^ (E + 1074)).
  { unfold Q. replace (ep + 1074) with ((ep - E) + (E + 1074)) by lia.
    rewrite (pow2_split (ep - E)) by lia. lia. }
  assert (HzQ : Z.pos mz <= Q * 2 ^ k).
  { assert (Hs : 2 ^ (E + 1074) = 2 ^ k * 2 ^ (e1 + 1074)).
    { unfold k. rewrite <- pow2_split by lia. f_equal. lia. }
    rewrite Hs in HP. nia. }
  assert (Hm1Q : m1 <= Q).
  { pose proof (Z.mul_div_le (Z.pos mz) (2 ^ k) Hpk) as Hfl.
    assert (Hq : Z.pos mz / 2 ^ k <= Q) by (apply Z.div_le_upper_bound; lia).
    destruct (Z.eq_dec (Z.pos mz / 2 ^ k) Q) as [Heq|]; [|lia].
    rewrite Hex; [lia|].
    apply Z.div_exact; [lia|]. nia. }
  assert (Hv' : float_units m' e' <= float_units mp ep).
  { unfold float_units. rewrite HP.
    replace (e' + 1074) with ((e' - E) + (E + 1074)) by lia.
    rewrite (pow2_split (e' - E)) by lia. nia. }
  destruct (canonical_le m' e' mp ep Hc' Hcp Hv') as [Hlt|[Heq _]].
  - exists m', e'. rewrite Hres.
    assert (Hb' : (e' <=? emax - prec) = true) by (apply Z.leb_le; change (emax - prec) with 971; lia).
    rewrite Hb'. split; [done|]. split; [|done].
    unfold bounded. by rewrite Hc', Hb'.
  - exists m', e'. rewrite Hres.
    assert (Hb' : (e' <=? emax - prec) = true) by (apply Z.leb_le; change (emax - prec) with 971; lia).
    rewrite Hb'. split; [done|]. split; [|done].
    unfold bounded. by rewrite Hc', Hb'.
Qed.

End Rounding64.

(** ** wave_func and displacement in binary64 *)

Section Phase64.

(** A finite double is a zero or has a mantissa and an exponent. *)
Lemma is_finite_SF (x : float) :
  is_finite x = true ->
  (exists s, Prim2SF x = S754_zero s) \/ (exists s m e, Prim2SF x = S754_finite s m e).
Proof.
  unfold is_finite, is_nan, is_infinity.
  rewrite !FloatAxioms.eqb_spec, FloatAxioms.abs_spec.
  change (Prim2SF infinity) with (S754_infinity false).
  destruct (Prim2SF x) as [s|[]| |s m e]; simpl; intros H; try discriminate H.
  - left. by exists s.
  - right. by exists s, m, e.
Qed.

(** A finite double above zero has a positive sign. *)
Lemma positive_finite_SF (p : float) :
  is_finite p = true -> (0 <? p)%float = true ->
  exists m e, Prim2SF p = S754_finite false m e.
Proof.
  intros Hf Hp. rewrite FloatAxioms.ltb_spec in Hp.
  change (Prim2SF 0) with (S754_zero false) in Hp.
  destruct (is_finite_SF p Hf) as [[s E]|(s & m & e & E)]; rewrite E in Hp.
  - discriminate Hp.
  - destruct s; [discriminate Hp|]. by exists m, e.
Qed.

(** A double that is a zero, or positive and at most [p], lies in [0, p]. *)
Lemma in_range_leb (r p : float) (mp : positive) (ep : Z) :
  Prim2SF p = S754_finite false mp ep ->
  ((exists s, Prim2SF r = S754_zero s)
   \/ exists m e, Prim2SF r = S754_finite false m e
                  /\ float_units m e <= float_units mp ep) ->
  (r <? 0)%float = false /\ (0 <=? r)%float = true /\ (r <=? p)%float = true.
Proof.
  intros Ep Hr. rewrite FloatAxioms.ltb_spec, !FloatAxioms.leb_spec, Ep.
  change (Prim2SF 0) with (S754_zero false).
  pose proof (Prim2SF_valid p) as Vp. rewrite Ep in Vp.
  apply andb_prop in Vp as [Cp _].
  destruct Hr as [[s ->]|(m & e & Er & Hle)]; [done|].
  pose proof (Prim2SF_valid r) as Vr. rewrite Er in Vr.
  apply andb_prop in Vr as [Cr _]. rewrite Er.
  split; [done|]. split; [done|].
  by apply (canonical_leb false).
Qed.

(** The result of rounding a value of at most [p], as a double. *)
Lemma round_in_range (s : bool) (z : Z) (e : Z) (mp : positive) (ep : Z) :
  -1074 <= e -> bounded prec emax mp ep = true ->
  0 <= z -> z * 2 ^ (e + 1074) <= float_units mp ep ->
  let y := binary_normalize prec emax (if s then - z else z) e s in
  valid_binary y = true /\
  ((exists s', y = S754_zero s')
   \/ exists m' e', y = S754_finite s m' e'
                    /\ float_units m' e' <= float_units mp ep).
Proof.
  intros He Hb Hz Hle y. subst y.
  destruct z as [|q|q]; [| |lia].
  - destruct s; simpl; (split; [done|left; by eexists]).
  - assert (Hn : binary_normalize prec emax (if s then - Z.pos q else Z.pos q) e s
                 = binary_round prec emax s q e) by (by destruct s).
    rewrite Hn.
    destruct (binary_round_le s q e mp ep He Hb Hle) as [->|(m' & e' & -> & Hb' & Hle')].
    + split; [done|left; by eexists].
    + split; [exact Hb'|right]. by exists m', e'.
Qed.

(** The [r] of [wave_func] in binary64, for a finite [x] and a finite
    positive period [p]: [fmod(x, p)], plus [p] when that is negative, lies
    in the closed interval [0, p]. *)
Lemma phase_in_range (x p : float) :
  is_finite x = true -> is_finite p = true -> (0 <? p)%float = true ->
  let r0 := IEEE.fmod x p in
  let r := if (r0 <? 0)%float then (r0 + p)%float else r0 in
  (0 <=? r)%float = true /\ (r <=? p)%float = true.
Proof.
  intros Hx Hp Hpos r0 r.
  destruct (positive_finite_SF p Hp Hpos) as (mp & ep & Ep).
  pose proof (Prim2SF_valid p) as Vp. rewrite Ep in Vp.
  change (bounded prec emax mp ep = true) in Vp.
  pose proof Vp as Vp'. apply andb_prop in Vp' as [Cp _].
  destruct (canonical_digits mp ep Cp) as (Hep & _ & _).
  (* The remainder: a zero, or a double of magnitude at most p. *)
  assert (Hr0 : (exists s, Prim2SF r0 = S754_zero s)
                \/ exists s m e, Prim2SF r0 = S754_finite s m e
                                 /\ float_units m e <= float_units mp ep).
  { subst r0. unfold IEEE.fmod. rewrite Ep.
    destruct (is_finite_SF x Hx) as [[s E]|(sx & mx & ex & E)]; rewrite E.
    - left. by exists s.
    - pose proof (Prim2SF_valid x) as Vx. rewrite E in Vx.
      apply andb_prop in Vx as [Cx _].
      destruct (canonical_digits mx ex Cx) as (Hex & _ & _).
      cbn zeta.
      set (e := Z.min ex ep).
      set (z := (Z.pos mx * 2 ^ (ex - e)) mod (Z.pos mp * 2 ^ (ep - e))).
      pose proof (pow2_pos (ep - e) ltac:(lia)) as Hpe.
      pose proof (pow2_pos (e + 1074) ltac:(lia)) as Hpu.
      pose proof (Z.mod_pos_bound (Z.pos mx * 2 ^ (ex - e)) (Z.pos mp * 2 ^ (ep - e))
                    ltac:(lia)) as Hz.
      fold z in Hz.
      assert (Hle : z * 2 ^ (e + 1074) <= float_units mp ep).
      { unfold float_units. replace (ep + 1074) with ((ep - e) + (e + 1074)) by lia.
        rewrite (pow2_split (ep - e)) by lia. nia. }
      change (binary_normalize 53 1024 ?a ?b ?c) with (binary_normalize prec emax a b c).
      destruct (round_in_range sx z e mp ep ltac:(lia) Vp ltac:(lia) Hle)
        as [Hv [[s' Hy]|(m' & e' & Hy & Hle')]];
        rewrite (Prim2SF_SF2Prim _ Hv), Hy.
      + left. by exists s'.
      + right. by exists sx, m', e'. }
  destruct Hr0 as [[s E0]|(s & m0 & e0 & E0 & Hle0)].
  - (* A zero: it is not negative, and it is kept. *)
    destruct (in_range_leb r0 p mp ep Ep) as (Hlt & H1 & H2);
      [left; by exists s|].
    subst r. by rewrite Hlt.
  - destruct s.
    + (* A negative remainder: p is added, with one rounding. *)
      assert (Hneg : (r0 <? 0)%float = true).
      { rewrite FloatAxioms.ltb_spec, E0. reflexivity. }
      subst r. rewrite Hneg.
      pose proof (Prim2SF_valid r0) as V0. rewrite E0 in V0.
      apply andb_prop in V0 as [C0 _].
      destruct (canonical_digits m0 e0 C0) as (He0 & _ & _).
      apply (fun H => proj2 (in_range_leb (r0 + p) p mp ep Ep H)).
      rewrite FloatAxioms.add_spec, E0, Ep. unfold SF64add, SFadd.
      set (ez := Z.min e0 ep).
      destruct (shl_align_spec m0 e0 ez ltac:(lia)) as [A0 _].
      destruct (shl_align_spec mp ep ez ltac:(lia)) as [Ap _].
      cbn [cond_Zopp]. rewrite A0, Ap.
      set (a0 := Z.pos m0 * 2 ^ (e0 - ez)). set (ap := Z.pos mp * 2 ^ (ep - ez)).
      pose proof (pow2_pos (ez + 1074) ltac:(lia)) as Hpu.
      assert (U0 : float_units m0 e0 = a0 * 2 ^ (ez + 1074)).
      { unfold float_units, a0. replace (e0 + 1074) with ((e0 - ez) + (ez + 1074)) by lia.
        rewrite (pow2_split (e0 - ez)) by lia. lia. }
      assert (Up : float_units mp ep = ap * 2 ^ (ez + 1074)).
      { unfold float_units, ap. replace (ep + 1074) with ((ep - ez) + (ez + 1074)) by lia.
        rewrite (pow2_split (ep - ez)) by lia. lia. }
      assert (Ha0 : 0 < a0) by (unfold a0; pose proof (pow2_pos (e0 - ez) ltac:(lia)); lia).
      assert (Hsum : 0 <= - a0 + ap) by nia.
      assert (Hle : (- a0 + ap) * 2 ^ (ez + 1074) <= float_units mp ep) by nia.
      destruct (round_in_range false (- a0 + ap) ez mp ep ltac:(lia) Vp Hsum Hle)
        as [_ [[s' Hy]|(m' & e' & Hy & Hle')]]; cbn zeta in Hy; rewrite Hy.
      * left. by exists s'.
      * right. by exists m', e'.
    + (* A positive remainder is kept. *)
      destruct (in_range_leb r0 p mp ep Ep) as (Hlt & H1 & H2);
        [right; by exists m0, e0|].
      subst r. by rewrite Hlt.
Qed.


(** [wave_func] in terms of its [r]. *)
Lemma wave_func_phase {D F : Type} `{!DoubleOps D} `{!Libm D} (w : WaveMesh D F) (x : D) :
  wave_func w x
  = if dbl_lt (wave_period_ w) (wave_phase w x)
    then dbl_of_Z 0
    else dbl_mul dbl_0_2 (libm_sin (dbl_mul (wave_k_ w) (wave_phase w x))).
Proof. reflexivity. Qed.

(** C2 (as amended): in binary64, whatever [std::sin] is,
    [displacement(n, elapsed)] is [wave_func] at
    [x = n * length / nlength - wave_velocity * elapsed], which returns 0
    when [r > wave_period] and [0.2 * sin(wave_k * r)] otherwise, for
    [r = fmod(x, wave_full_period)], plus [wave_full_period] when that is
    negative.  For a finite [x] and a finite positive [wave_full_period],
    [r] lies in the closed interval [0, wave_full_period]. *)
Theorem displacement_spec (sin : float -> float) (w : WaveMesh float float)
  (n : Z) (elapsed : float) :
  let x := (IEEE.of_Z n * length_ w / IEEE.of_Z (nlength_ w)
            - wave_velocity_ w * elapsed)%float in
  let r := wave_phase (Libm0 := IEEE.libm sin) w x in
  is_finite x = true ->
  is_finite (wave_full_period_ w) = true ->
  (0 <? wave_full_period_ w)%float = true ->
  displacement (Libm0 := IEEE.libm sin) w n elapsed
  = (if (wave_period_ w <? r)%float then 0%float
     else (0x1.999999999999ap-3 * sin (wave_k_ w * r))%float) /\
  (r = IEEE.fmod x (wave_full_period_ w)
   \/ r = (IEEE.fmod x (wave_full_period_ w) + wave_full_period_ w)%float) /\
  (0 <=? r)%float = true /\ (r <=? wave_full_period_ w)%float = true.
Proof.
  intros x r Hx Hp Hpos.
  split; [reflexivity|]. split.
  - subst r. unfold wave_phase. cbn [libm_fmod IEEE.libm].
    destruct (dbl_lt _ _); [by right|by left].
  - exact (phase_in_range x (wave_full_period_ w) Hx Hp Hpos).
Qed.

(** The claim C2 as the specification states it fails in the scenario at
    index 1, a little after elapsed = 2.5: the remainder is [-2^-52], the
    addition of the full period 4 rounds to 4, and [r] is the full period
    itself, outside [0, wave_full_period). *)
Lemma phase_reaches_full_period :
  exists x r,
    x = (IEEE.of_Z 1 * length_ scenario / IEEE.of_Z (nlength_ scenario)
         - wave_velocity_ scenario * 0x1.4000000000001p+1)%float /\
    is_finite x = true /\
    IEEE.fmod x (wave_full_period_ scenario) = (-0x1p-52)%float /\
    r = wave_phase (Libm0 := scenario_libm) scenario x /\
    r = wave_full_period_ scenario /\
    (r <? wave_full_period_ scenario)%float = false.
Proof. eexists _, _. repeat split; vm_compute; reflexivity. Qed.

End Phase64.

(** ** The end-to-end scenario, in binary64 *)

Section Scenario.

Lemma scenario_valid : valid scenario.
Proof. apply WaveMesh_new_valid; rewrite ?SIZE_MOD_eq; lia. Qed.

Lemma scenario_params :
  wave_k_ scenario = 0x1.921fb54442d18p+0%float /\ wave_period_ scenario = 4%float
  /\ wave_full_period_ scenario = 4%float
  /\ wave_velocity_ scenario = 0x1.999999999999ap-2%float.
Proof. repeat split; vm_compute; reflexivity. Qed.

(** The changed indices, from the list of the fresh values. *)
Lemma changed_at_table {D : Type} `{!DoubleOps D} (current : Z -> D) (old new : list D)
  (count i : Z) :
  current <$> seqZ 0 count = new -> 0 <= i < count ->
  changed_at current old i = default false (zip_with dbl_ne new old !! Z.to_nat i).
Proof.
  intros <- Hi. unfold changed_at, vec_get.
  rewrite lookup_zip_with, list_lookup_fmap, lookup_seqZ_lt by lia. simpl.
  rewrite Z2Nat.id by lia.
  by destruct (old !! Z.to_nat i).
Qed.

Lemma dirty_ranges_table {D F : Type} `{!DoubleOps D} `{!Libm D} (w : WaveMesh D F)
  (elapsed : D) (new : list D) (flags : list bool) :
  (fun n => displacement w n elapsed) <$> seqZ 0 (nlength_ w + 1) = new ->
  zip_with dbl_ne new (displacement_ w) = flags ->
  0 <= nlength_ w ->
  dirty_ranges w elapsed
  = ranges_from (fun i => default false (flags !! Z.to_nat i))
                (Z.to_nat (nlength_ w + 1)) 0 [].
Proof.
  intros Hnew Hflags Hn. unfold dirty_ranges.
  apply ranges_from_ext. intros i Hi. rewrite <- Hflags.
  apply (changed_at_table _ _ _ (nlength_ w + 1)); [done|lia].
Qed.

(** [std::sin] is the C library's: the scenario needs its values at four
    arguments, the zero and the doubles next to pi/2, pi and 3*pi/2. *)
Variable sin : float -> float.
Hypothesis sin_0 : sin 0%float = 0%float.
Hypothesis sin_pi_2 : sin 0x1.921fb54442d18p+0%float = 1%float.
Hypothesis sin_pi : sin 0x1.921fb54442d18p+1%float = 0x1.1a62633145c07p-53%float.
Hypothesis sin_3pi_2 : sin 0x1.2d97c7f3321d2p+2%float = (-1)%float.

(** The displacements of the scenario at elapsed = 0. *)
Lemma scenario_at_0 :
  (fun n => displacement (Libm0 := IEEE.libm sin) scenario n 0%float) <$> seqZ 0 5
  = [0; 0x1.999999999999ap-3; 0x1.c3d09eb53c672p-56; -0x1.999999999999ap-3; 0]%float.
Proof.
  assert (E : (fun n => displacement (Libm0 := IEEE.libm sin) scenario n 0%float)
                <$> seqZ 0 5
              = [0x1.999999999999ap-3 * sin 0;
                 0x1.999999999999ap-3 * sin 0x1.921fb54442d18p+0;
                 0x1.999999999999ap-3 * sin 0x1.921fb54442d18p+1;
                 0x1.999999999999ap-3 * sin 0x1.2d97c7f3321d2p+2;
                 0x1.999999999999ap-3 * sin 0]%float)
    by (vm_compute; reflexivity).
  rewrite E, sin_0, sin_pi_2, sin_pi, sin_3pi_2.
  vm_compute. reflexivity.
Qed.

(** The displacements of the scenario at elapsed = 2.5. *)
Lemma scenario_at_2_5 :
  (fun n => displacement (Libm0 := IEEE.libm sin) scenario n 0x1.4p+1%float) <$> seqZ 0 5
  = [-0x1.999999999999ap-3; 0; 0x1.999999999999ap-3; 0x1.c3d09eb53c672p-56;
     -0x1.999999999999ap-3]%float.
Proof.
  assert (E : (fun n => displacement (Libm0 := IEEE.libm sin) scenario n 0x1.4p+1%float)
                <$> seqZ 0 5
              = [0x1.999999999999ap-3 * sin 0x1.2d97c7f3321d2p+2;
                 0x1.999999999999ap-3 * sin 0;
                 0x1.999999999999ap-3 * sin 0x1.921fb54442d18p+0;
                 0x1.999999999999ap-3 * sin 0x1.921fb54442d18p+1;
                 0x1.999999999999ap-3 * sin 0x1.2d97c7f3321d2p+2]%float)
    by (vm_compute; reflexivity).
  rewrite E, sin_0, sin_pi_2, sin_pi, sin_3pi_2.
  vm_compute. reflexivity.
Qed.

(** The first [update], at elapsed = 0: the indices 1, 2 and 3 leave zero
    and form one range. *)
Lemma scenario_update_0 :
  dirty_ranges (Libm0 := IEEE.libm sin) scenario 0%float = [(0, 3)]
  /\ exists vs,
       update (Libm0 := IEEE.libm sin) scenario 0%float
       = Some (scenario_after_0 vs, [(0, 23)])
       /\ valid (scenario_after_0 vs).
Proof.
  assert (Hd : dirty_ranges (Libm0 := IEEE.libm sin) scenario 0%float = [(0, 3)]).
  { rewrite (dirty_ranges_table (Libm0 := IEEE.libm sin) scenario 0%float _
               [false; true; true; true; false] scenario_at_0); done. }
  split; [exact Hd|].
  destruct (update_eq (Libm0 := IEEE.libm sin) scenario 0%float scenario_valid)
    as (vs & E & Hok & _).
  exists vs. split.
  - rewrite E, Hd. unfold scenario_after_0. f_equal. f_equal. f_equal.
    exact scenario_at_0.
  - pose proof (update_valid (Libm0 := IEEE.libm sin) scenario 0%float vs
                  scenario_valid Hok) as Hv.
    change (nlength_ scenario + 1) with 5 in Hv.
    rewrite scenario_at_0 in Hv. exact Hv.
Qed.

(** The second [update], at elapsed = 2.5: every index changes. *)
Lemma scenario_update_2_5 (vs : vertices_t float) :
  valid (scenario_after_0 vs) ->
  detect_ranges (fun n => displacement (Libm0 := IEEE.libm sin) (scenario_after_0 vs) n
                            0x1.4p+1%float)
                4 (displacement_ (scenario_after_0 vs))
  = Some ([-0x1.999999999999ap-3; 0; 0x1.999999999999ap-3; 0x1.c3d09eb53c672p-56;
           -0x1.999999999999ap-3]%float, [(0, 4)])
  /\ exists w2,
       update (Libm0 := IEEE.libm sin) (scenario_after_0 vs) 0x1.4p+1%float
       = Some (w2, [(0, 23)]).
Proof.
  intros Hv.
  assert (Hnew : (fun n => displacement (Libm0 := IEEE.libm sin) (scenario_after_0 vs) n
                             0x1.4p+1%float)
                   <$> seqZ 0 (nlength_ (scenario_after_0 vs) + 1)
                 = [-0x1.999999999999ap-3; 0; 0x1.999999999999ap-3;
                    0x1.c3d09eb53c672p-56; -0x1.999999999999ap-3]%float)
    by exact scenario_at_2_5.
  assert (Hd : dirty_ranges (Libm0 := IEEE.libm sin) (scenario_after_0 vs) 0x1.4p+1%float
               = [(0, 4)]).
  { rewrite (dirty_ranges_table (Libm0 := IEEE.libm sin) _ _ _
               [true; true; true; true; true] Hnew); done. }
  split.
  - pose proof (detect_ranges_dirty (Libm0 := IEEE.libm sin) (scenario_after_0 vs)
                  0x1.4p+1%float Hv) as Hdd.
    rewrite Hd, Hnew in Hdd. exact Hdd.
  - destruct (update_eq (Libm0 := IEEE.libm sin) (scenario_after_0 vs) 0x1.4p+1%float Hv)
      as (vs2 & E & _).
    eexists. rewrite E, Hd. done.
Qed.

(** C6 (as amended): the scenario in binary64, given the values of
    [std::sin] at the four arguments it is called with.  The wave number is
    the double next to pi/2 and the periods are 4; the displacements at
    elapsed = 0 are [0, 0.2, 0.2 * sin(pi), -0.2, 0], where the third is about
    2.4e-17 and not zero, so [update(0)] finds the one dirty range [0, 3] and
    forwards the pair (0, 23).  Then [update(2.5)] evaluates index 1 to
    [wave_func(0) = 0], which differs from the stored 0.2; all five indices
    change, so the only dirty range is [0, 4], it contains index 1, and it
    is forwarded as the vertex range [0, 23], that is [0, 24). *)
Theorem scenario_end_to_end :
  (wave_k_ scenario = 0x1.921fb54442d18p+0%float /\ wave_period_ scenario = 4%float
   /\ wave_full_period_ scenario = 4%float
   /\ wave_velocity_ scenario = 0x1.999999999999ap-2%float) /\
  (fun n => displacement (Libm0 := IEEE.libm sin) scenario n 0%float) <$> seqZ 0 5
  = [0; 0x1.999999999999ap-3; 0x1.c3d09eb53c672p-56; -0x1.999999999999ap-3; 0]%float /\
  dirty_ranges (Libm0 := IEEE.libm sin) scenario 0%float = [(0, 3)] /\
  exists w1 w2,
    update (Libm0 := IEEE.libm sin) scenario 0%float = Some (w1, [(0, 23)]) /\
    displacement_ w1
    = [0; 0x1.999999999999ap-3; 0x1.c3d09eb53c672p-56; -0x1.999999999999ap-3; 0]%float /\
    displacement (Libm0 := IEEE.libm sin) w1 1 0x1.4p+1%float
    = wave_func (Libm0 := IEEE.libm sin) w1 0%float /\
    wave_func (Libm0 := IEEE.libm sin) w1 0%float = 0%float /\
    detect_ranges (fun n => displacement (Libm0 := IEEE.libm sin) w1 n 0x1.4p+1%float)
                  4 (displacement_ w1)
    = Some ([-0x1.999999999999ap-3; 0; 0x1.999999999999ap-3; 0x1.c3d09eb53c672p-56;
             -0x1.999999999999ap-3]%float, [(0, 4)]) /\
    update (Libm0 := IEEE.libm sin) w1 0x1.4p+1%float = Some (w2, [(0, 23)]).
Proof.
  split; [exact scenario_params|]. split; [exact scenario_at_0|].
  destruct scenario_update_0 as (Hd0 & vs & E0 & Hv).
  split; [exact Hd0|].
  destruct (scenario_update_2_5 vs Hv) as (Hdet & w2 & E2).
  exists (scenario_after_0 vs), w2.
  split; [exact E0|]. split; [reflexivity|].
  split; [vm_compute; reflexivity|].
  split; [|split; [exact Hdet|exact E2]].
  assert (E : wave_func (Libm0 := IEEE.libm sin) (scenario_after_0 vs) 0%float
              = (0x1.999999999999ap-3 * sin 0)%float) by (vm_compute; reflexivity).
  rewrite E, sin_0. reflexivity.
Qed.

End Scenario.

Section ScenarioRuns.

(** The table holds the four values. *)
Lemma scenario_sin_values :
  scenario_sin 0%float = 0%float /\
  scenario_sin 0x1.921fb54442d18p+0%float = 1%float /\
  scenario_sin 0x1.921fb54442d18p+1%float = 0x1.1a62633145c07p-53%float /\
  scenario_sin 0x1.2d97c7f3321d2p+2%float = (-1)%float.
Proof. repeat split; reflexivity. Qed.

(** [scenario_end_to_end] with the values of the table. *)
Lemma scenario_end_to_end_witness :
  dirty_ranges (Libm0 := scenario_libm) scenario 0%float = [(0, 3)] /\
  exists w1 w2,
    update (Libm0 := scenario_libm) scenario 0%float = Some (w1, [(0, 23)]) /\
    displacement_ w1
    = [0; 0x1.999999999999ap-3; 0x1.c3d09eb53c672p-56; -0x1.999999999999ap-3; 0]%float /\
    update (Libm0 := scenario_libm) w1 0x1.4p+1%float = Some (w2, [(0, 23)]).
Proof.
  destruct (scenario_end_to_end scenario_sin eq_refl eq_refl eq_refl eq_refl)
    as (_ & _ & Hd & w1 & w2 & E0 & Hdisp & _ & _ & _ & E2).
  split; [exact Hd|]. exists w1, w2.
  split; [exact E0|]. split; [exact Hdisp|exact E2].
Defined.

(** The claim C6 as the specification states it has index 1 forwarded as the
    vertex range [0, 12), the pair [(0, 11)]; the second update forwards
    the single pair [(0, 23)]. *)
Lemma scenario_forwards_whole_buffer :
  exists w1 r1 w2 r2,
    update (Libm0 := scenario_libm) scenario 0%float = Some (w1, r1) /\
    update (Libm0 := scenario_libm) w1 0x1.4p+1%float = Some (w2, r2) /\
    r2 = [(0, 23)] /\ (0, 11) ∉ r2.
Proof.
  destruct (scenario_update_0 scenario_sin eq_refl eq_refl eq_refl eq_refl)
    as (_ & vs & E0 & Hv).
  destruct (scenario_update_2_5 scenario_sin eq_refl eq_refl eq_refl eq_refl vs Hv)
    as (_ & w2 & E2).
  eexists _, _, _, _. split; [exact E0|]. split; [exact E2|]. split; [done|].
  intros Hin. apply list_elem_of_singleton in Hin. discriminate.
Qed.

(** The claim C7 as the specification states it fails on vertex 1 of the
    scenario: its length index is 1, its stored z is 0, and
    [displacement(1, 0)] is 0.2. *)
Lemma initial_z_is_not_displacement :
  exists z,
    vertex_length_index scenario 1 = Some 1 /\
    component (mesh_ scenario) 1 2 = Some z /\
    z = 0%float /\
    displacement (Libm0 := scenario_libm) scenario 1 0%float = 0x1.999999999999ap-3%float /\
    (z <? displacement (Libm0 := scenario_libm) scenario 1 0%float)%float = true.
Proof. exists 0%float. repeat split; vm_compute; reflexivity. Qed.

End ScenarioRuns.

(** ** Binary64: degenerate configurations and concrete ranges *)

Section Binary64.






(** The claim C1 as the specification states it fails for changes at the
    indices 0, 2 and 4: the ranges found are [0,0], [1,2] and [3,4], each
    adjacent to the next. *)
Lemma detect_ranges_adjacent :
  exists disp r1 r2 r3,
    detect_ranges striped_new 4 striped_old = Some (disp, [r1; r2; r3]) /\
    r1 = (0, 0) /\ r2 = (1, 2) /\ r3 = (3, 4) /\
    r1.2 + 1 = r2.1 /\ r2.2 + 1 = r3.1.
Proof. eexists _, _, _, _. vm_compute. repeat split; reflexivity. Qed.

(** The claim C4 as the specification states it fails on a grid of one
    quad when index 0 alone changes: the dirty range is [0, 0], its vertex
    span is [0, 6), and vertex 1 of the span has length index 1. *)
Lemma vertex_range_overshoots :
  exists disp r v li,
    detect_ranges front_new (nlength_ one_quad_mesh) front_old = Some (disp, [r]) /\
    r = (0, 0) /\
    range_vstart one_quad_mesh r <= v < range_vend one_quad_mesh r /\
    vertex_length_index one_quad_mesh v = Some li /\
    r.2 < li.
Proof.
  exists [0x1.999999999999ap-3; 0]%float, (0, 0), 1, 1.
  vm_compute. repeat split; congruence.
Qed.

End Binary64.

(** ** The theorems at concrete inputs *)

Section Witnesses.

(** [detect_ranges_cover] on the striped vectors: five values, changes at
    0, 2 and 4. *)
Lemma detect_ranges_cover_witness :
  0 <= 4 < SIZE_MOD - 1 /\ length striped_old = Z.to_nat (4 + 1) /\
  exists disp ranges,
    detect_ranges striped_new 4 striped_old = Some (disp, ranges) /\
    (forall n, 0 <= n <= 4 -> changed_at striped_new striped_old n = true ->
       exists r, r ∈ ranges /\ r.1 <= n <= r.2).
Proof.
  assert (H1 : 0 <= 4 < SIZE_MOD - 1) by (rewrite SIZE_MOD_eq; lia).
  assert (H2 : length striped_old = Z.to_nat (4 + 1)) by reflexivity.
  split; [exact H1|]. split; [exact H2|].
  destruct (detect_ranges_cover striped_new 4 striped_old H1 H2)
    as (disp & ranges & E & _ & Hc & _).
  exists disp, ranges. split; [exact E|exact Hc].
Defined.

(** [displacement_spec] at index 1 of the scenario, a little after
    elapsed = 2.5, where [r] is the full period 4. *)
Lemma displacement_spec_witness :
  is_finite (IEEE.of_Z 1 * length_ scenario / IEEE.of_Z (nlength_ scenario)
             - wave_velocity_ scenario * 0x1.4000000000001p+1)%float = true /\
  (0 <? wave_full_period_ scenario)%float = true /\
  (0 <=? wave_phase (Libm0 := scenario_libm) scenario
           (IEEE.of_Z 1 * length_ scenario / IEEE.of_Z (nlength_ scenario)
            - wave_velocity_ scenario * 0x1.4000000000001p+1))%float = true /\
  (wave_phase (Libm0 := scenario_libm) scenario
     (IEEE.of_Z 1 * length_ scenario / IEEE.of_Z (nlength_ scenario)
      - wave_velocity_ scenario * 0x1.4000000000001p+1)
   <=? wave_full_period_ scenario)%float = true.
Proof.
  destruct (displacement_spec scenario_sin scenario 1 0x1.4000000000001p+1%float
              eq_refl eq_refl eq_refl) as (_ & _ & H1 & H2).
  split; [reflexivity|]. split; [reflexivity|]. split; [exact H1|exact H2].
Defined.

(** [grid_vertex_length_index] at vertex 241 of the default mesh of 100
    columns and 20 rows. *)
Lemma grid_vertex_length_index_witness :
  exists i j p vx,
    241 = 6 * (i * 20 + j) + p /\ 0 <= i < 100 /\ 0 <= j < 20 /\ 0 <= p < 6 /\
    vec_get (mesh_ default_mesh) 241 = Some vx /\
    vx !! 0%nat = Some (narrow (grid_x 5%float 100 (i + p mod 2))) /\
    241 / (6 * 20) + 241 mod 2 = i + p mod 2 /\
    vertex_length_index default_mesh 241
      = Some (241 / (6 * 20) + 241 mod 2).
Proof.
  apply (grid_vertex_length_index (D := float) (F := float) 5%float 2%float 100 20
           0x1.00068db8bac71p+0%float 1%float 241); rewrite ?SIZE_MOD_eq; lia.
Defined.

(** [vertex_range_length_index] at vertex 1 of the span of the range [0, 0]
    of the mesh of one quad. *)
Lemma vertex_range_length_index_witness :
  range_vstart one_quad_mesh (0, 0) <= 1 < range_vend one_quad_mesh (0, 0) /\
  exists li,
    vertex_length_index one_quad_mesh 1 = Some li /\
    li = 1 / (6 * nwidth_ one_quad_mesh) + 1 mod 2 /\
    0 <= 1 / (6 * nwidth_ one_quad_mesh) <= 0 /\
    0 <= li <= 0 + 1 /\ li <= nlength_ one_quad_mesh /\
    (0 < li <-> 1 / (6 * nwidth_ one_quad_mesh) = 0 /\ 1 mod 2 = 1).
Proof.
  assert (H : range_vstart one_quad_mesh (0, 0) <= 1 < range_vend one_quad_mesh (0, 0))
    by (vm_compute; split; congruence).
  split; [exact H|].
  destruct (vertex_range_length_index one_quad_mesh 0 0 1) as [(li & E & Eli & Hq & _ & Hr & Hn & Ho) _];
    try exact H; [simpl; lia|simpl; rewrite ?SIZE_MOD_eq; lia|lia|simpl; lia|].
  exists li. split; [exact E|]. split; [exact Eli|]. split; [exact Hq|].
  split; [exact Hr|]. split; [exact Hn|exact Ho].
Defined.

(** No displacement of the scenario at elapsed = 0 is NaN. *)
Lemma scenario_ne_refl (n : Z) :
  0 <= n <= nlength_ scenario ->
  dbl_ne (displacement (Libm0 := scenario_libm) scenario n 0%float)
         (displacement (Libm0 := scenario_libm) scenario n 0%float) = false.
Proof.
  intros Hn. change (nlength_ scenario) with 4 in Hn.
  assert (Hc : n = 0 \/ n = 1 \/ n = 2 \/ n = 3 \/ n = 4) by lia.
  destruct Hc as [->|[->|[->|[->| ->]]]]; vm_compute; reflexivity.
Qed.

(** [update_twice_no_op] on the scenario at elapsed = 0. *)
Lemma update_twice_no_op_witness :
  valid scenario /\
  exists w1 r1 w2,
    update (Libm0 := scenario_libm) scenario 0%float = Some (w1, r1) /\
    detect_ranges (fun n => displacement (Libm0 := scenario_libm) w1 n 0%float)
                  (nlength_ w1) (displacement_ w1)
      = Some (displacement_ w1, []) /\
    update (Libm0 := scenario_libm) w1 0%float = Some (w2, []) /\
    mesh_ w2 = mesh_ w1.
Proof.
  split; [exact scenario_valid|].
  exact (update_twice_no_op (Libm0 := scenario_libm) scenario 0%float scenario_valid
           scenario_ne_refl).
Defined.

(** [initial_state] at vertex 241 of the default mesh. *)
Lemma initial_state_witness :
  displacement_ default_mesh = replicate (Z.to_nat (100 + 1)) (dbl_of_Z 0) /\
  exists vx d jy,
    vec_get (mesh_ default_mesh) 241 = Some vx /\
    vx !! 0%nat = Some (narrow (grid_x 5%float 100 (241 / (6 * 20) + 241 mod 2))) /\
    0 <= jy <= 20 /\ vx !! 1%nat = Some (narrow (grid_y 2%float 20 jy)) /\
    vec_get (displacement_ default_mesh) (241 / (6 * 20) + 241 mod 2) = Some d /\
    d = dbl_of_Z 0 /\
    vx !! 2%nat = Some (narrow d) /\ vx !! 5%nat = Some (narrow d) /\
    vx !! 8%nat = Some (narrow d) /\ vx !! 11%nat = Some (narrow d).
Proof.
  apply (initial_state (D := float) (F := float) 5%float 2%float 100 20
           0x1.00068db8bac71p+0%float 1%float 241); rewrite ?SIZE_MOD_eq; lia.
Defined.

(** [update_rewrites_only_z] on the scenario at elapsed = 0. *)
Lemma update_rewrites_only_z_witness :
  valid scenario /\
  exists w' vranges,
    update (Libm0 := scenario_libm) scenario 0%float = Some (w', vranges) /\
    length (mesh_ w') = length (mesh_ scenario) /\
    forall v k : nat,
      ~ (z_component k /\ exists r, r ∈ vranges /\ r.1 <= Z.of_nat v <= r.2) ->
      component (mesh_ w') v k = component (mesh_ scenario) v k.
Proof.
  split; [exact scenario_valid|].
  exact (update_rewrites_only_z (Libm0 := scenario_libm) scenario 0%float scenario_valid).
Defined.

(** [update_in_bounds] on the scenario at elapsed = 0. *)
Lemma update_in_bounds_witness :
  valid scenario /\
  exists w' vranges,
    update (Libm0 := scenario_libm) scenario 0%float = Some (w', vranges) /\ valid w' /\
    vranges = vertex_range scenario
                <$> dirty_ranges (Libm0 := scenario_libm) scenario 0%float /\
    (forall i j r1 r2, vranges !! i = Some r1 -> vranges !! j = Some r2 ->
       (i < j)%nat -> r1.1 <= r1.2 /\ r1.2 < r2.1).
Proof.
  split; [exact scenario_valid|].
  destruct (update_in_bounds (Libm0 := scenario_libm) scenario 0%float scenario_valid)
    as (w' & vranges & E & Hv & Hr & _ & _ & Hs).
  exists w', vranges.
  split; [exact E|]. split; [exact Hv|]. split; [exact Hr|exact Hs].
Defined.

End Witnesses.

(** ** What update writes *)

Section Refresh.
Context {D F : Type} `{!DoubleOps D} `{!Libm D} `{!Narrow D F}.
Context (w : WaveMesh D F).
Context (Hw : 1 <= nwidth_ w) (Hsz : 6 * nlength_ w * nwidth_ w < SIZE_MOD).

(** The four writes of [update_vertex], with the four displacements read. *)
Lemma update_vertex_reads (disp : list D) (v : Z) (vs : vertices_t F) (row : list F) :
  0 <= v < 6 * nlength_ w * nwidth_ w ->
  length disp = Z.to_nat (nlength_ w + 1) ->
  vs !! Z.to_nat v = Some row -> length row = VERTEX_SIZE ->
  exists d0 d1 d2 d3,
    update_vertex w disp v vs
    = Some (<[Z.to_nat v :=
               <[11%nat := narrow d3]> (<[8%nat := narrow d2]>
                 (<[5%nat := narrow d1]> (<[2%nat := narrow d0]> row)))]> vs)
    /\ vec_get disp (length_index w v) = Some d0
    /\ vec_get disp (length_index w (3 * (v / 3))) = Some d1
    /\ vec_get disp (length_index w (3 * (v / 3) + 1)) = Some d2
    /\ vec_get disp (length_index w (3 * (v / 3) + 2)) = Some d3.
Proof.
  intros Hv Hdisp Hrow Hlen. pose proof Hsz as Hsz'. rewrite SIZE_MOD_eq in Hsz'.
  assert (Hvt : sz_mul 3 (v / 3) = 3 * (v / 3)).
  { unfold sz_mul. apply sz_small. rewrite SIZE_MOD_eq.
    pose proof (Z.div_mod v 3 ltac:(lia)). pose proof (Z.mod_pos_bound v 3 ltac:(lia)). lia. }
  assert (Hq : 0 <= 3 * (v / 3) /\ 3 * (v / 3) + 2 < 6 * nlength_ w * nwidth_ w).
  { pose proof (Z.div_mod v 3 ltac:(lia)). pose proof (Z.mod_pos_bound v 3 ltac:(lia)).
    set (M := nlength_ w * nwidth_ w) in *.
    replace (6 * nlength_ w * nwidth_ w) with (6 * M) in * by (unfold M; lia). lia. }
  assert (Hget : forall u, 0 <= u < 6 * nlength_ w * nwidth_ w ->
            exists d, vertex_length_index w u = Some (length_index w u)
                      /\ vec_get disp (length_index w u) = Some d).
  { intros u Hu. destruct (vertex_length_index_eq w u Hw Hsz Hu) as (E & _ & Hli).
    unfold length_index.
    destruct (vec_get_lt disp (u / (6 * nwidth_ w) + u mod 2)) as [d Hd]; [lia|lia|].
    eauto. }
  destruct (Hget v Hv) as (d0 & E0 & G0).
  destruct (Hget (3 * (v / 3)) ltac:(lia)) as (d1 & E1 & G1).
  destruct (Hget (3 * (v / 3) + 1) ltac:(lia)) as (d2 & E2 & G2).
  destruct (Hget (3 * (v / 3) + 2) ltac:(lia)) as (d3 & E3 & G3).
  exists d0, d1, d2, d3. split; [|done].
  unfold update_vertex. rewrite Hvt.
  unfold sz_add. rewrite !sz_small by (rewrite SIZE_MOD_eq; lia).
  rewrite E0. cbn [mbind option_bind]. rewrite G0. cbn [mbind option_bind].
  rewrite (vec_set2_eq _ _ _ _ row) by (done || (rewrite Hlen; unfold VERTEX_SIZE; simpl; lia)).
  cbn [mbind option_bind].
  rewrite E1. cbn [mbind option_bind]. rewrite G1. cbn [mbind option_bind].
  assert (Hvl : (Z.to_nat v < length vs)%nat) by (by apply lookup_lt_Some in Hrow).
  erewrite vec_set2_eq;
    [|by apply list_lookup_insert_eq
     |rewrite !length_insert, Hlen; unfold VERTEX_SIZE; simpl; lia].
  cbn [mbind option_bind].
  rewrite E2. cbn [mbind option_bind]. rewrite G2. cbn [mbind option_bind].
  erewrite vec_set2_eq;
    [|apply list_lookup_insert_eq; by rewrite !length_insert
     |rewrite !length_insert, Hlen; unfold VERTEX_SIZE; simpl; lia].
  cbn [mbind option_bind].
  rewrite E3. cbn [mbind option_bind]. rewrite G3. cbn [mbind option_bind].
  erewrite vec_set2_eq;
    [|apply list_lookup_insert_eq; by rewrite !length_insert
     |rewrite !length_insert, Hlen; unfold VERTEX_SIZE; simpl; lia].
  rewrite !list_insert_insert_eq. done.
Qed.

(** One call of [update_vertex] refreshes its vertex and keeps every other
    refreshed vertex refreshed. *)
Lemma update_vertex_refreshes (disp : list D) (v : Z) (vs vs' : vertices_t F) :
  0 <= v < 6 * nlength_ w * nwidth_ w ->
  length disp = Z.to_nat (nlength_ w + 1) ->
  store_ok (6 * nlength_ w * nwidth_ w) vs ->
  update_vertex w disp v vs = Some vs' ->
  refreshed w disp vs' (Z.to_nat v)
  /\ forall u, refreshed w disp vs u -> refreshed w disp vs' u.
Proof.
  intros Hv Hdisp [Hlen Hall] Hup.
  destruct (lookup_lt_is_Some_2 vs (Z.to_nat v)) as [row Hrow]; [lia|].
  assert (Hrl : length row = VERTEX_SIZE).
  { rewrite Forall_forall in Hall. apply Hall. by eapply list_elem_of_lookup_2. }
  destruct (update_vertex_reads disp v vs row Hv Hdisp Hrow Hrl)
    as (d0 & d1 & d2 & d3 & E & G0 & G1 & G2 & G3).
  rewrite E in Hup. injection Hup as <-.
  assert (Hvl : (Z.to_nat v < length vs)%nat) by (by apply lookup_lt_Some in Hrow).
  assert (Hnew : refreshed w disp
            (<[Z.to_nat v := <[11%nat := narrow d3]> (<[8%nat := narrow d2]>
                 (<[5%nat := narrow d1]> (<[2%nat := narrow d0]> row)))]> vs)
            (Z.to_nat v)).
  { unfold refreshed. rewrite Z2Nat.id by lia.
    exists d0, d1, d2, d3. repeat (split; [done|]).
    unfold component. rewrite list_lookup_insert_eq by done. simpl.
    unfold VERTEX_SIZE in Hrl.
    repeat split.
    - rewrite !list_lookup_insert_ne by lia.
      apply list_lookup_insert_eq. lia.
    - rewrite !list_lookup_insert_ne by lia.
      apply list_lookup_insert_eq. rewrite !length_insert. lia.
    - rewrite !list_lookup_insert_ne by lia.
      apply list_lookup_insert_eq. rewrite !length_insert. lia.
    - apply list_lookup_insert_eq. rewrite !length_insert. lia. }
  split; [exact Hnew|].
  intros u Hu. destruct (decide (u = Z.to_nat v)) as [->|Hne]; [exact Hnew|].
  destruct Hu as (e0 & e1 & e2 & e3 & H0 & H1 & H2 & H3 & C0 & C1 & C2 & C3).
  exists e0, e1, e2, e3. repeat (split; [done|]).
  unfold component in *. rewrite list_lookup_insert_ne by done. done.
Qed.

Lemma vertex_loop_refreshes (disp : list D) count (a : Z) (vs vs' : vertices_t F) :
  0 <= a -> a + Z.of_nat count <= 6 * nlength_ w * nwidth_ w ->
  length disp = Z.to_nat (nlength_ w + 1) ->
  store_ok (6 * nlength_ w * nwidth_ w) vs ->
  for_loopM count a (update_vertex w disp) vs = Some vs' ->
  (forall u : nat, a <= Z.of_nat u < a + Z.of_nat count -> refreshed w disp vs' u)
  /\ forall u, refreshed w disp vs u -> refreshed w disp vs' u.
Proof.
  revert a vs. induction count as [|count IH]; intros a vs Ha Hb Hdisp Hok Hloop.
  - injection Hloop as <-. split; [intros u Hu; lia|done].
  - cbn [for_loopM] in Hloop.
    destruct (update_vertex_ok w Hw Hsz disp a vs ltac:(lia) Hdisp Hok) as (vs1 & E1 & Hok1 & _).
    rewrite E1 in Hloop. cbn [mbind option_bind] in Hloop.
    destruct (update_vertex_refreshes disp a vs vs1 ltac:(lia) Hdisp Hok E1) as [Ra Pa].
    destruct (IH (a + 1) vs1 ltac:(lia) ltac:(lia) Hdisp Hok1 Hloop) as [Rl Pl].
    split.
    + intros u Hu. destruct (decide (Z.of_nat u = a)) as [E|Hne].
      * apply Pl. rewrite <- E in Ra. by rewrite Nat2Z.id in Ra.
      * apply Rl. lia.
    + intros u Hu. auto.
Qed.

Lemma update_ranges_refreshes (disp : list D) (ranges : list (Z * Z))
  (vs vs' : vertices_t F) (vranges : list (Z * Z)) :
  Forall (fun r => 0 <= r.1 <= r.2 /\ r.2 <= nlength_ w /\ r.1 < nlength_ w) ranges ->
  length disp = Z.to_nat (nlength_ w + 1) ->
  store_ok (6 * nlength_ w * nwidth_ w) vs ->
  update_ranges w disp ranges vs = Some (vs', vranges) ->
  (forall u, in_span w ranges u -> refreshed w disp vs' u)
  /\ forall u, refreshed w disp vs u -> refreshed w disp vs' u.
Proof.
  intros Hall Hdisp. revert vs vs' vranges.
  induction Hall as [|r ranges (Hlo & Hhi & Hlt) Hall IH]; intros vs vs' vranges Hok Hup.
  - injection Hup as <- _. split; [|done].
    intros u Hu. by apply Exists_nil in Hu.
  - cbn [update_ranges] in Hup.
    destruct (update_range_ok w Hw Hsz disp r vs Hlo Hhi Hlt Hdisp Hok) as (vs1 & E1 & Hok1 & _).
    rewrite E1 in Hup. cbn [mbind option_bind] in Hup.
    destruct (update_ranges_ok w Hw Hsz disp ranges vs1 Hall Hdisp Hok1) as (vs2 & E2 & _).
    rewrite E2 in Hup. cbn [mbind option_bind] in Hup. injection Hup as <- _.
    destruct (IH vs1 vs2 _ Hok1 E2) as [Rl Pl].
    assert (Hr : (forall u : nat, range_vstart w r <= Z.of_nat u < range_vend w r ->
                    refreshed w disp vs1 u)
                 /\ forall u, refreshed w disp vs u -> refreshed w disp vs1 u).
    { unfold update_range in E1.
      destruct (for_loopM _ _ _ vs) as [vsl|] eqn:El; [|done].
      cbn [mbind option_bind] in E1. injection E1 as ->.
      destruct r as [lo hi]. simpl in Hlo, Hhi, Hlt.
      destruct (range_span w lo hi Hw Hsz Hlo Hhi) as (H0 & Hend & _ & _ & Hne).
      specialize (Hne Hlt).
      assert (Hcount : range_vstart w (lo, hi)
                + Z.of_nat (Z.to_nat (range_vend w (lo, hi) - range_vstart w (lo, hi)))
                <= 6 * nlength_ w * nwidth_ w) by (clear Hsz; lia).
      destruct (vertex_loop_refreshes disp _ _ vs vs1 H0 Hcount Hdisp Hok El) as [R P].
      split; [|exact P]. intros u Hu. apply R. clear Hsz. lia. }
    destruct Hr as [Rr Pr].
    split.
    + intros u Hu. apply Exists_cons in Hu as [Hu|Hu]; [apply Pl, Rr, Hu|by apply Rl].
    + intros u Hu. auto.
Qed.

End Refresh.

(** ** The contents of the vertex store after update *)

Section UpdateContents.
Context {D F : Type} `{!DoubleOps D} `{!Libm D} `{!Narrow D F}.

(** [update] on a valid mesh, with what it leaves alone and what it
    refreshes. *)
Lemma update_result (w : WaveMesh D F) (elapsed : D) :
  valid w ->
  exists vs',
    update w elapsed
    = Some (MkWaveMesh vs' (length_ w) (width_ w) (nlength_ w) (nwidth_ w)
              (wave_k_ w) (wave_period_ w) (wave_full_period_ w) (wave_velocity_ w)
              ((fun n => displacement w n elapsed) <$> seqZ 0 (nlength_ w + 1)),
            vertex_range w <$> dirty_ranges w elapsed)
    /\ store_ok (6 * nlength_ w * nwidth_ w) vs'
    /\ only_z_rewritten
         (fun u => exists r, r ∈ dirty_ranges w elapsed
                             /\ range_vstart w r <= Z.of_nat u < range_vend w r)
         (mesh_ w) vs'
    /\ forall u, in_span w (dirty_ranges w elapsed) u ->
         refreshed w ((fun n => displacement w n elapsed) <$> seqZ 0 (nlength_ w + 1)) vs' u.
Proof.
  intros Hv. pose proof (valid_nlength_bound w Hv) as Hn.
  pose proof (valid_nwidth w Hv) as Hw. pose proof (valid_size w Hv) as Hsz.
  set (disp := (fun n => displacement w n elapsed) <$> seqZ 0 (nlength_ w + 1)).
  assert (Hall : Forall (fun r => 0 <= r.1 <= r.2 /\ r.2 <= nlength_ w /\ r.1 < nlength_ w)
                        (dirty_ranges w elapsed)).
  { apply Forall_forall. intros r Hr. by apply (dirty_ranges_bounds w elapsed). }
  assert (Hdisp : length disp = Z.to_nat (nlength_ w + 1))
    by (unfold disp; by rewrite length_fmap, length_seqZ).
  destruct (update_ranges_ok w Hw Hsz disp (dirty_ranges w elapsed) (mesh_ w) Hall Hdisp
              (valid_store w Hv)) as (vs' & E & Hok & Hz).
  destruct (update_ranges_refreshes w Hw Hsz disp _ _ _ _ Hall Hdisp (valid_store w Hv) E)
    as [R _].
  exists vs'. split; [|done].
  unfold update. rewrite detect_ranges_dirty by done.
  cbn [mbind option_bind]. fold disp. rewrite E. done.
Qed.

(** A vertex whose own length index changed lies in the span of a dirty
    range. *)
Lemma changed_vertex_in_span (w : WaveMesh D F) (elapsed : D) (v : nat) :
  valid w -> Z.of_nat v < 6 * nlength_ w * nwidth_ w ->
  changed_at (fun n => displacement w n elapsed) (displacement_ w)
             (length_index w (Z.of_nat v)) = true ->
  in_span w (dirty_ranges w elapsed) v.
Proof.
  intros Hv Hlt Hc.
  pose proof (valid_nwidth w Hv) as Hw. pose proof (valid_size w Hv) as Hsz.
  pose proof (dirty_ranges_inv w elapsed Hv) as Hi.
  destruct (vertex_length_index_eq w (Z.of_nat v) Hw Hsz ltac:(lia)) as (_ & Hq & Hli).
  fold (length_index w (Z.of_nat v)) in Hli.
  destruct (inv_cover _ _ _ Hi (length_index w (Z.of_nat v)) ltac:(lia) Hc) as (r & Hr & Hin).
  apply Exists_exists. exists r. split; [done|].
  destruct (dirty_ranges_bounds w elapsed r Hv Hr) as (Hlo & Hhi & Hlo').
  pose proof (inv_backstop _ _ _ Hi r Hr) as Hback.
  destruct r as [lo hi]. simpl in *.
  rewrite range_vstart_eq by lia.
  destruct (range_vend_eq w lo hi Hw Hsz ltac:(lia)) as [-> Hb].
  set (b := bool_to_sz (bool_decide (hi < nlength_ w))) in *.
  assert (Hb' : hi < nlength_ w -> b = 1) by (intros; unfold b; by rewrite bool_decide_true).
  assert (Hb0 : 0 <= b) by (unfold b; case_bool_decide; simpl; lia).
  unfold length_index in *.
  set (vz := Z.of_nat v) in *.
  pose proof (Z.div_mod vz (6 * nwidth_ w) ltac:(lia)) as E.
  pose proof (Z.mod_pos_bound vz (6 * nwidth_ w) ltac:(lia)) as B.
  pose proof (Z.div_mod vz 2 ltac:(lia)) as E2.
  pose proof (Z.mod_pos_bound vz 2 ltac:(lia)) as B2.
  pose proof (Z.mod_pos_bound lo 2 ltac:(lia)) as Bl.
  set (q := vz / (6 * nwidth_ w)) in *. set (m := vz mod (6 * nwidth_ w)) in *.
  set (p := vz mod 2) in *. set (h := vz / 2) in *.
  assert (Hq0 : 0 <= q) by (unfold q; apply Z.div_pos; lia).
  assert (Hlo_c : lo < q + p \/ (lo = q + p /\ lo = 0)).
  { destruct Hback as [[H0 _]|[Hf _]]; [lia|].
    destruct (decide (lo = q + p)) as [El|]; [|lia].
    rewrite El in Hf. congruence. }
  clear Hc Hback Hi Hr Hsz.
  assert (Hup : q + 1 <= hi + b).
  { destruct (decide (hi < nlength_ w)) as [Hh|Hh]; [rewrite (Hb' Hh)|]; lia. }
  assert (Hpar : p = 1 -> 1 <= m).
  { intros Hp. destruct (decide (m = 0)) as [Hm|]; [|lia].
    exfalso. assert (vz = 2 * (3 * (nwidth_ w * q))) by lia. lia. }
  split.
  - destruct (decide (lo < q)) as [Hl|Hl].
    + assert (6 * nwidth_ w * (lo + 1) <= 6 * nwidth_ w * q) by nia. nia.
    + assert (lo = q) by lia. subst lo.
      destruct Hlo_c as [Hc|[Hc H0]].
      * assert (p = 1) by lia. specialize (Hpar ltac:(lia)). nia.
      * assert (q = 0) by lia. assert (p = 0) by lia.
        replace (q mod 2) with 0 in * by (replace q with 0 by lia; done). nia.
  - assert (6 * nwidth_ w * (q + 1) <= 6 * nwidth_ w * (hi + b)) by nia. nia.
Qed.

Lemma in_span_exists (w : WaveMesh D F) (ranges : list (Z * Z)) (v : nat) :
  in_span w ranges v
  <-> exists r, r ∈ ranges /\ range_vstart w r <= Z.of_nat v < range_vend w r.
Proof. unfold in_span. apply Exists_exists. Qed.

#[local] Instance in_span_dec (w : WaveMesh D F) (ranges : list (Z * Z)) (v : nat) :
  Decision (in_span w ranges v).
Proof. unfold in_span. apply _. Qed.

End UpdateContents.

(** ** Properties of update beyond its frame *)

Section UpdateProperties.
Context {D F : Type} `{!DoubleOps D} `{!Libm D} `{!Narrow D F}.

Lemma fresh_displacement_lookup (w : WaveMesh D F) (elapsed : D) (i : Z) :
  0 <= i <= nlength_ w ->
  vec_get ((fun n => displacement w n elapsed) <$> seqZ 0 (nlength_ w + 1)) i
  = Some (displacement w i elapsed).
Proof.
  intros Hi. unfold vec_get.
  rewrite list_lookup_fmap, lookup_seqZ_lt by lia. simpl.
  by rewrite Z2Nat.id by lia.
Qed.

(** X1: after [update], [displacement_] holds the fresh value of every
    index, changed or not, and every vertex inside a forwarded range has the
    four z components the vertex loop writes: its own from the displacement
    of its length index, the three others from those of the vertices of its
    triangle. *)
Theorem update_refreshes_ranges (w : WaveMesh D F) (elapsed : D) :
  valid w ->
  exists w' vranges,
    update w elapsed = Some (w', vranges) /\
    displacement_ w' = (fun n => displacement w n elapsed) <$> seqZ 0 (nlength_ w + 1) /\
    forall r (v : nat), r ∈ vranges -> r.1 <= Z.of_nat v <= r.2 ->
      refreshed w (displacement_ w') (mesh_ w') v.
Proof.
  intros Hv. destruct (update_result w elapsed Hv) as (vs' & E & _ & _ & R).
  eexists _, _. split; [exact E|]. split; [done|]. simpl.
  intros r' v Hr' Hin. apply R.
  apply list_elem_of_fmap in Hr' as (r & -> & Hr).
  apply in_span_exists. exists r. split; [done|].
  unfold vertex_range in Hin. simpl in Hin. lia.
Qed.

(** An unchanged index keeps agreeing with what agreed with its old
    value. *)
Lemma agree_unchanged (a b c : D) :
  (forall a b c : D, dbl_ne a b = false -> dbl_ne b c = false -> dbl_ne a c = false) ->
  dbl_ne a b = false -> agree b c -> agree a c.
Proof.
  intros Htrans Hab [<-|Hbc]; right; [done|]. by apply (Htrans a b c).
Qed.

(** [update] keeps the own z of every vertex in agreement with the
    displacement of its length index. *)
Lemma update_sync (w : WaveMesh D F) (elapsed : D) :
  valid w ->
  (forall a b c : D, dbl_ne a b = false -> dbl_ne b c = false -> dbl_ne a c = false) ->
  own_z_in_sync w ->
  exists vs',
    update w elapsed
    = Some (MkWaveMesh vs' (length_ w) (width_ w) (nlength_ w) (nwidth_ w)
              (wave_k_ w) (wave_period_ w) (wave_full_period_ w) (wave_velocity_ w)
              ((fun n => displacement w n elapsed) <$> seqZ 0 (nlength_ w + 1)),
            vertex_range w <$> dirty_ranges w elapsed)
    /\ store_ok (6 * nlength_ w * nwidth_ w) vs'
    /\ forall v : nat, Z.of_nat v < 6 * nlength_ w * nwidth_ w ->
         exists d0, agree (displacement w (length_index w (Z.of_nat v)) elapsed) d0
                    /\ component vs' v 2 = Some (narrow d0).
Proof.
  intros Hv Htrans Hsync.
  destruct (update_result w elapsed Hv) as (vs' & E & Hok & [_ Hz] & R).
  exists vs'. split; [exact E|]. split; [exact Hok|].
  intros v Hlt.
  destruct (vertex_length_index_eq w (Z.of_nat v) (valid_nwidth w Hv) (valid_size w Hv)
              ltac:(lia)) as (_ & _ & Hli).
  fold (length_index w (Z.of_nat v)) in Hli.
  destruct (decide (in_span w (dirty_ranges w elapsed) v)) as [Hin|Hout].
  - destruct (R v Hin) as (d0 & _ & _ & _ & G0 & _ & _ & _ & C0 & _).
    rewrite fresh_displacement_lookup in G0 by lia. injection G0 as <-.
    eexists. split; [by left|exact C0].
  - destruct (Hsync v Hlt) as (d & d0 & Gd & Ha & Cd).
    exists d0. split.
    + apply (agree_unchanged _ d); [done| |done].
      destruct (changed_at (fun n => displacement w n elapsed) (displacement_ w)
                  (length_index w (Z.of_nat v))) eqn:Hc.
      * exfalso. apply Hout. by apply changed_vertex_in_span.
      * unfold changed_at in Hc. by rewrite Gd in Hc.
    + rewrite Hz; [done|].
      intros [Hd _]. apply Hout. by apply in_span_exists.
Qed.

(** X2: the incremental update is as good as a full rewrite for the vertex
    positions, up to what the test [!=] cannot see.  If the own z of every
    vertex is the float of a double that agrees with the stored
    displacement of its length index (is the same, or is not told apart from
    it by [!=]), then after [update(elapsed)] the own z of every vertex,
    inside or outside the dirty ranges, is the float of a double that agrees
    with [displacement(lengthIndex(v), elapsed)].  The test [!=] is assumed
    transitive where it answers false, as it is in binary64. *)
Theorem update_keeps_own_z (w : WaveMesh D F) (elapsed : D) :
  valid w ->
  (forall a b c : D, dbl_ne a b = false -> dbl_ne b c = false -> dbl_ne a c = false) ->
  own_z_in_sync w ->
  exists w' vranges,
    update w elapsed = Some (w', vranges) /\
    own_z_in_sync w' /\
    forall v : nat, Z.of_nat v < 6 * nlength_ w * nwidth_ w ->
      exists d0, agree (displacement w (length_index w (Z.of_nat v)) elapsed) d0
                 /\ component (mesh_ w') v 2 = Some (narrow d0).
Proof.
  intros Hv Htrans Hsync.
  destruct (update_sync w elapsed Hv Htrans Hsync) as (vs' & E & Hok & Hz).
  eexists _, _. split; [exact E|]. split; [|exact Hz].
  intros v Hlt. simpl in Hlt.
  destruct (vertex_length_index_eq w (Z.of_nat v) (valid_nwidth w Hv) (valid_size w Hv)
              ltac:(lia)) as (_ & _ & Hli).
  destruct (Hz v Hlt) as (d0 & Ha & Cd).
  exists (displacement w (length_index w (Z.of_nat v)) elapsed), d0.
  split; [|done].
  change (length_index _ (Z.of_nat v)) with (length_index w (Z.of_nat v)).
  simpl. apply fresh_displacement_lookup. exact Hli.
Qed.

(** Every two ranges of a sorted list are equal or one is before the
    other. *)
Lemma sorted_ranges_trichotomy (ranges : list (Z * Z)) (r1 r2 : Z * Z) :
  StronglySorted range_before ranges -> r1 ∈ ranges -> r2 ∈ ranges ->
  r1 = r2 \/ range_before r1 r2 \/ range_before r2 r1.
Proof.
  intros Hs [i Hi]%list_elem_of_lookup [j Hj]%list_elem_of_lookup.
  destruct (Nat.lt_trichotomy i j) as [Hlt|[->|Hgt]].
  - right. left. by apply (StronglySorted_lookup_lt _ ranges i j).
  - left. congruence.
  - right. right. by apply (StronglySorted_lookup_lt _ ranges j i).
Qed.

(** X3: a dirty range that starts at an odd length index [lo] has
    [vstart = lo * nwidth * 6 + 1], so [update] leaves the vertex
    [6 * nwidth * lo] as it was, although that vertex starts a triangle whose
    second corner lies on the length index [lo + 1], which changed. *)
Theorem update_skips_odd_range_start (w : WaveMesh D F) (elapsed : D) (r : Z * Z) :
  valid w -> r ∈ dirty_ranges w elapsed -> r.1 mod 2 = 1 ->
  exists w' vranges,
    update w elapsed = Some (w', vranges) /\
    0 <= 6 * nwidth_ w * r.1 < 6 * nlength_ w * nwidth_ w /\
    (forall k, component (mesh_ w') (Z.to_nat (6 * nwidth_ w * r.1)) k
               = component (mesh_ w) (Z.to_nat (6 * nwidth_ w * r.1)) k) /\
    3 * (6 * nwidth_ w * r.1 / 3) = 6 * nwidth_ w * r.1 /\
    vertex_length_index w (6 * nwidth_ w * r.1 + 1) = Some (r.1 + 1) /\
    changed_at (fun n => displacement w n elapsed) (displacement_ w) (r.1 + 1) = true.
Proof.
  intros Hv Hr Hodd.
  pose proof (valid_nwidth w Hv) as Hw. pose proof (valid_size w Hv) as Hsz.
  pose proof (dirty_ranges_inv w elapsed Hv) as Hi.
  destruct (dirty_ranges_bounds w elapsed r Hv Hr) as (Hlo & Hhi & Hlt).
  destruct (update_result w elapsed Hv) as (vs' & E & _ & [_ Hz] & _).
  assert (Hback : changed_at (fun n => displacement w n elapsed) (displacement_ w) r.1 = false
                  /\ r.1 < r.2).
  { destruct (inv_backstop _ _ _ Hi r Hr) as [[H0 _]|Hb]; [|done].
    rewrite H0 in Hodd. done. }
  assert (Hv0 : 0 <= 6 * nwidth_ w * r.1 < 6 * nlength_ w * nwidth_ w) by nia.
  eexists _, _. split; [exact E|]. split; [exact Hv0|]. simpl.
  split; [|split; [|split]].
  - intros k. apply Hz. intros [(r' & Hr' & Hin) _].
    rewrite Z2Nat.id in Hin by lia.
    destruct (dirty_ranges_bounds w elapsed r' Hv Hr') as (Hlo' & Hhi' & Hlt').
    destruct r as [lo hi], r' as [lo' hi']. simpl in *.
    rewrite range_vstart_eq in Hin by lia.
    destruct (range_vend_eq w lo' hi' Hw Hsz ltac:(lia)) as [Ev Hb]. rewrite Ev in Hin.
    pose proof (Z.mod_pos_bound lo' 2 ltac:(lia)) as Bl.
    destruct (sorted_ranges_trichotomy _ (lo, hi) (lo', hi') (inv_sorted _ _ _ Hi) Hr Hr')
      as [Eq|[Hb1|Hb2]]; unfold range_before in *; simpl in *.
    + injection Eq as <- <-. lia.
    + clear Hsz. nia.
    + rewrite bool_decide_true in Hin by lia. simpl in Hin. clear Hsz. nia.
  - replace (6 * nwidth_ w * r.1) with (2 * nwidth_ w * r.1 * 3) by lia.
    rewrite Z.div_mul by lia. lia.
  - destruct (vertex_length_index_eq w (6 * nwidth_ w * r.1 + 1) Hw Hsz ltac:(nia))
      as (-> & _ & _).
    assert (Hdiv : (6 * nwidth_ w * r.1 + 1) / (6 * nwidth_ w) = r.1).
    { replace (6 * nwidth_ w * r.1 + 1) with (1 + r.1 * (6 * nwidth_ w)) by lia.
      rewrite Z.div_add by lia. rewrite (Z.div_small 1) by lia. lia. }
    assert (Hmod : (6 * nwidth_ w * r.1 + 1) mod 2 = 1).
    { replace (6 * nwidth_ w * r.1 + 1) with (1 + (3 * nwidth_ w * r.1) * 2) by lia.
      by rewrite Z_mod_plus_full. }
    by rewrite Hdiv, Hmod.
  - apply (inv_run _ _ _ Hi r); [done|lia].
Qed.

Lemma ranges_from_all (chg : Z -> bool) (count : nat) (k : Z) :
  1 <= k -> k + Z.of_nat count <= SIZE_MOD ->
  (forall i, k <= i < k + Z.of_nat count -> chg i = true) ->
  ranges_from chg count k [(0, k - 1)] = [(0, k + Z.of_nat count - 1)].
Proof.
  revert k. induction count as [|count IH]; intros k Hk Hb Hc.
  - simpl. do 2 f_equal. lia.
  - cbn [ranges_from]. rewrite (Hc k) by lia.
    assert (Hm : mark_dirty k [(0, k - 1)] = [(0, k + 1 - 1)]).
    { unfold mark_dirty. simpl.
      unfold sz_sub. rewrite sz_small by (rewrite SIZE_MOD_eq in *; lia).
      rewrite decide_True by done. simpl. do 2 f_equal. lia. }
    rewrite Hm, IH; [|lia|lia|intros i Hi'; apply Hc; lia].
    do 2 f_equal. lia.
Qed.

(** X4: when every length index changes, the ranges coalesce into one and
    [update] forwards the whole buffer as the single range
    [0, 6 * nlength * nwidth - 1]. *)
Theorem update_all_changed (w : WaveMesh D F) (elapsed : D) :
  valid w ->
  (forall n, 0 <= n <= nlength_ w ->
     changed_at (fun n => displacement w n elapsed) (displacement_ w) n = true) ->
  exists w',
    update w elapsed = Some (w', [(0, 6 * nlength_ w * nwidth_ w - 1)]).
Proof.
  intros Hv Hc. pose proof (valid_nlength_bound w Hv) as Hn.
  pose proof (valid_nwidth w Hv) as Hw. pose proof (valid_size w Hv) as Hsz.
  destruct (update_result w elapsed Hv) as (vs' & E & _).
  assert (Hd : dirty_ranges w elapsed = [(0, nlength_ w)]).
  { unfold dirty_ranges.
    replace (Z.to_nat (nlength_ w + 1)) with (S (Z.to_nat (nlength_ w))) by lia.
    cbn [ranges_from]. rewrite Hc by lia.
    change (mark_dirty 0 []) with [(0, 1 - 1)].
    rewrite ranges_from_all; [do 2 f_equal; lia|lia|lia|].
    intros i Hi. apply Hc. lia. }
  eexists. rewrite E, Hd. simpl. do 3 f_equal.
  unfold vertex_range.
  rewrite range_vstart_eq by lia.
  destruct (range_vend_eq w 0 (nlength_ w) Hw Hsz ltac:(lia)) as [-> _].
  rewrite bool_decide_false by lia. simpl. f_equal. lia.
Qed.

End UpdateProperties.

(** ** Frames in sequence *)

Section Frames.
Context {D F : Type} `{!DoubleOps D} `{!Libm D} `{!Narrow D F}.

(** The own z of the mesh the constructor builds tracks the stored
    displacement of its length index: both are zero. *)
Lemma WaveMesh_new_in_sync (length width : D) (nlength nwidth : Z) (wavelength duty_cycle : D) :
  1 <= nwidth -> 6 * nlength * nwidth < SIZE_MOD ->
  own_z_in_sync (WaveMesh_new (F := F) length width nlength nwidth wavelength duty_cycle).
Proof.
  intros Hw Hsz v Hv. simpl in Hv.
  assert (Hn : sz_add nlength 1 = nlength + 1).
  { unfold sz_add. apply sz_small. rewrite SIZE_MOD_eq in *. nia. }
  destruct (vertex_index_split nlength nwidth (Z.of_nat v) Hw ltac:(lia))
    as (i & j & p & E & Hi & Hj & Hp & Eq & Em).
  exists (dbl_of_Z 0), (dbl_of_Z 0). split; [|split; [by left|]].
  - simpl. rewrite Hn. unfold vec_get, length_index. simpl. apply lookup_replicate_2.
    pose proof (Z.mod_pos_bound (Z.of_nat v) 2 ltac:(lia)). lia.
  - pose proof (make_grid_lookup (F := F) nlength nwidth length width (dbl_of_Z 0) i j p Hi Hj Hp)
      as Hl.
    rewrite <- E in Hl. unfold vec_get in Hl. rewrite Nat2Z.id in Hl.
    unfold component. simpl. unfold create_mesh. rewrite Hl. simpl.
    by rewrite corner_table_z.
Qed.

(** Any number of frames on a valid mesh, with the own z kept in sync. *)
Lemma run_updates_sync (ts : list D) (w : WaveMesh D F) :
  valid w ->
  (forall a b c : D, dbl_ne a b = false -> dbl_ne b c = false -> dbl_ne a c = false) ->
  own_z_in_sync w ->
  exists w',
    run_updates w ts = Some w' /\ valid w' /\ own_z_in_sync w' /\
    nlength_ w' = nlength_ w /\ nwidth_ w' = nwidth_ w /\
    (forall n t, displacement w' n t = displacement w n t) /\
    (ts <> [] ->
     displacement_ w'
     = (fun n => displacement w n (List.last ts (dbl_of_Z 0))) <$> seqZ 0 (nlength_ w + 1)).
Proof.
  revert w. induction ts as [|t ts IH]; intros w Hv Hne Hsync.
  - exists w. simpl. repeat (split; [done|]). done.
  - destruct (update_sync w t Hv Hne Hsync) as (vs' & E & Hok & Hz).
    set (w1 := MkWaveMesh vs' (length_ w) (width_ w) (nlength_ w) (nwidth_ w)
                 (wave_k_ w) (wave_period_ w) (wave_full_period_ w) (wave_velocity_ w)
                 ((fun n => displacement w n t) <$> seqZ 0 (nlength_ w + 1))) in *.
    assert (Hv1 : valid w1) by (by apply update_valid).
    assert (Hs1 : own_z_in_sync w1).
    { intros v Hlt. simpl in Hlt.
      destruct (vertex_length_index_eq w (Z.of_nat v) (valid_nwidth w Hv) (valid_size w Hv)
                  ltac:(lia)) as (_ & _ & Hli).
      destruct (Hz v Hlt) as (d0 & Ha & Cd).
      exists (displacement w (length_index w (Z.of_nat v)) t), d0.
      split; [|done].
      change (length_index w1 (Z.of_nat v)) with (length_index w (Z.of_nat v)).
      simpl. apply fresh_displacement_lookup. exact Hli. }
    destruct (IH w1 Hv1 Hne Hs1) as (w' & Er & Hv' & Hs' & Hnl & Hnw & Hd & Hlast).
    exists w'. cbn [run_updates]. rewrite E. cbn [mbind option_bind].
    split; [exact Er|]. split; [done|]. split; [done|].
    split; [done|]. split; [done|]. split; [intros n t'; by rewrite Hd|].
    intros _. destruct ts as [|t2 ts].
    + simpl in Er. injection Er as <-. done.
    + rewrite Hlast by done. done.
Qed.

(** X5: a valid mesh can be updated frame after frame: whatever the elapsed
    times, no [update] of the sequence reads or writes outside
    [displacement_] or the vertex store or divides by zero, and the mesh
    stays valid with the same grid size. *)
Theorem frames_never_fault (ts : list D) (w : WaveMesh D F) :
  valid w ->
  exists w', run_updates w ts = Some w' /\ valid w'
             /\ nlength_ w' = nlength_ w /\ nwidth_ w' = nwidth_ w.
Proof.
  revert w. induction ts as [|t ts IH]; intros w Hv.
  - exists w. done.
  - destruct (update_eq w t Hv) as (vs' & E & Hok & _).
    destruct (IH _ (update_valid w t vs' Hv Hok)) as (w' & Er & Hv' & Hn1 & Hn2).
    exists w'. cbn [run_updates]. rewrite E. cbn [mbind option_bind]. done.
Qed.

(** X6: on a valid mesh whose own z (float 2 of every vertex) tracks the
    stored displacements, as after the constructor, any sequence of frames
    ending at time [t] leaves the displacements of time [t] in
    [displacement_] and, as own z of every vertex, the float of a double
    that agrees with the displacement of its length index at time [t] (is
    the same, or is not told apart from it by [!=]), whether or not the
    vertex was inside a forwarded range of any frame.  The test [!=] is
    assumed transitive where it answers false, as it is in binary64. *)
Theorem frames_own_z_is_last_displacement (ts : list D) (t : D) (w : WaveMesh D F) :
  valid w ->
  (forall a b c : D, dbl_ne a b = false -> dbl_ne b c = false -> dbl_ne a c = false) ->
  own_z_in_sync w ->
  exists w',
    run_updates w (ts ++ [t]) = Some w' /\
    displacement_ w' = (fun n => displacement w n t) <$> seqZ 0 (nlength_ w + 1) /\
    forall v : nat, Z.of_nat v < 6 * nlength_ w * nwidth_ w ->
      exists d0, agree (displacement w (length_index w (Z.of_nat v)) t) d0
                 /\ component (mesh_ w') v 2 = Some (narrow d0).
Proof.
  intros Hv Htrans Hsync.
  destruct (run_updates_sync (ts ++ [t]) w Hv Htrans Hsync)
    as (w' & Er & Hv' & Hs' & Hnl & Hnw & Hd & Hlast).
  exists w'. split; [done|].
  assert (Hdisp : displacement_ w'
                  = (fun n => displacement w n t) <$> seqZ 0 (nlength_ w + 1)).
  { rewrite Hlast by (by destruct ts). by rewrite last_last. }
  split; [done|].
  intros v Hlt.
  destruct (Hs' v) as (d & d0 & Hd1 & Ha & Hd2).
  { rewrite Hnl, Hnw. exact Hlt. }
  exists d0. split; [|exact Hd2].
  assert (Hli : length_index w' (Z.of_nat v) = length_index w (Z.of_nat v)).
  { unfold length_index. by rewrite Hnw. }
  rewrite Hli, Hdisp in Hd1.
  destruct (vertex_length_index_eq w (Z.of_nat v) (valid_nwidth w Hv) (valid_size w Hv)
              ltac:(lia)) as (_ & Hb & Hli0).
  pose proof (fresh_displacement_lookup w t (length_index w (Z.of_nat v)) Hli0) as Hf.
  congruence.
Qed.

End Frames.

(** ** The layout wave_grid_conf writes *)

Section QuadLayout.
Context {D F : Type} `{!DoubleOps D} `{!Narrow D F}.

(** X12: one call of [wave_grid_conf] leaves the vertices already in the
    store alone and appends six vertices of twelve floats, the triangles
    (ll, ur, ul) and (ur, ll, lr).  In each of them the own position (floats
    0 to 2) of the vertex at place [p] is repeated as triangle corner
    [p mod 3] (floats [3 + 3 * (p mod 3)] and the two after it), and the
    three vertices of a triangle carry the same nine corner floats: this is
    the layout the vertex loop of [update] relies on when it writes floats
    2, 5, 8 and 11. *)
Theorem wave_grid_conf_layout (m : vertices_t F) (x y n_x n_y : Z) (ul ll ur lr : vec3 F) :
  exists q : vertices_t F,
    wave_grid_conf m x y n_x n_y ul ll ur lr = m ++ q /\
    length q = 6%nat /\
    Forall (fun vx => length vx = VERTEX_SIZE) q /\
    take 3 <$> q = (fun c => [v3x c; v3y c; v3z c]) <$> [ll; ur; ul; ur; ll; lr] /\
    (forall (p : nat) vx, q !! p = Some vx ->
       take 3 (drop (3 + 3 * (p mod 3)) vx) = take 3 vx) /\
    (forall (p p' : nat) vx vx', q !! p = Some vx -> q !! p' = Some vx' ->
       (p / 3 = p' / 3)%nat -> drop 3 vx = drop 3 vx').
Proof.
  eexists. split; [apply wave_grid_conf_eq|].
  split; [reflexivity|].
  split; [by repeat constructor|].
  split; [reflexivity|].
  split.
  - intros p vx Hp.
    do 6 (destruct p as [|p]; [injection Hp as <-; reflexivity|]).
    discriminate Hp.
  - intros p p' vx vx' Hp Hp' E.
    do 6 (destruct p as [|p];
          [injection Hp as <-;
           do 6 (destruct p' as [|p']; [injection Hp' as <-; first [reflexivity|discriminate E]|]);
           discriminate Hp'|]).
    discriminate Hp.
Qed.

End QuadLayout.

(** ** The triangle corners after update *)

Section TriangleCorners.
Context {D F : Type} `{!DoubleOps D} `{!Libm D} `{!Narrow D F}.

(** The three vertices of a triangle lie in the same column of quads. *)
Lemma triangle_column (nw v k : Z) :
  1 <= nw -> 0 <= v -> 0 <= k < 3 ->
  (3 * (v / 3) + k) / (6 * nw) = v / (6 * nw).
Proof.
  intros Hnw Hv Hk.
  replace (6 * nw) with (3 * (2 * nw)) by lia.
  rewrite <- (Z.div_div (3 * (v / 3) + k) 3 (2 * nw)) by lia.
  rewrite <- (Z.div_div v 3 (2 * nw)) by lia.
  f_equal.
  rewrite (Z.mul_comm 3), Z.div_add_l by lia.
  rewrite (Z.div_small k 3) by lia. lia.
Qed.

(** The length index of a vertex is the column of its quad or the next
    one. *)
Lemma length_index_column (w : WaveMesh D F) (u : Z) :
  length_index w u = u / (6 * nwidth_ w) \/ length_index w u = u / (6 * nwidth_ w) + 1.
Proof.
  unfold length_index. pose proof (Z.mod_pos_bound u 2 ltac:(lia)). lia.
Qed.

(** A changed length index on either edge of the column of a vertex puts
    the vertex in the span of a dirty range, unless the vertex is the first
    of a range that starts at an odd length index. *)
Lemma changed_column_in_span (w : WaveMesh D F) (elapsed : D) (v : nat) (n : Z) :
  valid w -> Z.of_nat v < 6 * nlength_ w * nwidth_ w ->
  n = Z.of_nat v / (6 * nwidth_ w) \/ n = Z.of_nat v / (6 * nwidth_ w) + 1 ->
  changed_at (fun n => displacement w n elapsed) (displacement_ w) n = true ->
  in_span w (dirty_ranges w elapsed) v
  \/ exists r, r ∈ dirty_ranges w elapsed /\ r.1 mod 2 = 1
               /\ Z.of_nat v = 6 * nwidth_ w * r.1.
Proof.
  intros Hv Hlt Hn Hc.
  pose proof (valid_nwidth w Hv) as Hw. pose proof (valid_size w Hv) as Hsz.
  pose proof (dirty_ranges_inv w elapsed Hv) as Hi.
  destruct (vertex_length_index_eq w (Z.of_nat v) Hw Hsz ltac:(lia)) as (_ & Hq & _).
  set (vz := Z.of_nat v) in *.
  assert (Hq0 : 0 <= vz / (6 * nwidth_ w)) by (apply Z.div_pos; lia).
  destruct (inv_cover _ _ _ Hi n ltac:(lia) Hc) as (r & Hr & Hin).
  destruct (dirty_ranges_bounds w elapsed r Hv Hr) as (Hlo & Hhi & Hlo').
  pose proof (inv_backstop _ _ _ Hi r Hr) as Hback.
  destruct (decide (r.1 mod 2 = 1 /\ vz = 6 * nwidth_ w * r.1)) as [[Hodd Hfirst]|Hnot].
  { right. exists r. done. }
  left. apply Exists_exists. exists r. split; [done|].
  destruct r as [lo hi]. simpl in *.
  rewrite range_vstart_eq by lia.
  destruct (range_vend_eq w lo hi Hw Hsz ltac:(lia)) as [-> Hb].
  set (b := bool_to_sz (bool_decide (hi < nlength_ w))) in *.
  assert (Hb' : hi < nlength_ w -> b = 1) by (intros; unfold b; by rewrite bool_decide_true).
  assert (Hb0 : 0 <= b) by (unfold b; case_bool_decide; simpl; lia).
  pose proof (Z.div_mod vz (6 * nwidth_ w) ltac:(lia)) as E.
  pose proof (Z.mod_pos_bound vz (6 * nwidth_ w) ltac:(lia)) as B.
  pose proof (Z.mod_pos_bound lo 2 ltac:(lia)) as Bl.
  set (q := vz / (6 * nwidth_ w)) in *. set (m := vz mod (6 * nwidth_ w)) in *.
  assert (Hlo_q : lo <= q).
  { destruct Hback as [[H0 _]|[Hf _]]; [lia|].
    destruct (decide (lo = n)) as [El|]; [|lia].
    rewrite El in Hf. congruence. }
  assert (Hup : q + 1 <= hi + b).
  { destruct (decide (hi < nlength_ w)) as [Hh|Hh]; [rewrite (Hb' Hh)|]; lia. }
  clear Hc Hback Hi Hr Hsz.
  split.
  - destruct (decide (lo < q)) as [Hl|Hl].
    + assert (6 * nwidth_ w * (lo + 1) <= 6 * nwidth_ w * q) by nia. nia.
    + assert (lo = q) by lia. subst lo.
      destruct (decide (m = 0)) as [Hm|Hm]; [|nia].
      destruct (decide (q mod 2 = 1)) as [Ho|Ho]; [|nia].
      exfalso. apply Hnot. split; [done|]. nia.
  - assert (6 * nwidth_ w * (q + 1) <= 6 * nwidth_ w * (hi + b)) by nia. nia.
Qed.

(** What [update] writes is tracked. *)
Lemma refreshed_tracked (w : WaveMesh D F) (disp : list D) (vs : vertices_t F) (v : nat) :
  refreshed w disp vs v -> z_tracked w disp vs v.
Proof.
  intros (d0 & d1 & d2 & d3 & G0 & G1 & G2 & G3 & C0 & C1 & C2 & C3).
  repeat split; eexists _, _; (split; [eassumption|split; [by left|eassumption]]).
Qed.

(** [update] on a mesh whose z components all track the stored
    displacements: they track the fresh ones afterwards, except at the
    first vertex of a dirty range that starts at an odd length index. *)
Lemma update_all_sync (w : WaveMesh D F) (elapsed : D) :
  valid w ->
  (forall a b c : D, dbl_ne a b = false -> dbl_ne b c = false -> dbl_ne a c = false) ->
  all_z_in_sync w ->
  exists vs',
    update w elapsed
    = Some (MkWaveMesh vs' (length_ w) (width_ w) (nlength_ w) (nwidth_ w)
              (wave_k_ w) (wave_period_ w) (wave_full_period_ w) (wave_velocity_ w)
              ((fun n => displacement w n elapsed) <$> seqZ 0 (nlength_ w + 1)),
            vertex_range w <$> dirty_ranges w elapsed)
    /\ forall v : nat, Z.of_nat v < 6 * nlength_ w * nwidth_ w ->
         (forall r, r ∈ dirty_ranges w elapsed -> r.1 mod 2 = 1 ->
            Z.of_nat v <> 6 * nwidth_ w * r.1) ->
         z_tracked w ((fun n => displacement w n elapsed) <$> seqZ 0 (nlength_ w + 1)) vs' v.
Proof.
  intros Hv Htrans Hsync.
  destruct (update_result w elapsed Hv) as (vs' & E & Hok & [_ Hz] & R).
  exists vs'. split; [exact E|].
  intros v Hlt Hfirst.
  destruct (decide (in_span w (dirty_ranges w elapsed) v)) as [Hin|Hout];
    [by apply refreshed_tracked, R|].
  pose proof (valid_nwidth w Hv) as Hw.
  destruct (vertex_length_index_eq w (Z.of_nat v) Hw (valid_size w Hv) ltac:(lia))
    as (_ & Hq & _).
  assert (Hq0 : 0 <= Z.of_nat v / (6 * nwidth_ w)) by (apply Z.div_pos; lia).
  set (q := Z.of_nat v / (6 * nwidth_ w)) in *.
  assert (Hkeep : forall k, component vs' v k = component (mesh_ w) v k).
  { intros k. apply Hz. intros [Hd _]. apply Hout. by apply in_span_exists. }
  assert (Hun : forall (u : Z) (k : nat),
             u / (6 * nwidth_ w) = q ->
             tracks w (displacement_ w) (mesh_ w) v k u ->
             tracks w ((fun n => displacement w n elapsed) <$> seqZ 0 (nlength_ w + 1))
                    vs' v k u).
  { intros u k Hu (d & d0 & Gd & Ha & Cd).
    assert (Hcol : length_index w u = q \/ length_index w u = q + 1).
    { rewrite <- Hu. apply length_index_column. }
    exists (displacement w (length_index w u) elapsed), d0.
    split; [apply fresh_displacement_lookup; lia|].
    split; [|by rewrite Hkeep].
    apply (agree_unchanged _ d); [done| |done].
    destruct (changed_at (fun n => displacement w n elapsed) (displacement_ w)
                (length_index w u)) eqn:Hc.
    - exfalso.
      destruct (changed_column_in_span w elapsed v _ Hv Hlt Hcol Hc)
        as [Hin|(r & Hr & Ho & Hf)].
      + by apply Hout.
      + by apply (Hfirst r).
    - unfold changed_at in Hc. by rewrite Gd in Hc. }
  assert (Ht : forall k, 0 <= k < 3 ->
                 (3 * (Z.of_nat v / 3) + k) / (6 * nwidth_ w) = q).
  { intros k Hk. apply triangle_column; lia. }
  destruct (Hsync v Hlt) as (T0 & T1 & T2 & T3).
  split; [by apply Hun|].
  split; [apply Hun; [rewrite <- (Ht 0) by lia; by rewrite Z.add_0_r|done]|].
  split; apply Hun; try done; apply Ht; lia.
Qed.

(** The constructor leaves every z component at zero, which is what the
    zeroed [displacement_] gives. *)
Lemma WaveMesh_new_all_in_sync (length width : D) (nlength nwidth : Z)
  (wavelength duty_cycle : D) :
  1 <= nwidth -> 6 * nlength * nwidth < SIZE_MOD ->
  all_z_in_sync (WaveMesh_new (F := F) length width nlength nwidth wavelength duty_cycle).
Proof.
  intros Hw Hsz v Hv. simpl in Hv.
  assert (Hn : sz_add nlength 1 = nlength + 1).
  { unfold sz_add. apply sz_small. rewrite SIZE_MOD_eq in *. nia. }
  destruct (vertex_index_split nlength nwidth (Z.of_nat v) Hw ltac:(lia))
    as (i & j & p & E & Hi & Hj & Hp & Eq & Em).
  assert (Hq0 : 0 <= Z.of_nat v / (6 * nwidth)) by (apply Z.div_pos; lia).
  assert (Hget : forall u, u / (6 * nwidth) = Z.of_nat v / (6 * nwidth) ->
            vec_get (replicate (Z.to_nat (nlength + 1)) (dbl_of_Z 0))
                    (u / (6 * nwidth) + u mod 2) = Some (dbl_of_Z 0)).
  { intros u ->. unfold vec_get. apply lookup_replicate_2.
    pose proof (Z.mod_pos_bound u 2 ltac:(lia)). lia. }
  pose proof (make_grid_lookup (F := F) nlength nwidth length width (dbl_of_Z 0) i j p Hi Hj Hp)
    as Hl.
  rewrite <- E in Hl. unfold vec_get in Hl. rewrite Nat2Z.id in Hl.
  assert (Hc : forall k : nat, k = 2%nat \/ k = 5%nat \/ k = 8%nat \/ k = 11%nat ->
            component (mesh_ (WaveMesh_new (F := F) length width nlength nwidth
                                wavelength duty_cycle)) v k
            = Some (narrow (dbl_of_Z 0))).
  { intros k Hk. unfold component. simpl. unfold create_mesh. rewrite Hl.
    destruct Hk as [->|[->|[->| ->]]]; simpl; by rewrite corner_table_z. }
  assert (Htr : forall (k : nat) (u : Z),
            k = 2%nat \/ k = 5%nat \/ k = 8%nat \/ k = 11%nat ->
            u / (6 * nwidth) = Z.of_nat v / (6 * nwidth) ->
            tracks (WaveMesh_new (F := F) length width nlength nwidth wavelength duty_cycle)
                   (displacement_ (WaveMesh_new (F := F) length width nlength nwidth
                                     wavelength duty_cycle))
                   (mesh_ (WaveMesh_new (F := F) length width nlength nwidth
                             wavelength duty_cycle)) v k u).
  { intros k u Hk Hu. exists (dbl_of_Z 0), (dbl_of_Z 0).
    split; [|split; [by left|by apply Hc]].
    simpl. rewrite Hn. unfold length_index. simpl. by apply Hget. }
  split; [apply Htr; [by left|done]|].
  split; [apply Htr; [by right; left|];
          rewrite <- (Z.add_0_r (3 * _)); apply triangle_column; lia|].
  split; apply Htr; try (apply triangle_column; lia); [right; right; by left|by repeat right].
Qed.

(** X13: the triangle corners after [update].  On a mesh whose four z
    components of every vertex track the stored displacements (each is the
    float of a double that is the same as the stored displacement of the
    length index concerned, or not told apart from it by [!=]), as after the
    constructor, [update] leaves every vertex with four z components that
    track the fresh displacements, inside or outside the forwarded ranges,
    with one exception: the first vertex [6 * nwidth * lo] of a dirty range
    that starts at an odd length index [lo].  When no dirty range starts at
    an odd index the whole store tracks the fresh displacements.  The test
    [!=] is assumed transitive where it answers false, as it is in
    binary64. *)
Theorem update_keeps_triangle_corners (w : WaveMesh D F) (elapsed : D) :
  valid w ->
  (forall a b c : D, dbl_ne a b = false -> dbl_ne b c = false -> dbl_ne a c = false) ->
  all_z_in_sync w ->
  exists w' vranges,
    update w elapsed = Some (w', vranges) /\
    (forall v : nat, Z.of_nat v < 6 * nlength_ w * nwidth_ w ->
       (forall r, r ∈ dirty_ranges w elapsed -> r.1 mod 2 = 1 ->
          Z.of_nat v <> 6 * nwidth_ w * r.1) ->
       z_tracked w' (displacement_ w') (mesh_ w') v) /\
    ((forall r, r ∈ dirty_ranges w elapsed -> r.1 mod 2 = 0) -> all_z_in_sync w').
Proof.
  intros Hv Htrans Hsync.
  destruct (update_all_sync w elapsed Hv Htrans Hsync) as (vs' & E & R).
  eexists _, _. split; [exact E|]. split.
  - intros v Hlt Hfirst. exact (R v Hlt Hfirst).
  - intros Heven v Hlt. apply (R v Hlt).
    intros r Hr Hodd. specialize (Heven r Hr). lia.
Qed.

End TriangleCorners.

(** ** The further properties at concrete inputs *)

Section ScenarioFacts.

(** Two finite doubles compare equal when they have the same sign, mantissa
    and exponent. *)
Lemma SFeqb_finite (s1 : bool) (m1 : positive) (e1 : Z) (s2 : bool) (m2 : positive) (e2 : Z) :
  SFeqb (S754_finite s1 m1 e1) (S754_finite s2 m2 e2) = true
  <-> s1 = s2 /\ m1 = m2 /\ e1 = e2.
Proof.
  unfold SFeqb, SFcompare. split.
  - destruct s1, s2; try discriminate;
      destruct (e1 ?= e2) eqn:He; try discriminate;
      apply Z.compare_eq in He; subst e2;
      change (Pos.compare_cont Eq m1 m2) with (m1 ?= m2)%positive;
      destruct (m1 ?= m2)%positive eqn:Hm; try discriminate;
      apply Pos.compare_eq in Hm; subst m2; done.
  - intros (-> & -> & ->). rewrite Z.compare_refl.
    change (Pos.compare_cont Eq m2 m2) with (m2 ?= m2)%positive.
    rewrite Pos.compare_refl. by destruct s2.
Qed.

Lemma SFeqb_trans (x y z : spec_float) :
  SFeqb x y = true -> SFeqb y z = true -> SFeqb x z = true.
Proof.
  destruct x as [sx|sx| |sx mx ex], y as [sy|sy| |sy my ey], z as [sz|sz| |sz mz ez];
    try (intros H1 H2; (discriminate H1 || discriminate H2 || reflexivity));
    try (destruct sx, sy; intros H1 H2; (discriminate H1 || discriminate H2));
    try (destruct sx, sy, sz; intros H1 H2; (discriminate H1 || discriminate H2 || reflexivity)).
  intros (-> & -> & ->)%SFeqb_finite (-> & -> & ->)%SFeqb_finite.
  by apply SFeqb_finite.
Qed.

(** In binary64 the test [!=] is transitive where it answers false. *)
Lemma IEEE_ne_trans (a b c : float) :
  dbl_ne a b = false -> dbl_ne b c = false -> dbl_ne a c = false.
Proof.
  cbn [dbl_ne IEEE.ops]. unfold IEEE.ne.
  rewrite !FloatAxioms.eqb_spec.
  intros H1%negb_false_iff H2%negb_false_iff. apply negb_false_iff.
  by apply (SFeqb_trans _ (Prim2SF b)).
Qed.

Lemma scenario_own_z_in_sync : own_z_in_sync scenario.
Proof. apply WaveMesh_new_in_sync; rewrite ?SIZE_MOD_eq; lia. Qed.

Lemma scenario_all_z_in_sync : all_z_in_sync scenario.
Proof. apply WaveMesh_new_all_in_sync; rewrite ?SIZE_MOD_eq; lia. Qed.

(** The first frame of the scenario at elapsed = 0: the indices 1, 2 and 3
    change, the one range starts at 0. *)
Lemma scenario_dirty_0 : dirty_ranges (Libm0 := scenario_libm) scenario 0%float = [(0, 3)].
Proof. vm_compute. reflexivity. Qed.

(** The first frame of the scenario at elapsed = 2.5: the indices 0, 2, 3
    and 4 change, the ranges start at 0 and 1. *)
Lemma scenario_dirty_2_5 :
  dirty_ranges (Libm0 := scenario_libm) scenario 0x1.4p+1%float = [(0, 0); (1, 4)].
Proof. vm_compute. reflexivity. Qed.

(** The scenario after the frame at elapsed = 0, on the vertex store of the
    constructor. *)
Lemma scenario_after_0_valid : valid (scenario_after_0 (mesh_ scenario)).
Proof. destruct scenario_valid. by split. Qed.

Lemma scenario_after_0_all_changed (n : Z) :
  0 <= n <= nlength_ (scenario_after_0 (mesh_ scenario)) ->
  changed_at (fun n => displacement (Libm0 := scenario_libm)
                         (scenario_after_0 (mesh_ scenario)) n 0x1.4p+1%float)
             (displacement_ (scenario_after_0 (mesh_ scenario))) n = true.
Proof.
  intros Hn. change (nlength_ _) with 4 in Hn.
  assert (Hc : n = 0 \/ n = 1 \/ n = 2 \/ n = 3 \/ n = 4) by lia.
  destruct Hc as [->|[->|[->|[->| ->]]]]; vm_compute; reflexivity.
Qed.

End ScenarioFacts.

Section ExtraWitnesses.

(** [update_refreshes_ranges] on the scenario at elapsed = 0. *)
Lemma update_refreshes_ranges_witness :
  valid scenario /\
  exists w' vranges,
    update (Libm0 := scenario_libm) scenario 0%float = Some (w', vranges) /\
    displacement_ w'
    = (fun n => displacement (Libm0 := scenario_libm) scenario n 0%float)
        <$> seqZ 0 (nlength_ scenario + 1) /\
    forall r (v : nat), r ∈ vranges -> r.1 <= Z.of_nat v <= r.2 ->
      refreshed scenario (displacement_ w') (mesh_ w') v.
Proof.
  split; [exact scenario_valid|].
  exact (update_refreshes_ranges (Libm0 := scenario_libm) scenario 0%float scenario_valid).
Defined.

(** [update_keeps_own_z] on the scenario at elapsed = 0. *)
Lemma update_keeps_own_z_witness :
  valid scenario /\ own_z_in_sync scenario /\
  exists w' vranges,
    update (Libm0 := scenario_libm) scenario 0%float = Some (w', vranges) /\
    own_z_in_sync w' /\
    forall v : nat, Z.of_nat v < 6 * nlength_ scenario * nwidth_ scenario ->
      exists d0,
        agree (displacement (Libm0 := scenario_libm) scenario
                 (length_index scenario (Z.of_nat v)) 0%float) d0
        /\ component (mesh_ w') v 2 = Some (narrow d0).
Proof.
  split; [exact scenario_valid|]. split; [exact scenario_own_z_in_sync|].
  exact (update_keeps_own_z (Libm0 := scenario_libm) scenario 0%float scenario_valid
           IEEE_ne_trans scenario_own_z_in_sync).
Defined.

(** [update_skips_odd_range_start] on the fresh scenario at elapsed = 2.5,
    for the dirty range [1, 4]: vertex 6 is left alone. *)
Lemma update_skips_odd_range_start_witness :
  valid scenario /\
  (1, 4) ∈ dirty_ranges (Libm0 := scenario_libm) scenario 0x1.4p+1%float /\
  exists w' vranges,
    update (Libm0 := scenario_libm) scenario 0x1.4p+1%float = Some (w', vranges) /\
    (forall k, component (mesh_ w') (Z.to_nat (6 * nwidth_ scenario * 1)) k
               = component (mesh_ scenario) (Z.to_nat (6 * nwidth_ scenario * 1)) k) /\
    vertex_length_index scenario (6 * nwidth_ scenario * 1 + 1) = Some (1 + 1) /\
    changed_at (fun n => displacement (Libm0 := scenario_libm) scenario n 0x1.4p+1%float)
               (displacement_ scenario) (1 + 1)
    = true.
Proof.
  assert (Hr : (1, 4) ∈ dirty_ranges (Libm0 := scenario_libm) scenario 0x1.4p+1%float).
  { rewrite scenario_dirty_2_5. apply list_elem_of_lookup. by exists 1%nat. }
  split; [exact scenario_valid|]. split; [exact Hr|].
  destruct (update_skips_odd_range_start (Libm0 := scenario_libm) scenario 0x1.4p+1%float
              (1, 4) scenario_valid Hr eq_refl)
    as (w' & vranges & E & _ & Hk & _ & Hli & Hc).
  exists w', vranges. split; [exact E|]. split; [exact Hk|]. split; [exact Hli|exact Hc].
Defined.

(** [update_all_changed] on the scenario after the frame at elapsed = 0, at
    elapsed = 2.5. *)
Lemma update_all_changed_witness :
  valid (scenario_after_0 (mesh_ scenario)) /\
  exists w',
    update (Libm0 := scenario_libm) (scenario_after_0 (mesh_ scenario)) 0x1.4p+1%float
    = Some (w', [(0, 6 * 4 * 1 - 1)]).
Proof.
  split; [exact scenario_after_0_valid|].
  exact (update_all_changed (Libm0 := scenario_libm) (scenario_after_0 (mesh_ scenario))
           0x1.4p+1%float scenario_after_0_valid scenario_after_0_all_changed).
Defined.

(** [frames_never_fault] on the scenario, frames at 0 and 2.5. *)
Lemma frames_never_fault_witness :
  valid scenario /\
  exists w',
    run_updates (Libm0 := scenario_libm) scenario [0%float; 0x1.4p+1%float] = Some w'
    /\ valid w' /\ nlength_ w' = nlength_ scenario /\ nwidth_ w' = nwidth_ scenario.
Proof.
  split; [exact scenario_valid|].
  exact (frames_never_fault (Libm0 := scenario_libm) [0%float; 0x1.4p+1%float] scenario
           scenario_valid).
Defined.

(** [frames_own_z_is_last_displacement] on the scenario, frames at 0 and
    2.5. *)
Lemma frames_own_z_is_last_displacement_witness :
  valid scenario /\ own_z_in_sync scenario /\
  exists w',
    run_updates (Libm0 := scenario_libm) scenario ([0%float] ++ [0x1.4p+1%float]) = Some w' /\
    displacement_ w'
    = (fun n => displacement (Libm0 := scenario_libm) scenario n 0x1.4p+1%float)
        <$> seqZ 0 (nlength_ scenario + 1) /\
    forall v : nat, Z.of_nat v < 6 * nlength_ scenario * nwidth_ scenario ->
      exists d0,
        agree (displacement (Libm0 := scenario_libm) scenario
                 (length_index scenario (Z.of_nat v)) 0x1.4p+1%float) d0
        /\ component (mesh_ w') v 2 = Some (narrow d0).
Proof.
  split; [exact scenario_valid|]. split; [exact scenario_own_z_in_sync|].
  exact (frames_own_z_is_last_displacement (Libm0 := scenario_libm) [0%float]
           0x1.4p+1%float scenario scenario_valid IEEE_ne_trans scenario_own_z_in_sync).
Defined.

(** [update_keeps_triangle_corners] on the scenario at elapsed = 0, where
    the one dirty range starts at 0. *)
Lemma update_keeps_triangle_corners_witness :
  valid scenario /\ all_z_in_sync scenario /\
  exists w' vranges,
    update (Libm0 := scenario_libm) scenario 0%float = Some (w', vranges)
    /\ all_z_in_sync w'.
Proof.
  split; [exact scenario_valid|]. split; [exact scenario_all_z_in_sync|].
  destruct (update_keeps_triangle_corners (Libm0 := scenario_libm) scenario 0%float
              scenario_valid IEEE_ne_trans scenario_all_z_in_sync)
    as (w' & vranges & E & _ & Hall).
  exists w', vranges. split; [exact E|].
  apply Hall. rewrite scenario_dirty_0. intros r Hr.
  apply list_elem_of_singleton in Hr. by subst r.
Defined.

End ExtraWitnesses.
